(** * kachery-daemon: content-addressed storage, signed subfeeds, hub coordination

    A shallow embedding of the parts of the daemon that carry its invariants:

    - [Subfeed]: [LocalSubfeedSignedMessagesManager] (load-and-verify of a
      signed message chain, append with duplicate tolerance);
    - [Storage]: [KacheryStorageManager] (lookup through direct and link
      files, buffer / stream / bucket ingest, the streaming manifest
      builder, chunk concatenation);
    - [Hub]: [KacheryHubInterface] (pubsub subscriptions, the requestFile
      waiter, incoming message routing, bucket paths).

    Part I holds the model, Part II the theorems. *)

From Stdlib Require Import ZArith List String Ascii Bool Lia.
From stdpp Require Import base gmap strings list.
Import ListNotations.

Open Scope Z_scope.

Set Warnings "-register-all".

(* ===================================================================== *)
(** * Part I: the model                                                   *)
(* ===================================================================== *)

(** ** Computations that mutate an object and may throw

    Methods of the daemon's classes mutate [this] (or the disk) and may
    throw half-way; what was mutated before the throw stays mutated.  A
    computation therefore maps a state to an outcome and a state. *)

Module Exec.

Inductive outcome (E A : Type) : Type :=
| Returns (a : A)
| Throws (e : E).
Arguments Returns {E A} a.
Arguments Throws {E A} e.

Definition t (S E A : Type) : Type := S -> outcome E A * S.

Definition ret {S E A} (a : A) : t S E A := fun s => (Returns a, s).

Definition throw {S E A} (e : E) : t S E A := fun s => (Throws e, s).

Definition bind {S E A B} (m : t S E A) (k : A -> t S E B) : t S E B :=
  fun s => match m s with
           | (Returns a, s') => k a s'
           | (Throws e, s') => (Throws e, s')
           end.

Definition get {S E} : t S E S := fun s => (Returns s, s).

Definition modify {S E} (f : S -> S) : t S E unit := fun s => (Returns tt, f s).

(** [try { m } catch (e) { h e }] *)
Definition catch {S E A} (m : t S E A) (h : E -> t S E A) : t S E A :=
  fun s => match m s with
           | (Returns a, s') => (Returns a, s')
           | (Throws e, s') => h e s'
           end.

(** A pure result (of a collaborator) lifted into a computation. *)
Definition lift {S E A} (r : outcome E A) : t S E A := fun s => (r, s).

(** [if (c) throw e] *)
Definition throw_if {S E} (c : bool) (e : E) : t S E unit :=
  if c then throw e else ret tt.

Definition returned {E A} (r : outcome E A) : bool :=
  match r with Returns _ => true | Throws _ => false end.

End Exec.

Import Exec.

Notation "'let*' x := m 'in' k" := (Exec.bind m (fun x => k))
  (at level 10, x name, m at level 100, k at level 200,
   format "'[v' 'let*'  x  :=  m  'in' '/' k ']'").
Notation "m ;; k" := (Exec.bind m (fun _ => k))
  (at level 100, k at level 200, right associativity).

(** Unfolds the combinators in a goal. *)
Ltac exec_unfold :=
  unfold Exec.bind, Exec.get, Exec.modify, Exec.ret, Exec.throw, Exec.catch, Exec.lift,
    Exec.throw_if; cbv beta.

(** ** JavaScript idioms used by the sources *)

Module JS.

(** [`${s[i]}`] inside a template literal: the character at [i], or the
    text [undefined] when [s] is shorter. *)
Definition index (s : string) (i : nat) : string :=
  match String.get i s with
  | Some c => String c EmptyString
  | None => "undefined"
  end.

(** Truthiness of a string: every string but the empty one. *)
Definition truthy (s : string) : bool :=
  match s with EmptyString => false | String _ _ => true end.

(** [x || null] for [x : string | null | undefined]. *)
Definition or_null (x : option string) : option string :=
  match x with
  | Some s => if truthy s then Some s else None
  | None => None
  end.

(** [a === b] for [a b : string | null]. *)
Definition strict_eq (a b : option string) : bool :=
  match a, b with
  | None, None => true
  | Some x, Some y => String.eqb x y
  | _, _ => false
  end.

End JS.

(** ** LocalSubfeedSignedMessagesManager *)

Module Subfeed.

Definition Signature : Type := string.
Definition PublicKey : Type := string.
Definition FeedId : Type := string.
Definition SubfeedHash : Type := string.

(** [SignedSubfeedMessage]: [{body: {message, messageNumber,
    previousSignature, timestamp}, signature}].  The payload [message] is
    kept as text; [previousSignature] is [None] when null or absent. *)
Record SubfeedMessageBody : Type := {
  message : string;
  messageNumber : Z;
  previousSignature : option Signature;
  timestamp : Z
}.

Record SignedSubfeedMessage : Type := {
  body : SubfeedMessageBody;
  signature : Signature
}.

Inductive SubfeedError : Type :=
| UnableToVerifySignature (sig : Signature)
| InconsistentPreviousSignature (expected got : option Signature)
| IncorrectMessageNumber (expected got : Z)
| SignedMessagesIsNull
| FirstMessageNumberNotZero
| UnexpectedFirstMessageNumber (first lastPlusOne : Z)
| LocalFeedManagerError (what : string).

(** [verifySignature] of [commonInterface/crypto/signatures] (Ed25519 over
    the canonical serialization of the body). *)
Class SignatureVerifier : Type :=
  verifySignature : SubfeedMessageBody -> PublicKey -> Signature -> bool.

(** [LocalFeedManagerInterface]: the backing log, a collaborator. *)
Class LocalFeedManagerInterface (L : Type) : Type := {
  getSignedSubfeedMessages :
    L -> FeedId -> SubfeedHash -> outcome SubfeedError (list SignedSubfeedMessage);
  addSignedMessagesToSubfeed :
    L -> FeedId -> SubfeedHash -> list SignedSubfeedMessage -> outcome SubfeedError L
}.

Section Manager.
Context {L : Type} `{SignatureVerifier} `{LocalFeedManagerInterface L}.

(** The object's fields; [signedMessages] is the private in-memory cache,
    [None] until the manager is initialized. *)
Record Manager : Type := {
  localFeedManager : L;
  feedId : FeedId;
  subfeedHash : SubfeedHash;
  publicKey : PublicKey;
  signedMessages : option (list SignedSubfeedMessage)
}.

Definition set_signedMessages (v : option (list SignedSubfeedMessage)) (this : Manager) : Manager :=
  {| localFeedManager := localFeedManager this; feedId := feedId this;
     subfeedHash := subfeedHash this; publicKey := publicKey this;
     signedMessages := v |}.

Definition set_localFeedManager (l : L) (this : Manager) : Manager :=
  {| localFeedManager := l; feedId := feedId this;
     subfeedHash := subfeedHash this; publicKey := publicKey this;
     signedMessages := signedMessages this |}.

(** The body of the [for (let msg of messages)] loop of
    [initializeFromLocal], with the two loop variables as arguments. *)
Fixpoint verifyMessages (pk : PublicKey) (previousSignature0 : option Signature)
    (previousMessageNumber : Z) (messages : list SignedSubfeedMessage)
    : outcome SubfeedError unit :=
  match messages with
  | [] => Returns tt
  | msg :: rest =>
      if negb (verifySignature (body msg) pk (signature msg)) then
        Throws (UnableToVerifySignature (signature msg))
      else if negb (JS.strict_eq previousSignature0 (JS.or_null (previousSignature (body msg)))) then
        Throws (InconsistentPreviousSignature previousSignature0 (previousSignature (body msg)))
      else if negb (previousMessageNumber + 1 =? messageNumber (body msg)) then
        Throws (IncorrectMessageNumber (previousMessageNumber + 1) (messageNumber (body msg)))
      else
        verifyMessages pk (Some (signature msg)) (messageNumber (body msg)) rest
  end.

Definition initializeFromLocal : Exec.t Manager SubfeedError unit :=
  let* this := Exec.get in
  let* messages := Exec.lift (getSignedSubfeedMessages (localFeedManager this) (feedId this) (subfeedHash this)) in
  Exec.lift (verifyMessages (publicKey this) None (-1) messages) ;;
  Exec.modify (set_signedMessages (Some messages)).

Definition initializeEmptyMessageList : Exec.t Manager SubfeedError unit :=
  Exec.modify (set_signedMessages (Some [])).

Definition isInitialized (this : Manager) : bool :=
  match signedMessages this with Some _ => true | None => false end.

Definition getNumMessages : Exec.t Manager SubfeedError Z :=
  let* this := Exec.get in
  match signedMessages this with
  | None => Exec.throw SignedMessagesIsNull
  | Some ms => Exec.ret (Z.of_nat (length ms))
  end.

(** One turn of [for (let sm of signedMessagesToAdd)]: push [sm] when its
    number equals the current length, drop it otherwise. *)
Definition pushIfNext (ms : list SignedSubfeedMessage) (sm : SignedSubfeedMessage)
    : list SignedSubfeedMessage :=
  if messageNumber (body sm) =? Z.of_nat (length ms) then ms ++ [sm] else ms.

Definition firstMessageNumber (ms : list SignedSubfeedMessage) : option Z :=
  match ms with [] => None | sm :: _ => Some (messageNumber (body sm)) end.

Definition lastMessageNumber (ms : list SignedSubfeedMessage) : option Z :=
  match last ms with None => None | Some sm => Some (messageNumber (body sm)) end.

(** The guard of [addSignedMessages] on the first incoming number. *)
Definition checkFirstAppendNumber (existing toAdd : list SignedSubfeedMessage)
    : outcome SubfeedError unit :=
  match firstMessageNumber toAdd with
  | None => Returns tt
  | Some firstAppendMessageNumber =>
      match lastMessageNumber existing with
      | None =>
          if negb (firstAppendMessageNumber =? 0) then Throws FirstMessageNumberNotZero
          else Returns tt
      | Some lastExistingMessageNumber =>
          if firstAppendMessageNumber >? lastExistingMessageNumber + 1 then
            Throws (UnexpectedFirstMessageNumber firstAppendMessageNumber (lastExistingMessageNumber + 1))
          else Returns tt
      end
  end.

Definition addSignedMessages (signedMessagesToAdd : list SignedSubfeedMessage)
    : Exec.t Manager SubfeedError unit :=
  let* this := Exec.get in
  match signedMessages this with
  | None => Exec.throw SignedMessagesIsNull
  | Some existing =>
      Exec.lift (checkFirstAppendNumber existing signedMessagesToAdd) ;;
      let* l := Exec.lift (addSignedMessagesToSubfeed (localFeedManager this) (feedId this)
                           (subfeedHash this) signedMessagesToAdd) in
      Exec.modify (fun this0 =>
        set_signedMessages (Some (fold_left pushIfNext signedMessagesToAdd existing))
          (set_localFeedManager l this0))
  end.

End Manager.

Arguments Manager L : clear implicits.

(** *** What the specification asks of a loaded chain *)

(** Values of type [Signature] are hex strings, never empty. *)
Definition wellTyped (msg : SignedSubfeedMessage) : Prop :=
  previousSignature (body msg) <> Some EmptyString.

(** [messages[i].body.messageNumber == i], every signature verifies,
    [messages[0].body.previousSignature == null] and
    [messages[i+1].body.previousSignature == messages[i].signature]. *)
Definition chainValid `{SignatureVerifier} (pk : PublicKey)
    (messages : list SignedSubfeedMessage) : Prop :=
  (forall (i : nat) msg, messages !! i = Some msg ->
     messageNumber (body msg) = Z.of_nat i /\
     verifySignature (body msg) pk (signature msg) = true) /\
  (forall msg, messages !! 0%nat = Some msg -> previousSignature (body msg) = None) /\
  (forall (i : nat) msg next, messages !! i = Some msg -> messages !! S i = Some next ->
     previousSignature (body next) = Some (signature msg)).

(** What the loop of [initializeFromLocal] accepts, from the loop's own
    point of view: the two loop variables and the rest of the list. *)
Fixpoint accepted `{SignatureVerifier} (pk : PublicKey) (prev : option Signature) (prevNumber : Z)
    (messages : list SignedSubfeedMessage) : Prop :=
  match messages with
  | [] => True
  | msg :: rest =>
      verifySignature (body msg) pk (signature msg) = true /\
      JS.or_null (previousSignature (body msg)) = prev /\
      prevNumber + 1 = messageNumber (body msg) /\
      accepted pk (Some (signature msg)) (messageNumber (body msg)) rest
  end.

(** The index form of the chain conditions, for a list that continues a
    chain at number [k] after signature [prev]. *)
Definition chainValidFrom `{SignatureVerifier} (pk : PublicKey) (prev : option Signature) (k : Z)
    (messages : list SignedSubfeedMessage) : Prop :=
  (forall (i : nat) msg, messages !! i = Some msg ->
     messageNumber (body msg) = k + Z.of_nat i /\
     verifySignature (body msg) pk (signature msg) = true) /\
  (forall msg, messages !! 0%nat = Some msg -> previousSignature (body msg) = prev) /\
  (forall (i : nat) msg next, messages !! i = Some msg -> messages !! S i = Some next ->
     previousSignature (body next) = Some (signature msg)).

(** Message numbers never decrease along a batch (consecutive numbers are
    the usual case). *)
Fixpoint numbersAscend (batch : list SignedSubfeedMessage) : Prop :=
  match batch with
  | [] => True
  | a :: rest =>
      match rest with
      | [] => True
      | b :: _ => messageNumber (body a) <= messageNumber (body b)
      end /\ numbersAscend rest
  end.

End Subfeed.

(** *** A backing log held in memory, and a stand-in signature scheme

    Used to run the manager on concrete chains. *)

Module SubfeedSamples.
Import Subfeed.

(** The log of one subfeed, oldest message first. *)
Definition MemoryLog : Type := list SignedSubfeedMessage.

#[export] Instance memoryLog : LocalFeedManagerInterface MemoryLog := {|
  getSignedSubfeedMessages := fun log _ _ => Returns log;
  addSignedMessagesToSubfeed := fun log _ _ batch => Returns (log ++ batch)
|}.

(** A signature is accepted when it spells the key and the payload. *)
#[export] Instance spelledSignatures : SignatureVerifier :=
  fun b pk sig => String.eqb sig (pk +:+ ":" +:+ message b).

Definition signed (payload : string) (n : Z) (prev : option Signature) : SignedSubfeedMessage :=
  {| body := {| message := payload; messageNumber := n; previousSignature := prev; timestamp := 0 |};
     signature := "feed01:" +:+ payload |}.

Definition m0 : SignedSubfeedMessage := signed "a" 0 None.
Definition m1 : SignedSubfeedMessage := signed "b" 1 (Some "feed01:a").
Definition m2 : SignedSubfeedMessage := signed "c" 2 (Some "feed01:b").

Definition manager (log : MemoryLog) (cache : option (list SignedSubfeedMessage)) : Manager MemoryLog :=
  {| localFeedManager := log; feedId := "feed01"; subfeedHash := "sub01";
     publicKey := "feed01"; signedMessages := cache |}.

(** A batch whose first number passes the guard and whose later numbers
    are out of order. *)
Definition shuffledBatch : list SignedSubfeedMessage := [m0; m2; m1].

End SubfeedSamples.

(** ** KacheryStorageManager *)

Module Storage.

Definition Sha1Hash : Type := string.
Definition LocalFilePath : Type := string.
Abbreviation Buffer := (list Byte.byte).

(** *** JSON values, as [JSON.parse] returns them (numbers kept integral) *)

Inductive JSONValue : Type :=
| JNull
| JBool (b : bool)
| JNumber (n : Z)
| JString (s : string)
| JArray (items : list JSONValue)
| JObject (members : list (string * JSONValue)).

(** [x[k]]: [None] stands for [undefined]; the keys of a parsed object
    are distinct. *)
Definition member (k : string) (x : JSONValue) : option JSONValue :=
  match x with
  | JObject members => snd <$> find (fun kv => String.eqb (fst kv) k) members
  | _ => None
  end.

(** [!x] on a parsed value. *)
Definition falsy (x : JSONValue) : bool :=
  match x with
  | JNull => true
  | JBool b => negb b
  | JNumber n => n =? 0
  | JString s => negb (JS.truthy s)
  | _ => false
  end.

(** The type guards of [kacheryTypes] the link checks use. *)
Definition isString (x : option JSONValue) : bool :=
  match x with Some (JString _) => true | _ => false end.
Definition isNumber (x : option JSONValue) : bool :=
  match x with Some (JNumber _) => true | _ => false end.
Definition isNull (x : option JSONValue) : bool :=
  match x with Some JNull => true | _ => false end.
Definition isOneOf (checks : list (option JSONValue -> bool)) (x : option JSONValue) : bool :=
  existsb (fun chk => chk x) checks.

(** Modelled from the spec: [_validateObject] of [kacheryTypes], which is
    not among the sources, as its callers use it with
    [{allowAdditionalFields: true}]: the value is an object and every
    listed field passes its check; other fields are not looked at. *)
Definition _validateObject (x : option JSONValue)
    (fields : list (string * (option JSONValue -> bool))) : bool :=
  match x with
  | Some (JObject members) =>
      forallb (fun f => snd f (member (fst f) (JObject members))) fields
  | _ => false
  end.

Definition isLinkObjectStat (x : option JSONValue) : bool :=
  _validateObject x [("size", isNumber); ("mtime", isNumber)].

Definition isLinkObject (x : JSONValue) : bool :=
  _validateObject (Some x)
    [("path", isString); ("manifestSha1", isOneOf [isString; isNull]); ("stat", isLinkObjectStat)].

(** [x.path] of a link object. *)
Definition linkPath (x : JSONValue) : string :=
  match member "path" x with Some (JString p) => p | _ => "undefined" end.

(** [x.stat.size] of a link object: the size recorded when the link was made. *)
Definition linkRecordedSize (x : JSONValue) : option Z :=
  match member "stat" x with
  | Some st => match member "size" st with Some (JNumber n) => Some n | _ => None end
  | None => None
  end.

(** *** File keys and manifests *)

(** [FileKey]: [{sha1, manifestSha1?, chunkOf?: {fileKey, startByte, endByte}}]. *)
Inductive FileKey : Type :=
| Build_FileKey (sha1 : Sha1Hash) (manifestSha1 : option Sha1Hash)
    (chunkOf : option (FileKey * Z * Z)).

Definition fk_sha1 (k : FileKey) : Sha1Hash := let 'Build_FileKey s _ _ := k in s.
Definition fk_chunkOf (k : FileKey) : option (FileKey * Z * Z) :=
  let 'Build_FileKey _ _ c := k in c.

(** [{sha1: s}] *)
Definition sha1Key (s : Sha1Hash) : FileKey := Build_FileKey s None None.

Record FileManifestChunk : Type := {
  chunk_start : Z;
  chunk_end : Z;
  chunk_sha1 : Sha1Hash
}.

Record FileManifest : Type := {
  manifest_size : Z;
  manifest_sha1 : Sha1Hash;
  manifest_chunks : list FileManifestChunk
}.

(** *** What the runtime provides *)

(** [crypto.createHash('sha1')] fed a byte sequence and read as hex,
    [JSON.parse] of a file's text ([None] when it throws), and
    [JSON.stringify] of a manifest as UTF-8 bytes. *)
Class Runtime : Type := {
  sha1Hex : Buffer -> Sha1Hash;
  JSON_parse : Buffer -> option JSONValue;
  JSON_stringify_manifest : FileManifest -> Buffer
}.

(** *** The disk and the observers

    The disk maps a path to the bytes of the file there; directories,
    modes and times are not tracked ([mkdirSync] and [chmodSync] leave the
    model unchanged).  [fileStored] lists the hashes passed to
    [_reportFileStored], oldest first; each entry is one fan-out to the
    [onFileStored] callbacks. *)
Record World : Type := {
  files : gmap string Buffer;
  fileStored : list Sha1Hash
}.

Definition set_files (f : gmap string Buffer -> gmap string Buffer) (w : World) : World :=
  {| files := f (files w); fileStored := fileStored w |}.

Inductive StorageError : Type :=
| ENOENT (path : string)
| RenameProblemFileDoesNotExist (dst : string)
| RenameProblemEvenThoughFileExists (dst : string)
| UnexpectedSizeAfterRenaming (dst : string) (size0 expected : Z)
| UnexpectedSha1OfDownloadedFile (computed expected : Sha1Hash)
| MissingChunk (chunkSha1 : Sha1Hash)
| UnableToGetReadStream
| UnexpectedSha1OfConcatenatedFile
| StreamFailed (what : string)
| SocketClosed.

Definition M (A : Type) : Type := Exec.t World StorageError A.

Definition existsSync (w : World) (path : string) : bool :=
  bool_decide (is_Some (files w !! path)).

Definition writeFile (path : string) (data : Buffer) : M unit :=
  Exec.modify (set_files (insert path data)).

(** [fs.createWriteStream(path)]: the file is there, empty, from now on. *)
Definition createWriteStream (path : string) : M unit := writeFile path [].

(** [writeStream.write(buf)]: the bytes go to the file the stream opened,
    if it is still linked at that path. *)
Definition streamWrite (path : string) (buf : Buffer) : M unit :=
  Exec.modify (set_files (alter (fun old => old ++ buf) path)).

Definition unlinkSync (path : string) : M unit :=
  let* w := Exec.get in
  if existsSync w path then Exec.modify (set_files (delete path))
  else Exec.throw (ENOENT path).

Definition renameSync (src dst : string) : M unit :=
  let* w := Exec.get in
  match files w !! src with
  | Some data => Exec.modify (set_files (fun fs => <[dst := data]> (delete src fs)))
  | None => Exec.throw (ENOENT src)
  end.

Definition statSync (path : string) : M Z :=
  let* w := Exec.get in
  match files w !! path with
  | Some data => Exec.ret (Z.of_nat (length data))
  | None => Exec.throw (ENOENT path)
  end.

(** [try { fs.unlinkSync(path) } catch(e) { }] *)
Definition _cleanup (path : string) : M unit :=
  Exec.catch (unlinkSync path) (fun _ => Exec.ret tt).

Definition _reportFileStored (sha1 : Sha1Hash) : M unit :=
  Exec.modify (fun w => {| files := files w; fileStored := fileStored w ++ [sha1] |}).

(** [renameAndCheck]: after the rename the source polls [statSync] every
    100 ms for up to 10 s until the size is the expected one; nothing else
    writes to the disk of the model, so the first look decides. *)
Definition renameAndCheck (srcPath dstPath : string) (expectedSizeBytes : Z) : M unit :=
  Exec.catch (renameSync srcPath dstPath)
    (fun _ => let* w := Exec.get in
              if negb (existsSync w dstPath) then Exec.throw (RenameProblemFileDoesNotExist dstPath)
              else Exec.throw (RenameProblemEvenThoughFileExists dstPath)) ;;
  let* size0 := statSync dstPath in
  if size0 =? expectedSizeBytes then Exec.ret tt
  else Exec.throw (UnexpectedSizeAfterRenaming dstPath size0 expectedSizeBytes).

Section Manager.
Context `{Runtime}.
Variable storageDir : LocalFilePath.

(** [`${storageDir}/sha1/${s[0]}${s[1]}/${s[2]}${s[3]}/${s[4]}${s[5]}`] *)
Definition destParentPath (s : Sha1Hash) : string :=
  storageDir +:+ "/sha1/" +:+ JS.index s 0 +:+ JS.index s 1 +:+ "/"
    +:+ JS.index s 2 +:+ JS.index s 3 +:+ "/" +:+ JS.index s 4 +:+ JS.index s 5.

Definition destPath (s : Sha1Hash) : string := destParentPath s +:+ "/" +:+ s.

(** **** Lookup *)

Definition _getLocalFileInfo1 (w : World) (fileSha1 : Sha1Hash) : option LocalFilePath * option Z :=
  let path := destPath fileSha1 in
  match statSync path w with
  | (Returns size, _) => (Some path, Some size)
  | (Throws _, _) => (None, None)
  end.

Definition readJsonFile (w : World) (path : string) : option JSONValue :=
  match files w !! path with
  | Some txt => JSON_parse txt
  | None => None
  end.

Definition _getLocalFileInfo2 (w : World) (fileSha1 : Sha1Hash) : option LocalFilePath * option Z :=
  let linkPath0 := destPath fileSha1 +:+ ".link" in
  if existsSync w linkPath0 then
    match readJsonFile w linkPath0 with
    | None => (None, None)
    | Some x =>
        if falsy x then (None, None)
        else if negb (isLinkObject x) then (None, None)
        else
          let path := linkPath x in
          match statSync path w with
          | (Returns size, _) => (Some path, Some size)
          | (Throws _, _) => (None, None)
          end
    end
  else (None, None).

(** [if (path)] on a path or null. *)
Definition pathTruthy (p : option LocalFilePath) : bool :=
  match p with Some s => JS.truthy s | None => false end.

Definition _getLocalFileInfo (w : World) (fileSha1 : Sha1Hash) : option LocalFilePath * option Z :=
  let '(path1, size1) := _getLocalFileInfo1 w fileSha1 in
  if pathTruthy path1 then (path1, size1)
  else
    let '(path2, size2) := _getLocalFileInfo2 w fileSha1 in
    if pathTruthy path2 then (path2, size2)
    else (None, None).

Record FindFileResult : Type := {
  found : bool;
  size : Z;
  localFilePath : option LocalFilePath
}.

Definition findFile (w : World) (fileKey : FileKey) : FindFileResult :=
  let direct :=
    if JS.truthy (fk_sha1 fileKey) then
      match _getLocalFileInfo w (fk_sha1 fileKey) with
      | (filePath, Some fileSize) =>
          if pathTruthy filePath then
            Some {| found := true; size := fileSize; localFilePath := filePath |}
          else None
      | _ => None
      end
    else None in
  match direct with
  | Some r => r
  | None =>
      let chunk :=
        match fk_chunkOf fileKey with
        | Some (parent, startByte, endByte) =>
            if pathTruthy (fst (_getLocalFileInfo w (fk_sha1 parent))) then
              Some {| found := true; size := endByte - startByte; localFilePath := None |}
            else None
        | None => None
        end in
      match chunk with
      | Some r => r
      | None => {| found := false; size := 0; localFilePath := None |}
      end
  end.

(** **** Ingest of a buffer *)

(** [storeFile(sha1, data)]; [rnd] is what [randomAlphaString(5)] returns. *)
Definition storeFile (sha1 : Sha1Hash) (data : Buffer) (rnd : string) : M unit :=
  let destPath0 := destPath sha1 in
  let* w := Exec.get in
  if existsSync w destPath0 then Exec.ret tt
  else
    let destPathTmp := destPath0 +:+ "." +:+ rnd +:+ ".tmp" in
    writeFile destPathTmp data ;;
    let* w1 := Exec.get in
    if existsSync w1 destPath0 then unlinkSync destPathTmp
    else
      renameAndCheck destPathTmp destPath0 (Z.of_nat (length data)) ;;
      _reportFileStored sha1.

(** **** The streaming manifest builder *)

Definition computeSha1OfBufferSync (buf : Buffer) : Sha1Hash := sha1Hex buf.

(** [manifestData] and [manifestChunks] of [storeFileFromStream]. *)
Record ManifestData : Type := {
  buffers : list Buffer;
  byte1 : Z;
  byte2 : Z
}.

Record ManifestBuilder : Type := {
  manifestData : ManifestData;
  manifestChunks : list FileManifestChunk
}.

Definition emptyBuilder : ManifestBuilder :=
  {| manifestData := {| buffers := []; byte1 := 0; byte2 := 0 |}; manifestChunks := [] |}.

(** [d.slice(a, b)] for [0 <= a <= b]; like the source's, it stops at the
    end of [d]. *)
Definition slice (d : Buffer) (a b : Z) : Buffer :=
  firstn (Z.to_nat (b - a)) (skipn (Z.to_nat a) d).

(** The body of the [for] loop of [_updateManifestChunks] for one slice
    [x]: emit a chunk and advance [byte1], or keep [x] for later. *)
Definition emitOrKeep (chunkSize : Z) (final : bool) (x : Buffer) (b : ManifestBuilder)
    : ManifestBuilder :=
  let md := manifestData b in
  if (Z.of_nat (length x) =? chunkSize) || final then
    {| manifestData := {| buffers := buffers md;
                          byte1 := byte1 md + Z.of_nat (length x);
                          byte2 := byte2 md |};
       manifestChunks := manifestChunks b ++
         [{| chunk_start := byte1 md;
             chunk_end := byte1 md + Z.of_nat (length x);
             chunk_sha1 := computeSha1OfBufferSync x |}] |}
  else
    {| manifestData := {| buffers := buffers md ++ [x]; byte1 := byte1 md; byte2 := byte2 md |};
       manifestChunks := manifestChunks b |}.

(** [for (let i = 0; i < d.length; i += chunkSize)], from index [i]; the
    loop takes at most [d.length] turns, which is the [fuel] it is given. *)
Fixpoint sliceLoop (fuel : nat) (chunkSize : Z) (final : bool) (d : Buffer) (i : Z)
    (b : ManifestBuilder) : ManifestBuilder :=
  match fuel with
  | O => b
  | S fuel' =>
      if i <? Z.of_nat (length d) then
        let x := slice d i (i + Z.min chunkSize (Z.of_nat (length d) - i)) in
        sliceLoop fuel' chunkSize final d (i + chunkSize) (emitOrKeep chunkSize final x b)
      else b
  end.

Definition _updateManifestChunks (chunkSize : Z) (final : bool) (b : ManifestBuilder)
    : ManifestBuilder :=
  let md := manifestData b in
  if (byte2 md - byte1 md >=? chunkSize) || (final && (byte2 md >? byte1 md)) then
    let d := concat (buffers md) in
    sliceLoop (length d) chunkSize final d 0
      {| manifestData := {| buffers := []; byte1 := byte1 md; byte2 := byte2 md |};
         manifestChunks := manifestChunks b |}
  else b.

(** The manifest part of the [onData] handler. *)
Definition feed (chunkSize : Z) (b : ManifestBuilder) (buf : Buffer) : ManifestBuilder :=
  let md := manifestData b in
  _updateManifestChunks chunkSize false
    {| manifestData := {| buffers := buffers md ++ [buf];
                          byte1 := byte1 md;
                          byte2 := byte2 md + Z.of_nat (length buf) |};
       manifestChunks := manifestChunks b |}.

(** The builder after the data events [bufs] and the final update. *)
Definition buildManifest (chunkSize : Z) (bufs : list Buffer) : ManifestBuilder :=
  _updateManifestChunks chunkSize true (fold_left (feed chunkSize) bufs emptyBuilder).

(** **** What the specification asks of a manifest's chunk list *)

(** The chunks tile the byte range from [from] to [to]: each starts
    where the one before ended. *)
Fixpoint tiles (from : Z) (chunks : list FileManifestChunk) (to : Z) : Prop :=
  match chunks with
  | [] => from = to
  | c :: rest => chunk_start c = from /\ tiles (chunk_end c) rest to
  end.

Definition chunkLength (c : FileManifestChunk) : Z := chunk_end c - chunk_start c.

(** The builder between two data events: the chunks emitted so far tile
    [0 .. byte1), each is a full chunk, and the kept buffers hold the
    bytes from [byte1] to [byte2]. *)
Definition wellBuilt (chunkSize : Z) (b : ManifestBuilder) : Prop :=
  tiles 0 (manifestChunks b) (byte1 (manifestData b)) /\
  Forall (fun c => chunkLength c = chunkSize) (manifestChunks b) /\
  Z.of_nat (length (concat (buffers (manifestData b))))
    = byte2 (manifestData b) - byte1 (manifestData b).

(** **** Ingest of a stream *)

Definition chunkSize : Z := 20 * 1000 * 1000.

(** What a [DataStreamy] delivers to its consumer. *)
Inductive StreamEvent : Type :=
| DsData (buf : Buffer)
| DsError (err : StorageError)
| DsFinished.

Record StoreResult : Type := {
  result_sha1 : Sha1Hash;
  result_manifestSha1 : option Sha1Hash
}.

(** The locals of one [storeFileFromStream] call: the bytes fed to
    [shasum], the manifest builder, the [complete] flag, and how the
    returned promise was settled, if it was. *)
Record Ingest : Type := {
  shasum : Buffer;
  builder : ManifestBuilder;
  complete : bool;
  settled : option (outcome StorageError StoreResult)
}.

Definition cleanupTmp (tmpDestPath : option string) : M unit :=
  match tmpDestPath with Some p => _cleanup p | None => Exec.ret tt end.

Definition onData (tmpDestPath : option string) (buf : Buffer) (st : Ingest) (w : World)
    : Ingest * World :=
  if complete st then (st, w)
  else
    ({| shasum := shasum st ++ buf;
        builder := feed chunkSize (builder st) buf;
        complete := false;
        settled := settled st |},
     match tmpDestPath with Some p => snd (streamWrite p buf w) | None => w end).

Definition onError (tmpDestPath : option string) (err : StorageError) (st : Ingest) (w : World)
    : Ingest * World :=
  if complete st then (st, w)
  else
    ({| shasum := shasum st; builder := builder st; complete := true;
        settled := Some (Throws err) |},
     snd (cleanupTmp tmpDestPath w)).

(** [nextStep] of the [onFinished] handler.  The manifest, when there is
    one, is handed to [storeFile] without awaiting it: its outcome is not
    looked at, and its effects land after the promise is resolved and the
    observers are told. *)
Definition nextStep (tmpDestPath : option string) (sha1Computed : Sha1Hash) (rnd5 : string)
    (st : Ingest) (w : World) : Ingest * World :=
  let b := _updateManifestChunks chunkSize true (builder st) in
  let manifest := {| manifest_size := byte2 (manifestData b);
                     manifest_sha1 := sha1Computed;
                     manifest_chunks := manifestChunks b |} in
  let manifestJson := JSON_stringify_manifest manifest in
  let manifestSha1 :=
    if (1 <? length (manifestChunks b))%nat then Some (computeSha1OfBufferSync manifestJson)
    else None in
  let w1 := snd (cleanupTmp tmpDestPath w) in
  let w2 := snd (_reportFileStored sha1Computed w1) in
  let w3 := match manifestSha1 with
            | Some ms => snd (storeFile ms manifestJson rnd5 w2)
            | None => w2
            end in
  ({| shasum := shasum st; builder := b; complete := true;
      settled := Some (Returns {| result_sha1 := sha1Computed;
                                  result_manifestSha1 := manifestSha1 |}) |},
   w3).

Definition onFinished (tmpDestPath : option string) (fileSize : Z) (rnd5 : string)
    (st : Ingest) (w : World) : Ingest * World :=
  if complete st then (st, w)
  else
    let st1 := {| shasum := shasum st; builder := builder st; complete := true;
                  settled := settled st |} in
    let sha1Computed := sha1Hex (shasum st) in
    let destPath0 := destPath sha1Computed in
    match tmpDestPath with
    | Some tmp =>
        if existsSync w destPath0 then nextStep tmpDestPath sha1Computed rnd5 st1 w
        else
          match renameAndCheck tmp destPath0 fileSize w with
          | (Returns _, w1) => nextStep tmpDestPath sha1Computed rnd5 st1 w1
          | (Throws err3, w1) =>
              ({| shasum := shasum st; builder := builder st; complete := true;
                  settled := Some (Throws err3) |},
               snd (cleanupTmp tmpDestPath w1))
          end
    | None => nextStep tmpDestPath sha1Computed rnd5 st1 w
    end.

Definition handle (tmpDestPath : option string) (fileSize : Z) (rnd5 : string)
    (s : Ingest * World) (ev : StreamEvent) : Ingest * World :=
  match ev with
  | DsData buf => onData tmpDestPath buf (fst s) (snd s)
  | DsError err => onError tmpDestPath err (fst s) (snd s)
  | DsFinished => onFinished tmpDestPath fileSize rnd5 (fst s) (snd s)
  end.

(** [storeFileFromStream(ds, fileSize, {calculateHashOnly})] on a stream
    that delivers [events]; [rnd10] and [rnd5] are the random strings of
    the temporary names.  The result is the locals and the disk after the
    last event; [settled] is the promise. *)
Definition storeFileFromStream (events : list StreamEvent) (fileSize : Z)
    (calculateHashOnly : bool) (rnd10 rnd5 : string) (w : World) : Ingest * World :=
  let tmpDestPath :=
    if negb calculateHashOnly then Some (storageDir +:+ "/store.file." +:+ rnd10 +:+ ".tmp")
    else None in
  let w0 := match tmpDestPath with Some p => snd (createWriteStream p w) | None => w end in
  fold_left (handle tmpDestPath fileSize rnd5) events
    ({| shasum := []; builder := emptyBuilder; complete := false; settled := None |}, w0).

(** **** Ingest from a bucket URL *)

(** What the HTTP response stream and its socket deliver, and a cancel
    from the consumer of the returned stream. *)
Inductive HttpEvent : Type :=
| HttpData (data : Buffer)
| HttpError (err : StorageError)
| HttpEnd
| SocketClose
| Cancel.

Inductive Terminal : Type :=
| Ended
| Errored (err : StorageError).

(** Modelled from the spec: [DataStreamy] (not among the sources), an
    observable stream with progress and a terminal event delivered at most
    once: [start] records the size, [incrementBytes] adds to the progress,
    [end] and [error] set the terminal event if none is set. *)
Record DataStreamy : Type := {
  ds_size : option Z;
  ds_bytesLoaded : Z;
  ds_terminal : option Terminal
}.

Definition producer_terminate (t : Terminal) (ds : DataStreamy) : DataStreamy :=
  match ds_terminal ds with
  | Some _ => ds
  | None => {| ds_size := ds_size ds; ds_bytesLoaded := ds_bytesLoaded ds; ds_terminal := Some t |}
  end.

Definition producer_incrementBytes (n : Z) (ds : DataStreamy) : DataStreamy :=
  {| ds_size := ds_size ds; ds_bytesLoaded := ds_bytesLoaded ds + n; ds_terminal := ds_terminal ds |}.

(** The locals of one [storeFileFromBucketUrl] call, with the byte count
    reported to [nodeStats]. *)
Record Download : Type := {
  dl_shasum : Buffer;
  dl_complete : bool;
  dl_ret : DataStreamy;
  dl_bytesReceived : Z
}.

Definition _reportError (tmpDestPath : string) (err : StorageError) (st : Download) (w : World)
    : Download * World :=
  ({| dl_shasum := dl_shasum st; dl_complete := true;
      dl_ret := producer_terminate (Errored err) (dl_ret st);
      dl_bytesReceived := dl_bytesReceived st |},
   snd (_cleanup tmpDestPath w)).

Definition _reportDone (tmpDestPath : string) (sha1 : Sha1Hash) (st : Download) (w : World)
    : Download * World :=
  ({| dl_shasum := dl_shasum st; dl_complete := true;
      dl_ret := producer_terminate Ended (dl_ret st);
      dl_bytesReceived := dl_bytesReceived st |},
   snd (_reportFileStored sha1 (snd (_cleanup tmpDestPath w)))).

Definition onHttpEvent (tmpDestPath : string) (expectedSha1 : Sha1Hash) (size : Z)
    (s : Download * World) (ev : HttpEvent) : Download * World :=
  let st := fst s in
  let w := snd s in
  match ev with
  | HttpData data =>
      let received := dl_bytesReceived st + Z.of_nat (length data) in
      if dl_complete st then
        ({| dl_shasum := dl_shasum st; dl_complete := true; dl_ret := dl_ret st;
            dl_bytesReceived := received |}, w)
      else
        ({| dl_shasum := dl_shasum st ++ data; dl_complete := false;
            dl_ret := producer_incrementBytes (Z.of_nat (length data)) (dl_ret st);
            dl_bytesReceived := received |},
         snd (streamWrite tmpDestPath data w))
  | HttpError err =>
      if dl_complete st then s else _reportError tmpDestPath err st w
  | HttpEnd =>
      if dl_complete st then s
      else
        let sha1Computed := sha1Hex (dl_shasum st) in
        if negb (String.eqb sha1Computed expectedSha1) then
          _reportError tmpDestPath (UnexpectedSha1OfDownloadedFile sha1Computed expectedSha1) st w
        else
          let destPath0 := destPath sha1Computed in
          if existsSync w destPath0 then _reportDone tmpDestPath expectedSha1 st w
          else
            match renameAndCheck tmpDestPath destPath0 size w with
            | (Returns _, w1) => _reportDone tmpDestPath expectedSha1 st w1
            | (Throws err3, w1) => _reportError tmpDestPath err3 st w1
            end
  | SocketClose =>
      if dl_complete st then s else _reportError tmpDestPath SocketClosed st w
  | Cancel =>
      (* [req.destroy()]: the torn-down request shows as a later socket close *)
      s
  end.

(** [storeFileFromBucketUrl(url, {sha1, nodeStats, channelName})] on a
    response with [Content-Length] [size] whose stream delivers [events];
    [rnd10] is the random part of the temporary name. *)
Definition storeFileFromBucketUrl (expectedSha1 : Sha1Hash) (size : Z) (events : list HttpEvent)
    (rnd10 : string) (w : World) : Download * World :=
  let tmpDestPath := storageDir +:+ "/store.file." +:+ rnd10 +:+ ".tmp" in
  let w0 := snd (createWriteStream tmpDestPath w) in
  fold_left (onHttpEvent tmpDestPath expectedSha1 size) events
    ({| dl_shasum := []; dl_complete := false;
        dl_ret := {| ds_size := Some size; ds_bytesLoaded := 0; ds_terminal := None |};
        dl_bytesReceived := 0 |}, w0).

(** **** Concatenation of chunks *)

(** [createTemporaryFilePath({storageDir, prefix})] *)
Definition createTemporaryFilePath (prefix rnd10 : string) : string :=
  storageDir +:+ "/tmp" +:+ "/" +:+ prefix +:+ "-" +:+ rnd10.

(** All the data of [getFileDataStreamy({sha1})]: the bytes [0 .. size)
    of the file the lookup resolves to.  [createReadStreamForFile] asks
    for the range [0 .. size - 1], which the runtime refuses when the
    file is empty. *)
Definition readWholeFile (w : World) (sha1 : Sha1Hash) : outcome StorageError Buffer :=
  if JS.truthy sha1 then
    match _getLocalFileInfo w sha1 with
    | (Some filePath, Some fileSize) =>
        if JS.truthy filePath then
          if fileSize <=? 0 then Throws (StreamFailed "ERR_OUT_OF_RANGE")
          else
            match files w !! filePath with
            | Some data => Returns (slice data 0 fileSize)
            | None => Throws (ENOENT filePath)
            end
        else Throws UnableToGetReadStream
    | _ => Throws UnableToGetReadStream
    end
  else Throws UnableToGetReadStream.

(** [for (let chunkSha1 of chunkSha1s)]: verify we have all the files. *)
Fixpoint verifyChunksPresent (chunkSha1s : list Sha1Hash) : M unit :=
  match chunkSha1s with
  | [] => Exec.ret tt
  | chunkSha1 :: rest =>
      let* w := Exec.get in
      if found (findFile w (sha1Key chunkSha1)) then verifyChunksPresent rest
      else Exec.throw (MissingChunk chunkSha1)
  end.

(** [for (let chunkSha1 of chunkSha1s)]: stream each chunk into the
    temporary file and the hash; returns what was hashed. *)
Fixpoint appendChunks (tmpPath : string) (chunkSha1s : list Sha1Hash) (hashed : Buffer)
    : M Buffer :=
  match chunkSha1s with
  | [] => Exec.ret hashed
  | chunkSha1 :: rest =>
      let* w := Exec.get in
      let* buf := Exec.lift (readWholeFile w chunkSha1) in
      streamWrite tmpPath buf ;;
      appendChunks tmpPath rest (hashed ++ buf)
  end.

Definition concatenateChunksAndStoreResult (sha1 : Sha1Hash) (chunkSha1s : list Sha1Hash)
    (rnd10 : string) : M unit :=
  let destPath0 := destPath sha1 in
  let* w := Exec.get in
  if existsSync w destPath0 then Exec.ret tt
  else
    verifyChunksPresent chunkSha1s ;;
    let tmpPath := createTemporaryFilePath "kachery-daemon-concat-" rnd10 in
    createWriteStream tmpPath ;;
    let* hashed := appendChunks tmpPath chunkSha1s [] in
    let totalSizeBytes := Z.of_nat (length hashed) in
    let sha1Computed := sha1Hex hashed in
    Exec.throw_if (negb (String.eqb sha1Computed sha1)) UnexpectedSha1OfConcatenatedFile ;;
    let* w1 := Exec.get in
    if existsSync w1 destPath0 then unlinkSync tmpPath
    else
      renameAndCheck tmpPath destPath0 totalSizeBytes ;;
      _reportFileStored sha1.

End Manager.
End Storage.

(** *** Sample disks and a table-driven runtime *)

Module StorageSamples.
Import Storage.

Definition quote : string := String (ascii_of_nat 34) EmptyString.
Definition newline : string := String (ascii_of_nat 10) EmptyString.
Definition quoted (s : string) : string := quote +:+ s +:+ quote.

Definition text (s : string) : Buffer := list_byte_of_string s.

Definition helloSha1 : Sha1Hash := "f572d396fae9206628714fb2ce00f72e94f2258f".
Definition abcSha1 : Sha1Hash := "a9993e364706816aba3e25717850c26c9cd0d89d".
Definition emptySha1 : Sha1Hash := "da39a3ee5e6b4b0d3255bfef95601890afd80709".
Definition zeroSha1 : Sha1Hash := "0000000000000000000000000000000000000000".

(** SHA-1 on the three inputs the samples hash ([hello] with a newline,
    [abc], and the empty input); one fixed digest elsewhere. *)
Definition tableSha1 (b : Buffer) : Sha1Hash :=
  let s := string_of_list_byte b in
  if String.eqb s ("hello" +:+ newline) then helloSha1
  else if String.eqb s "abc" then abcSha1
  else if String.eqb s "" then emptySha1
  else "ffffffffffffffffffffffffffffffffffffffff".

(** A link object as [linkLocalFile] writes it: the linked file had 6
    bytes when the link was made. *)
Definition sampleLink : JSONValue :=
  JObject [("path", JString "/data/hello.txt");
           ("manifestSha1", JNull);
           ("stat", JObject [("size", JNumber 6); ("mtime", JNumber 1620000000)]);
           ("_writingProcess", JString "daemon")].

Definition sampleLinkText : Buffer :=
  text ("{" +:+ quoted "path" +:+ ":" +:+ quoted "/data/hello.txt" +:+ ","
        +:+ quoted "manifestSha1" +:+ ":null,"
        +:+ quoted "stat" +:+ ":{" +:+ quoted "size" +:+ ":6," +:+ quoted "mtime" +:+ ":1620000000},"
        +:+ quoted "_writingProcess" +:+ ":" +:+ quoted "daemon" +:+ "}").

(** [JSON.parse] on the one text the samples parse; it throws elsewhere. *)
Definition tableParse (txt : Buffer) : option JSONValue :=
  if String.eqb (string_of_list_byte txt) (string_of_list_byte sampleLinkText)
  then Some sampleLink else None.

#[export] Instance tableRuntime : Runtime := {|
  sha1Hex := tableSha1;
  JSON_parse := tableParse;
  JSON_stringify_manifest := fun m => text (manifest_sha1 m)
|}.

Definition storageDir : string := "/kachery".

Definition emptyDisk : World := {| files := ∅; fileStored := [] |}.

(** The file [hello.txt] was linked under its hash and has since been
    rewritten: it now holds 8 bytes. *)
Definition staleLinkDisk : World :=
  {| files := <[destPath storageDir helloSha1 +:+ ".link" := sampleLinkText]>
                (<["/data/hello.txt" := text ("goodbye" +:+ newline)]> ∅);
     fileStored := [] |}.

(** The same link after [hello.txt] was removed. *)
Definition danglingLinkDisk : World :=
  {| files := <[destPath storageDir helloSha1 +:+ ".link" := sampleLinkText]> ∅;
     fileStored := [] |}.

(** The chunk [abc] is in the store. *)
Definition chunkDisk : World :=
  {| files := <[destPath storageDir abcSha1 := text "abc"]> ∅; fileStored := [] |}.

End StorageSamples.

(** ** KacheryHubInterface *)

Module Hub.

Definition FileKey : Type := Storage.FileKey.
Definition NodeId : Type := string.

(** The flags of [roles] and of [authorization.permissions] (the same
    set of names); an absent flag is [false]. *)
Record ChannelFlags : Type := {
  requestFiles : bool;
  provideFiles : bool;
  requestFeeds : bool;
  provideFeeds : bool
}.

Record Authorization : Type := {
  permissions : ChannelFlags
}.

Record NodeChannelMembership : Type := {
  channelName : string;
  channelBucketUri : option string;
  roles : ChannelFlags;
  authorization : option Authorization
}.

Record NodeConfig : Type := {
  channelMemberships : option (list NodeChannelMembership)
}.

(** [nodeConfig.channelMemberships || []] *)
Definition memberships (c : NodeConfig) : list NodeChannelMembership :=
  match channelMemberships c with Some l => l | None => [] end.

(** The [status] variable of the requestFile waiter; [NoStatus] is the
    empty status it starts with.  As the status of an incoming message,
    [NoStatus] also stands for any text [stageFromStatus] has no entry
    for: neither advances the stage. *)
Inductive Status : Type :=
| NoStatus
| Pending
| Started
| Finished.

Inductive KacheryHubPubsubMessageBody : Type :=
| RequestFile (fileKey : FileKey)
| UploadFileStatus (fileKey : FileKey) (status : Status)
| RequestSubfeed (feedId subfeedHash : string) (position : Z)
| SubfeedMessageCountUpdate (feedId subfeedHash : string) (messageCount : Z).

Record IncomingKacheryHubPubsubMessage : Type := {
  in_channelName : string;
  in_pubsubChannelName : string;
  in_fromNodeId : NodeId;
  in_message : KacheryHubPubsubMessageBody
}.

(** Modelled from the spec: [fileKeyHash] of [kacheryTypes] is not among
    the sources; two keys are equal iff their canonical serializations are
    equal, that is, iff they have the same fields. *)
Fixpoint fileKeysMatch (fileKey1 fileKey2 : FileKey) : bool :=
  match fileKey1, fileKey2 with
  | Storage.Build_FileKey s1 m1 c1, Storage.Build_FileKey s2 m2 c2 =>
      String.eqb s1 s2 && JS.strict_eq m1 m2 &&
      match c1, c2 with
      | None, None => true
      | Some (k1, a1, b1), Some (k2, a2, b2) => fileKeysMatch k1 k2 && (a1 =? a2) && (b1 =? b2)
      | _, _ => false
      end
  end.

(** The object's fields, with what it did to its collaborators:
    [pubsubClients] are the clients [KacheryHubClient] holds, by channel
    name, each with the pubsub channels it subscribed to; [published] are
    the messages given to [pubsubChannel.publish], oldest first;
    [fileRequests], [subfeedRequests] and [countUpdates] are the calls
    made to the registered callbacks. *)
Record HubState : Type := {
  nodeConfig : option NodeConfig;
  pubsubClients : list (string * list string);
  published : list (string * KacheryHubPubsubMessageBody);
  fileRequests : list (FileKey * string * NodeId);
  subfeedRequests : list (string * string * string * Z);
  countUpdates : list (string * string * string * Z)
}.

Definition initialHub : HubState :=
  {| nodeConfig := None; pubsubClients := []; published := [];
     fileRequests := []; subfeedRequests := []; countUpdates := [] |}.

Definition getPubsubClientForChannel (st : HubState) (name : string) : option (list string) :=
  snd <$> find (fun c => String.eqb (fst c) name) (pubsubClients st).

(** Modelled from the spec: [KacheryHubClient.createPubsubClientForChannel]
    is not among the sources; a client subscribes to the channels it is
    created with and, once created for a channel name, is not recreated. *)
Definition createPubsubClientForChannel (name : string) (subscribeTo : list string)
    (st : HubState) : HubState :=
  match getPubsubClientForChannel st name with
  | Some _ => st
  | None =>
      {| nodeConfig := nodeConfig st;
         pubsubClients := pubsubClients st ++ [(name, subscribeTo)];
         published := published st; fileRequests := fileRequests st;
         subfeedRequests := subfeedRequests st; countUpdates := countUpdates st |}
  end.

(** The pubsub channels one membership makes the node listen to. *)
Definition subscribeToPubsubChannels (cm : NodeChannelMembership) (au : Authorization)
    : list string :=
  (if requestFiles (permissions au) && requestFiles (roles cm)
   then [channelName cm +:+ "-provideFiles"] else []) ++
  (if provideFiles (permissions au) && provideFiles (roles cm)
   then [channelName cm +:+ "-requestFiles"] else []) ++
  (if requestFeeds (permissions au) && requestFeeds (roles cm)
   then [channelName cm +:+ "-provideFeeds"] else []) ++
  (if provideFeeds (permissions au) && provideFeeds (roles cm)
   then [channelName cm +:+ "-requestFeeds"] else []).

(** [_doInitialize], given what [fetchNodeConfig] answered ([None] when
    it threw). *)
Definition _doInitialize (fetched : option NodeConfig) (st : HubState) : HubState :=
  match fetched with
  | None => st
  | Some config =>
      let st1 :=
        fold_left (fun s cm =>
                     match authorization cm with
                     | Some au =>
                         createPubsubClientForChannel (channelName cm)
                           (subscribeToPubsubChannels cm au) s
                     | None => s
                     end)
                  (memberships config) st in
      {| nodeConfig := Some config;
         pubsubClients := pubsubClients st1;
         published := published st1; fileRequests := fileRequests st1;
         subfeedRequests := subfeedRequests st1; countUpdates := countUpdates st1 |}
  end.

Definition _publishMessageToPubsubChannel (name pubsubChannelName : string)
    (messageBody : KacheryHubPubsubMessageBody) (st : HubState) : HubState :=
  match getPubsubClientForChannel st name with
  | Some _ =>
      {| nodeConfig := nodeConfig st; pubsubClients := pubsubClients st;
         published := published st ++ [(pubsubChannelName, messageBody)];
         fileRequests := fileRequests st;
         subfeedRequests := subfeedRequests st; countUpdates := countUpdates st |}
  | None => st
  end.

Definition _getChannelMembership (st : HubState) (name : string) : option NodeChannelMembership :=
  match nodeConfig st with
  | None => None
  | Some config => find (fun cm => String.eqb (channelName cm) name) (memberships config)
  end.

(** **** The requestFile waiter *)

(** [stageFromStatus] *)
Definition stageFromStatus (s : Status) : Z :=
  match s with NoStatus => 0 | Pending => 1 | Started => 2 | Finished => 3 end.

(** The locals of the promise in [requestFileFromChannels]; [resolved] is
    the value the promise was resolved with, if it was. *)
Record Waiter : Type := {
  status : Status;
  timer : Z;
  complete : bool;
  resolved : option bool
}.

(** What can happen to the waiter: a pubsub message comes in, or the
    [check] timer fires; [now] is the clock at that moment, in ms. *)
Inductive WaiterEvent : Type :=
| Incoming (msg : KacheryHubPubsubMessageBody) (now : Z)
| CheckTick (now : Z).

Definition onIncomingPubsubMessage (fileKey : FileKey) (msg : KacheryHubPubsubMessageBody)
    (now : Z) (wt : Waiter) : Waiter :=
  if complete wt then wt
  else
    match msg with
    | UploadFileStatus k newStatus =>
        if fileKeysMatch k fileKey then
          let currentStage := stageFromStatus (status wt) in
          let newStage := stageFromStatus newStatus in
          let wt1 :=
            if newStage >? currentStage then
              {| status := newStatus; timer := now; complete := false; resolved := resolved wt |}
            else wt in
          match status wt1 with
          | Finished =>
              {| status := status wt1; timer := timer wt1; complete := true;
                 resolved := Some true |}
          | _ => wt1
          end
        else wt
    | _ => wt
    end.

(** The deadline of a stage, in ms; none once finished. *)
Definition deadline (s : Status) : option Z :=
  match s with
  | NoStatus => Some 3000
  | Pending => Some 30000
  | Started => Some 30000
  | Finished => None
  end.

Definition check (now : Z) (wt : Waiter) : Waiter :=
  if complete wt then wt
  else
    let elapsed := now - timer wt in
    match deadline (status wt) with
    | Some limit =>
        if elapsed >? limit then
          {| status := status wt; timer := timer wt; complete := true; resolved := Some false |}
        else wt
    | None => wt
    end.

Definition waiterStep (fileKey : FileKey) (wt : Waiter) (ev : WaiterEvent) : Waiter :=
  match ev with
  | Incoming msg now => onIncomingPubsubMessage fileKey msg now wt
  | CheckTick now => check now wt
  end.

(** One turn of the publishing loop of [requestFileFromChannels]. *)
Definition publishTurn (fileKey : FileKey) (s : HubState) (cm : NodeChannelMembership)
    : HubState :=
  match authorization cm with
  | Some au =>
      if requestFiles (permissions au) then
        _publishMessageToPubsubChannel (channelName cm)
          (channelName cm +:+ "-requestFiles") (RequestFile fileKey) s
      else s
  | None => s
  end.

(** The publishing loop of [requestFileFromChannels]. *)
Definition publishRequestFile (fileKey : FileKey) (st : HubState) : HubState :=
  match nodeConfig st with
  | None => st
  | Some config => fold_left (publishTurn fileKey) (memberships config) st
  end.

(** [requestFileFromChannels(fileKey)] started at clock [start], with the
    events that reach the waiter afterwards; returns the waiter (whose
    [resolved] is the promise) and the hub. *)
Definition requestFileFromChannels (fileKey : FileKey) (start : Z) (events : list WaiterEvent)
    (st : HubState) : Waiter * HubState :=
  match nodeConfig st with
  | None =>
      ({| status := NoStatus; timer := start; complete := true; resolved := Some false |}, st)
  | Some _ =>
      let wt0 := {| status := NoStatus; timer := start; complete := false; resolved := None |} in
      (fold_left (waiterStep fileKey) (CheckTick start :: events) wt0,
       publishRequestFile fileKey st)
  end.

(** The waiter after the first [check()] and the events that followed. *)
Definition waiterAfter (fileKey : FileKey) (start : Z) (events : list WaiterEvent) : Waiter :=
  fold_left (waiterStep fileKey) (CheckTick start :: events)
    {| status := NoStatus; timer := start; complete := false; resolved := None |}.

(** What holds of the waiter at every moment. *)
Definition settledRight (wt : Waiter) : Prop :=
  (resolved wt = Some true <-> status wt = Finished) /\
  (complete wt = false <-> resolved wt = None).

(** The memberships [requestFileFromChannels] publishes for: those with
    an authorization that permits [requestFiles] and a pubsub client; the
    [roles] are not read. *)
Definition publishesFor (st : HubState) (cm : NodeChannelMembership) : bool :=
  match authorization cm with
  | Some au => requestFiles (permissions au) &&
               bool_decide (is_Some (getPubsubClientForChannel st (channelName cm)))
  | None => false
  end.

(** **** Incoming messages *)

Definition _handleKacheryHubPubsubMessage (x : IncomingKacheryHubPubsubMessage)
    (st : HubState) : HubState :=
  match in_message x with
  | RequestFile fileKey =>
      if negb (String.eqb (in_pubsubChannelName x) (in_channelName x +:+ "-requestFiles")) then st
      else
        match _getChannelMembership st (in_channelName x) with
        | None => st
        | Some cm =>
            match channelBucketUri cm with
            | Some bucketUri =>
                if JS.truthy bucketUri then
                  {| nodeConfig := nodeConfig st; pubsubClients := pubsubClients st;
                     published := published st;
                     fileRequests := fileRequests st ++
                       [(fileKey, in_channelName x, in_fromNodeId x)];
                     subfeedRequests := subfeedRequests st; countUpdates := countUpdates st |}
                else st
            | None => st
            end
        end
  | RequestSubfeed feedId subfeedHash position =>
      if negb (String.eqb (in_pubsubChannelName x) (in_channelName x +:+ "-requestFeeds")) then st
      else
        match _getChannelMembership st (in_channelName x) with
        | None => st
        | Some cm =>
            match authorization cm with
            | Some au =>
                if provideFeeds (roles cm) && provideFeeds (permissions au) then
                  {| nodeConfig := nodeConfig st; pubsubClients := pubsubClients st;
                     published := published st; fileRequests := fileRequests st;
                     subfeedRequests := subfeedRequests st ++
                       [(in_channelName x, feedId, subfeedHash, position)];
                     countUpdates := countUpdates st |}
                else st
            | None => st
            end
        end
  | SubfeedMessageCountUpdate feedId subfeedHash messageCount =>
      if negb (String.eqb (in_pubsubChannelName x) (in_channelName x +:+ "-provideFeeds")) then st
      else
        {| nodeConfig := nodeConfig st; pubsubClients := pubsubClients st;
           published := published st; fileRequests := fileRequests st;
           subfeedRequests := subfeedRequests st;
           countUpdates := countUpdates st ++
             [(feedId, subfeedHash, in_channelName x, messageCount)] |}
  | UploadFileStatus _ _ => st
  end.

(** **** Bucket paths *)

(** [getSubfeedPath]: the template literal of the source has its
    placeholders written without the dollar sign, so nothing is
    substituted. *)
Definition getSubfeedPath (feedId subfeedHash : string) : string :=
  let f := feedId in
  let s := subfeedHash in
  "feeds/{f[0]}{f[1]}/{f[2]}{f[3]}/{f[4]}{f[5]}/{f}/subfeeds/{s[0]}{s[1]}/{s[2]}{s[3]}//{s[4]}{s[5]}/{s}".

(** The layout the specification fixes for a subfeed:
    [feeds/<aa>/<bb>/<cc>/<feedId>/subfeeds/<aa>/<bb>/<cc>/<subfeedHash>]. *)
Definition specifiedSubfeedPath (feedId subfeedHash : string) : string :=
  let f := feedId in
  let s := subfeedHash in
  "feeds/" +:+ JS.index f 0 +:+ JS.index f 1 +:+ "/" +:+ JS.index f 2 +:+ JS.index f 3 +:+ "/"
    +:+ JS.index f 4 +:+ JS.index f 5 +:+ "/" +:+ f +:+ "/subfeeds/"
    +:+ JS.index s 0 +:+ JS.index s 1 +:+ "/" +:+ JS.index s 2 +:+ JS.index s 3 +:+ "/"
    +:+ JS.index s 4 +:+ JS.index s 5 +:+ "/" +:+ s.

Definition subfeedJsonPath (feedId subfeedHash : string) : string :=
  getSubfeedPath feedId subfeedHash +:+ "/subfeed.json".

End Hub.

(** *** Sample memberships and messages *)

Module HubSamples.
Import Hub.

Definition noFlags : ChannelFlags :=
  {| requestFiles := false; provideFiles := false; requestFeeds := false; provideFeeds := false |}.

(** The hub granted [requestFiles]; the node's owner did not take the role. *)
Definition permittedWithoutRole : NodeChannelMembership :=
  {| channelName := "lab";
     channelBucketUri := Some "gs://lab-bucket";
     roles := noFlags;
     authorization := Some {| permissions :=
       {| requestFiles := true; provideFiles := false;
          requestFeeds := false; provideFeeds := false |} |} |}.

(** A member with a bucket and neither role nor permission. *)
Definition plainMember : NodeChannelMembership :=
  {| channelName := "lab";
     channelBucketUri := Some "gs://lab-bucket";
     roles := noFlags;
     authorization := Some {| permissions := noFlags |} |}.

Definition helloKey : FileKey := Storage.sha1Key "f572d396fae9206628714fb2ce00f72e94f2258f".

Definition hubOf (cm : NodeChannelMembership) : HubState :=
  _doInitialize (Some {| channelMemberships := Some [cm] |}) initialHub.

Definition requestOnLab : IncomingKacheryHubPubsubMessage :=
  {| in_channelName := "lab"; in_pubsubChannelName := "lab-requestFiles";
     in_fromNodeId := "peer"; in_message := RequestFile helloKey |}.

Definition sampleFeedId : string := "0123456789abcdef".
Definition sampleSubfeedHash : string := "fedcba9876543210".

End HubSamples.

Module StorageAccess.
Import Storage.

Section Manager.
Context `{Runtime}.
Variable storageDir : LocalFilePath.

(** [hasLocalFile(fileKey)] *)
Definition hasLocalFile (w : World) (fileKey : FileKey) : bool :=
  let direct :=
    if JS.truthy (fk_sha1 fileKey) then
      match _getLocalFileInfo storageDir w (fk_sha1 fileKey) with
      | (filePath, Some _) => pathTruthy filePath
      | _ => false
      end
    else false in
  if direct then true
  else
    match fk_chunkOf fileKey with
    | Some (parent, _, _) =>
        if pathTruthy (fst (_getLocalFileInfo storageDir w (fk_sha1 parent))) then true
        else false
    | None => false
    end.

(** [Number.MAX_SAFE_INTEGER], [2^53 - 1].  Positions and sizes are
    integers here and doubles in the source; the two agree as long as
    every position stays at or below this number, where the source's
    sums and differences are exact and [fs.createReadStream] raises no
    objection to the size of a position. *)
Definition MAX_SAFE_INTEGER : Z := 9007199254740991.

(** The positions of a read are in that range: those of the chunk the
    key names, if it names one, those of the range asked for, if both of
    its bounds are given, and their sums. *)
Definition safePositions (fileKey : FileKey) (startByte endByte : option Z) : Prop :=
  let chunk := match fk_chunkOf fileKey with Some (_, c1, c2) => (c1, c2) | None => (0, 0) end in
  let range := match startByte, endByte with Some a, Some b => (a, b) | _, _ => (0, 0) end in
  0 <= fst chunk /\ 0 <= snd chunk <= MAX_SAFE_INTEGER /\
  0 <= fst range /\ 0 <= snd range /\
  fst chunk + fst range <= MAX_SAFE_INTEGER /\
  fst chunk + snd range <= MAX_SAFE_INTEGER.

(** An [fs.ReadStream]: the file it reads and the first and the last
    position it reads, both included. *)
Record ReadStream : Type := {
  rs_path : string;
  rs_start : Z;
  rs_end : Z
}.

(** [createReadStreamForFile(path, offset, size)]: [fs.createReadStream]
    is given [start: offset] and [end: offset + size - 1]; it refuses a
    negative [start] or [end] and a [start] beyond [end].  This is the
    source as long as [offset + size] is at most [2^53]: beyond, the
    source rounds the sum and [fs.createReadStream] refuses a position
    above [MAX_SAFE_INTEGER], which the model leaves out; what is stated
    of a range a caller chooses is stated within that bound. *)
Definition createReadStreamForFile (path : string) (offset size : Z)
    : outcome StorageError ReadStream :=
  let start := offset in
  let end_ := offset + size - 1 in
  if (start <? 0) || (end_ <? 0) || (end_ <? start) then Throws (StreamFailed "ERR_OUT_OF_RANGE")
  else Returns {| rs_path := path; rs_start := start; rs_end := end_ |}.

(** All the bytes a read stream delivers: those of the file from its
    first to its last position, as far as the file goes. *)
Definition readStreamData (w : World) (rs : ReadStream) : outcome StorageError Buffer :=
  match files w !! rs_path rs with
  | Some data => Returns (slice data (rs_start rs) (rs_end rs + 1))
  | None => Throws (ENOENT (rs_path rs))
  end.

(** [getFileReadStream(fileKey, startByte?, endByte?)], which returns
    [{stream, size}]; an argument left out is [None].  The wrappers
    [byteCount] and [byteCountToNumber] of [kacheryTypes], which is not
    among the sources, are read as leaving the number as it is.  As for
    [createReadStreamForFile], this is the source for [safePositions]. *)
Definition getFileReadStream (w : World) (fileKey : FileKey) (startByte endByte : option Z)
    : outcome StorageError (ReadStream * Z) :=
  let ranged :=
    match startByte, endByte with
    | Some a, Some b => Some (a, b)
    | _, _ => None
    end in
  let open (filePath : string) (offset size : Z) :=
    match createReadStreamForFile filePath offset size with
    | Returns stream => Returns (stream, size)
    | Throws e => Throws e
    end in
  let direct :=
    if JS.truthy (fk_sha1 fileKey) then
      match _getLocalFileInfo storageDir w (fk_sha1 fileKey) with
      | (Some filePath, Some fileSize) =>
          if JS.truthy filePath then
            let offset := match ranged with Some (a, _) => a | None => 0 end in
            let size := match ranged with Some (a, b) => b - a | None => fileSize end in
            Some (open filePath offset size)
          else None
      | _ => None
      end
    else None in
  match direct with
  | Some r => r
  | None =>
      match fk_chunkOf fileKey with
      | Some (parent, chunkStart, chunkEnd) =>
          match fst (_getLocalFileInfo storageDir w (fk_sha1 parent)) with
          | Some filePath =>
              if JS.truthy filePath then
                let additionalOffset := match ranged with Some (a, _) => a | None => 0 end in
                let offset := chunkStart + additionalOffset in
                let size := match ranged with
                            | Some (a, b) => b - a
                            | None => chunkEnd - chunkStart
                            end in
                open filePath offset size
              else Throws UnableToGetReadStream
          | None => Throws UnableToGetReadStream
          end
      | None => Throws UnableToGetReadStream
      end
  end.

(** All the data of the stream [getFileDataStreamy(fileKey, startByte?,
    endByte?)] returns: [createDataStreamyFromReadStream] passes on what
    the read stream delivers. *)
Definition getFileDataStreamy (w : World) (fileKey : FileKey) (startByte endByte : option Z)
    : outcome StorageError Buffer :=
  match getFileReadStream w fileKey startByte endByte with
  | Returns (readStream, _) => readStreamData w readStream
  | Throws e => Throws e
  end.

(** A chunk that is in the store under its hash, with bytes to read. *)
Definition chunkStored (fs : gmap string Buffer) (chunkSha1 : Sha1Hash) (data : Buffer) : Prop :=
  JS.truthy chunkSha1 = true /\ fs !! destPath storageDir chunkSha1 = Some data /\ data <> [].

(** [`${storageDir}/sha1-trash/${s[0]}${s[1]}/${s[2]}${s[3]}/${s[4]}${s[5]}`] *)
Definition trashParentPath (s : Sha1Hash) : string :=
  storageDir +:+ "/sha1-trash/" +:+ JS.index s 0 +:+ JS.index s 1 +:+ "/"
    +:+ JS.index s 2 +:+ JS.index s 3 +:+ "/" +:+ JS.index s 4 +:+ JS.index s 5.

Definition trashPath (s : Sha1Hash) : string := trashParentPath s +:+ "/" +:+ s.

(** [moveFileToTrash(sha1)] *)
Definition moveFileToTrash (sha1 : Sha1Hash) : M unit :=
  let* w := Exec.get in
  match fst (_getLocalFileInfo storageDir w sha1) with
  | None => Exec.ret tt
  | Some infoPath =>
      if negb (JS.truthy infoPath) then Exec.ret tt
      else
        let destPath0 := trashPath sha1 in
        if existsSync w destPath0 then unlinkSync infoPath
        else renameSync infoPath destPath0
  end.

End Manager.
End StorageAccess.


(** *** What a manifest says of a file's bytes *)

Module Manifests.
Import Storage.

Section Expected.
Context `{Runtime}.

(** The chunk entry for the bytes of [d] from [a] to [b]. *)
Definition chunkOfInput (d : Buffer) (a b : Z) : FileManifestChunk :=
  {| chunk_start := a; chunk_end := b; chunk_sha1 := sha1Hex (slice d a b) |}.

(** The number of chunks of [chunkSize] bytes that [n] bytes take. *)
Definition chunkCount (chunkSize n : Z) : nat := Z.to_nat ((n + chunkSize - 1) / chunkSize).

(** The chunk list of a file with bytes [d]: consecutive ranges of
    [chunkSize] bytes from 0, the last one shorter when the size is no
    multiple of [chunkSize], each with the hash of its bytes. *)
Definition expectedChunks (chunkSize : Z) (d : Buffer) : list FileManifestChunk :=
  map (fun k : nat =>
         chunkOfInput d (Z.of_nat k * chunkSize)
           (Z.min ((Z.of_nat k + 1) * chunkSize) (Z.of_nat (length d))))
      (seq 0 (chunkCount chunkSize (Z.of_nat (length d)))).

(** The builder between two data events, [d] being the bytes fed so
    far: the chunks emitted are the full chunks of [d] up to [byte1], and
    the kept buffers hold the bytes of [d] from [byte1] on. *)
Definition fedWith (chunkSize : Z) (d : Buffer) (b : ManifestBuilder) : Prop :=
  exists q : nat,
    manifestChunks b
    = map (fun k : nat => chunkOfInput d (Z.of_nat k * chunkSize) ((Z.of_nat k + 1) * chunkSize))
          (seq 0 q) /\
    byte1 (manifestData b) = Z.of_nat q * chunkSize /\
    byte2 (manifestData b) = Z.of_nat (length d) /\
    concat (buffers (manifestData b)) = skipn (Z.to_nat (byte1 (manifestData b))) d /\
    byte1 (manifestData b) <= byte2 (manifestData b).

End Expected.
End Manifests.

(** *** Reading the messages of a subfeed *)

Module SubfeedReads.
Import Subfeed.

Section Manager.
Context {L : Type} `{SignatureVerifier} `{LocalFeedManagerInterface L}.

(** [getSignedMessage(i)]; [None] stands for [undefined], which indexing
    gives outside the list. *)
Definition getSignedMessage (i : Z) : Exec.t (Manager L) SubfeedError (option SignedSubfeedMessage) :=
  let* this := Exec.get in
  match signedMessages this with
  | None => Exec.throw SignedMessagesIsNull
  | Some ms => Exec.ret (if i <? 0 then None else ms !! Z.to_nat i)
  end.

End Manager.

(** The message at index [i] carries the number [i]. *)
Definition numbered (messages : list SignedSubfeedMessage) : Prop :=
  forall (i : nat) sm, messages !! i = Some sm -> messageNumber (body sm) = Z.of_nat i.

(** The numbers of a batch go up one by one from [k]. *)
Definition consecutiveFrom (k : Z) (batch : list SignedSubfeedMessage) : Prop :=
  forall (i : nat) sm, batch !! i = Some sm -> messageNumber (body sm) = k + Z.of_nat i.

End SubfeedReads.

(** *** What the hub interface publishes for feeds and uploads *)

Module HubFeeds.
Import Hub.

(** [sendUploadFileStatusMessage({channelName, fileKey, status})]; the
    source sends the statuses [started] and [finished]. *)
Definition sendUploadFileStatusMessage (name : string) (fileKey : FileKey) (status : Status)
    (st : HubState) : HubState :=
  _publishMessageToPubsubChannel name (name +:+ "-provideFiles")
    (UploadFileStatus fileKey status) st.

(** [reportToChannelSubfeedMessagesAdded(channelName, feedId,
    subfeedHash, numMessages)] *)
Definition reportToChannelSubfeedMessagesAdded (name feedId subfeedHash : string)
    (numMessages : Z) (st : HubState) : HubState :=
  _publishMessageToPubsubChannel name (name +:+ "-provideFeeds")
    (SubfeedMessageCountUpdate feedId subfeedHash numMessages) st.

(** The first loop of [subscribeToRemoteSubfeed]: the names of the
    channels to ask. *)
Definition channelNamesToAsk (config : NodeConfig) : list string :=
  flat_map (fun channelMembership =>
              if requestFeeds (roles channelMembership) then
                match authorization channelMembership with
                | Some au =>
                    if requestFeeds (permissions au) then [channelName channelMembership]
                    else []
                | None => []
                end
              else [])
           (memberships config).

(** [subscribeToRemoteSubfeed(feedId, subfeedHash, position)] *)
Definition subscribeToRemoteSubfeed (feedId subfeedHash : string) (position : Z)
    (st : HubState) : HubState :=
  match nodeConfig st with
  | None => st
  | Some config =>
      fold_left (fun s name =>
                   _publishMessageToPubsubChannel name (name +:+ "-requestFeeds")
                     (RequestSubfeed feedId subfeedHash position) s)
                (channelNamesToAsk config) st
  end.

(** A membership with the role [requestFeeds] and the permission for it. *)
Definition wantsFeeds (cm : NodeChannelMembership) : bool :=
  requestFeeds (roles cm) &&
  match authorization cm with
  | Some au => requestFeeds (permissions au)
  | None => false
  end.

(** One turn of the loop of [_doInitialize]. *)
Definition initTurn (s : HubState) (cm : NodeChannelMembership) : HubState :=
  match authorization cm with
  | Some au =>
      createPubsubClientForChannel (channelName cm) (subscribeToPubsubChannels cm au) s
  | None => s
  end.

End HubFeeds.

(** *** More samples *)

Module StoreSamples.
Import Storage StorageSamples.

(** The digest [tableSha1] gives to everything but its three inputs. *)
Definition otherSha1 : Sha1Hash := "ffffffffffffffffffffffffffffffffffffffff".

(** A store whose content file for the hash of [hello] holds other
    bytes. *)
Definition corruptDisk : World :=
  {| files := <[destPath storageDir helloSha1 := text "HELLO"]> ∅; fileStored := [] |}.

End StoreSamples.

Module FeedSamples.
Import Subfeed SubfeedSamples Hub HubSamples.

(** Message 1 with a signature that does not verify. *)
Definition forged : SignedSubfeedMessage := {| body := body m1; signature := "forged" |}.

(** A member that provides feeds, with the permission for it. *)
Definition feedProvider : NodeChannelMembership :=
  {| channelName := "lab";
     channelBucketUri := Some "gs://lab-bucket";
     roles := {| requestFiles := false; provideFiles := false;
                 requestFeeds := false; provideFeeds := true |};
     authorization := Some {| permissions :=
       {| requestFiles := false; provideFiles := false;
          requestFeeds := false; provideFeeds := true |} |} |}.

Definition feedConfig : NodeConfig := {| channelMemberships := Some [feedProvider] |}.

(** A member that provides files from a bucket, with the permission for
    it. *)
Definition fileProvider : NodeChannelMembership :=
  {| channelName := "lab";
     channelBucketUri := Some "gs://lab-bucket";
     roles := {| requestFiles := false; provideFiles := true;
                 requestFeeds := false; provideFeeds := false |};
     authorization := Some {| permissions :=
       {| requestFiles := false; provideFiles := true;
          requestFeeds := false; provideFeeds := false |} |} |}.

Definition fileConfig : NodeConfig := {| channelMemberships := Some [fileProvider] |}.

End FeedSamples.

(* ===================================================================== *)
(** * Part II: theorems                                                   *)
(* ===================================================================== *)

(** ** Generic facts about computations and JavaScript idioms *)

Lemma strict_eq_true (a b : option string) : JS.strict_eq a b = true <-> a = b.
Proof.
  destruct a as [x|], b as [y|]; simpl; split; intros E; try congruence; try discriminate.
  - apply String.eqb_eq in E. congruence.
  - inversion E; subst. apply String.eqb_refl.
Qed.

Lemma or_null_fix (x : option string) : x <> Some EmptyString -> JS.or_null x = x.
Proof.
  destruct x as [[|c s]|]; simpl; intros E; congruence.
Qed.

Lemma or_null_not_empty (x : option string) : JS.or_null x <> Some EmptyString.
Proof.
  destruct x as [[|c s]|]; simpl; congruence.
Qed.

(** ** Subfeed: load and verify *)

Module SubfeedFacts.
Import Subfeed.

Section Load.
Context {L : Type} `{SignatureVerifier} `{LocalFeedManagerInterface L}.

Lemma verifyMessages_total pk prev n messages :
  verifyMessages pk prev n messages = Returns tt \/
  exists e, verifyMessages pk prev n messages = Throws e.
Proof.
  revert prev n. induction messages as [|msg rest IH]; intros prev n; simpl.
  - now left.
  - destruct (verifySignature _ _ _); simpl; [|right; eauto].
    destruct (JS.strict_eq _ _); simpl; [|right; eauto].
    destruct (_ =? _); simpl; [|right; eauto].
    apply IH.
Qed.

Lemma verifyMessages_accepts pk prev n messages :
  verifyMessages pk prev n messages = Returns tt <-> accepted pk prev n messages.
Proof.
  revert prev n. induction messages as [|msg rest IH]; intros prev n; simpl.
  - tauto.
  - destruct (verifySignature (body msg) pk (signature msg)) eqn:V; simpl.
    2:{ split; [discriminate | intros [E _]; discriminate]. }
    destruct (JS.strict_eq prev _) eqn:P; simpl.
    2:{ split; [discriminate |].
        intros (_ & E & _). symmetry in E. apply strict_eq_true in E. congruence. }
    apply strict_eq_true in P.
    destruct (n + 1 =? messageNumber (body msg)) eqn:N; simpl.
    2:{ split; [discriminate |]. intros (_ & _ & E & _). apply Z.eqb_neq in N. lia. }
    apply Z.eqb_eq in N. rewrite IH. intuition.
Qed.

Lemma accepted_chainValidFrom pk prev k messages :
  Forall wellTyped messages ->
  accepted pk prev (k - 1) messages <-> chainValidFrom pk prev k messages.
Proof.
  intros WT. revert prev k.
  induction WT as [|msg rest Wm Wr IH]; intros prev k; simpl.
  - split; [|tauto]. intros _. repeat split; intros; discriminate.
  - rewrite (or_null_fix _ Wm).
    specialize (IH (Some (signature msg)) (messageNumber (body msg) + 1)).
    replace (messageNumber (body msg) + 1 - 1) with (messageNumber (body msg)) in IH by lia.
    rewrite IH. split.
    + intros (V & P & N & (A & B & C)). split; [|split].
      * intros i m E. destruct i as [|i]; simpl in E.
        -- inversion E; subst. split; [lia | exact V].
        -- apply A in E. split; [lia | tauto].
      * intros m E. simpl in E. inversion E; subst. reflexivity.
      * intros i m nx E1 E2. destruct i as [|i]; simpl in *.
        -- inversion E1; subst. now apply B.
        -- eapply C; eauto.
    + intros (A & B & C).
      destruct (A 0%nat msg eq_refl) as [N V].
      split; [exact V|]. split; [now apply B|]. split; [lia|].
      split; [|split].
      * intros i m E. apply (A (S i)) in E. split; [lia | tauto].
      * intros m E. apply (C 0%nat msg m); [reflexivity | exact E].
      * intros i m nx E1 E2. apply (C (S i) m nx); assumption.
Qed.

Lemma chainValid_from_start pk messages :
  chainValid pk messages <-> chainValidFrom pk None 0 messages.
Proof.
  unfold chainValid, chainValidFrom.
  split; intros (A & B & C); (split; [|split]); try assumption;
    intros i msg E; apply A in E; (split; [lia | tauto]).
Qed.

Lemma verifyMessages_chainValid pk messages :
  Forall wellTyped messages ->
  verifyMessages pk None (-1) messages = Returns tt <-> chainValid pk messages.
Proof.
  intros WT. rewrite verifyMessages_accepts, chainValid_from_start.
  apply (accepted_chainValidFrom pk None 0 messages WT).
Qed.

(** C1. When the backing log hands [messages] to [initializeFromLocal]:
    the load returns exactly when the list satisfies the chain conditions
    (number [i] at index [i], null previous signature first, each previous
    signature equal to the signature before it, every signature verified
    under the feed's public key), and it then holds that list in memory;
    a list violating a condition makes the load throw and leaves the
    manager as it was, uninitialized if it was so. *)
Theorem initializeFromLocal_loads_exactly_valid_chains
    (this : Manager L) (messages : list SignedSubfeedMessage) :
  getSignedSubfeedMessages (localFeedManager this) (feedId this) (subfeedHash this)
    = Returns messages ->
  Forall wellTyped messages ->
  (chainValid (publicKey this) messages ->
     initializeFromLocal this = (Returns tt, set_signedMessages (Some messages) this)) /\
  (~ chainValid (publicKey this) messages ->
     exists e, initializeFromLocal this = (Throws e, this) /\
               (isInitialized this = false -> isInitialized (snd (initializeFromLocal this)) = false)) /\
  (forall this', initializeFromLocal this = (Returns tt, this') ->
     signedMessages this' = Some messages /\ chainValid (publicKey this) messages).
Proof.
  intros G WT.
  pose proof (verifyMessages_chainValid (publicKey this) messages WT) as V.
  unfold initializeFromLocal, Exec.bind, Exec.get, Exec.lift, Exec.modify.
  rewrite G.
  destruct (verifyMessages_total (publicKey this) None (-1) messages) as [R | [e R]];
    rewrite R.
  - split; [reflexivity | split].
    + intros N. exfalso. apply N, V, R.
    + intros this' E. inversion E; subst. split; [reflexivity | now apply V].
  - split; [| split].
    + intros C. apply V in C. congruence.
    + intros _. exists e. split; [reflexivity | simpl; tauto].
    + intros this' E. discriminate.
Qed.

End Load.
End SubfeedFacts.

(** ** Subfeed: append *)

Module AppendFacts.
Import Subfeed.

Section Append.
Context {L : Type} `{SignatureVerifier} `{LocalFeedManagerInterface L}.

Lemma pushIfNext_length ms sm : (length ms <= length (pushIfNext ms sm))%nat.
Proof.
  unfold pushIfNext. destruct (_ =? _); [rewrite length_app; simpl|]; lia.
Qed.

Lemma fold_pushIfNext_length batch ms :
  (length ms <= length (fold_left pushIfNext batch ms))%nat.
Proof.
  revert ms. induction batch as [|a rest IH]; intros ms; simpl; [lia|].
  pose proof (pushIfNext_length ms a). pose proof (IH (pushIfNext ms a)). lia.
Qed.

(** Messages numbered beyond the current length are all dropped. *)
Lemma fold_pushIfNext_beyond batch ms :
  Forall (fun sm => Z.of_nat (length ms) < messageNumber (body sm)) batch ->
  fold_left pushIfNext batch ms = ms.
Proof.
  induction 1 as [|a rest Ha Hr IH]; simpl; [reflexivity|].
  unfold pushIfNext at 2. destruct (_ =? _) eqn:E; [apply Z.eqb_eq in E; lia | exact IH].
Qed.

(** Messages whose number differs from the current length are all dropped. *)
Lemma fold_pushIfNext_none batch ms :
  Forall (fun sm => messageNumber (body sm) <> Z.of_nat (length ms)) batch ->
  fold_left pushIfNext batch ms = ms.
Proof.
  induction 1 as [|a rest Ha Hr IH]; simpl; [reflexivity|].
  unfold pushIfNext at 2. destruct (_ =? _) eqn:E; [apply Z.eqb_eq in E; lia | exact IH].
Qed.

Lemma numbersAscend_head a rest :
  numbersAscend (a :: rest) ->
  Forall (fun sm => messageNumber (body a) <= messageNumber (body sm)) rest.
Proof.
  revert a. induction rest as [|b rest IH]; intros a; [constructor|].
  intros [Hab Hrest]. constructor; [exact Hab|].
  apply IH in Hrest. eapply Forall_impl; [exact Hrest|]. simpl. intros; lia.
Qed.

(** After one pass over an ascending batch, no message of the batch
    carries the number the list now waits for. *)
Lemma fold_pushIfNext_settled batch ms :
  numbersAscend batch ->
  Forall (fun sm => messageNumber (body sm) <> Z.of_nat (length (fold_left pushIfNext batch ms)))
         batch.
Proof.
  revert ms. induction batch as [|a rest IH]; intros ms Asc; [constructor|].
  pose proof (numbersAscend_head a rest Asc) as Hd.
  destruct Asc as [_ Asc]. simpl. constructor; [|apply IH, Asc].
  pose proof (fold_pushIfNext_length rest (pushIfNext ms a)) as Len.
  unfold pushIfNext in *. destruct (messageNumber (body a) =? Z.of_nat (length ms)) eqn:E.
  - apply Z.eqb_eq in E. rewrite length_app in Len. simpl in Len. lia.
  - apply Z.eqb_neq in E.
    destruct (Z_lt_le_dec (messageNumber (body a)) (Z.of_nat (length ms))) as [Lt | Ge]; [lia|].
    rewrite fold_pushIfNext_beyond; [exact E|].
    eapply Forall_impl; [exact Hd|]. simpl. intros; lia.
Qed.

(** A pass appends a selection of the batch to the list. *)
Lemma fold_pushIfNext_appends batch ms :
  exists added : list SignedSubfeedMessage,
    fold_left pushIfNext batch ms = ms ++ added /\
                Forall (fun sm => In sm batch) added.
Proof.
  revert ms. induction batch as [|a rest IH]; intros ms; simpl.
  - exists []. split; [now rewrite app_nil_r | constructor].
  - destruct (IH (pushIfNext ms a)) as (added & E & F). rewrite E.
    unfold pushIfNext. destruct (_ =? _).
    + exists (a :: added). split; [now rewrite <- app_assoc|].
      constructor; [now left|]. eapply Forall_impl; [exact F|]. simpl. tauto.
    + exists added. split; [reflexivity|].
      eapply Forall_impl; [exact F|]. simpl. tauto.
Qed.

Lemma checkFirstAppendNumber_again existing batch :
  numbersAscend batch ->
  checkFirstAppendNumber existing batch = Returns tt ->
  checkFirstAppendNumber (fold_left pushIfNext batch existing) batch = Returns tt.
Proof.
  intros Asc Chk.
  destruct (fold_pushIfNext_appends batch existing) as (added & E & F). rewrite E.
  destruct batch as [|a rest]; [reflexivity|].
  destruct (last added) as [p|] eqn:La.
  - unfold checkFirstAppendNumber, lastMessageNumber. simpl firstMessageNumber.
    rewrite last_app, La.
    assert (In p (a :: rest)) as Hp.
    { rewrite Forall_forall in F. apply F. apply last_Some in La as [l' ->].
      apply elem_of_app. right. constructor. }
    assert (messageNumber (body a) <= messageNumber (body p)) as Le.
    { destruct Hp as [<- | Hp]; [lia|].
      pose proof (numbersAscend_head a rest Asc) as Hd.
      rewrite Forall_forall in Hd. apply Hd. now apply list_elem_of_In. }
    destruct (_ >? _) eqn:G; [|reflexivity]. apply Z.gtb_lt in G. lia.
  - apply last_None in La. subst added. now rewrite app_nil_r.
Qed.

(** C8 (as amended). For a batch whose message numbers never decrease
    along the batch: when [addSignedMessages] has taken the batch once and
    the backing log accepts it a second time, the second call returns and
    leaves the in-memory list as the first call left it; the first call
    appended exactly the messages that met the current length, in order,
    and dropped the others. *)
Theorem addSignedMessages_replay_keeps_list
    (this this1 : Manager L) (batch : list SignedSubfeedMessage) (l2 : L) :
  numbersAscend batch ->
  addSignedMessages batch this = (Returns tt, this1) ->
  addSignedMessagesToSubfeed (localFeedManager this1) (feedId this1) (subfeedHash this1) batch
    = Returns l2 ->
  (exists existing, signedMessages this = Some existing /\
     signedMessages this1 = Some (fold_left pushIfNext batch existing)) /\
  addSignedMessages batch this1 = (Returns tt, set_localFeedManager l2 this1) /\
  signedMessages (set_localFeedManager l2 this1) = signedMessages this1.
Proof.
  intros Asc First Log.
  unfold addSignedMessages, Exec.bind, Exec.get, Exec.lift, Exec.modify, Exec.throw in First.
  destruct (signedMessages this) as [existing|] eqn:Cache; [|discriminate].
  destruct (checkFirstAppendNumber existing batch) as [[]|e] eqn:Chk; [|discriminate].
  destruct (addSignedMessagesToSubfeed _ _ _ batch) as [l1|e] eqn:Log1; [|discriminate].
  inversion First; subst this1; clear First. simpl in Log.
  split; [exists existing; split; reflexivity|]. split; [|reflexivity].
  unfold addSignedMessages, Exec.bind, Exec.get, Exec.lift, Exec.modify, Exec.throw. simpl.
  rewrite (checkFirstAppendNumber_again existing batch Asc Chk), Log.
  rewrite (fold_pushIfNext_none batch _ (fold_pushIfNext_settled batch existing Asc)).
  reflexivity.
Qed.

End Append.

Import SubfeedSamples.

(** The theorem on a consecutive batch appended twice to an empty list. *)
Lemma addSignedMessages_replay_keeps_list_witness :
  numbersAscend [m0; m1] /\
  addSignedMessages [m0; m1] (manager [] (Some [])) = (Returns tt, manager [m0; m1] (Some [m0; m1])) /\
  addSignedMessages [m0; m1] (manager [m0; m1] (Some [m0; m1]))
    = (Returns tt, manager [m0; m1; m0; m1] (Some [m0; m1])).
Proof.
  assert (numbersAscend [m0; m1]) as Asc by (simpl; lia).
  split; [exact Asc|]. split; [reflexivity|].
  exact (proj1 (proj2 (@addSignedMessages_replay_keeps_list MemoryLog _
           (manager [] (Some [])) (manager [m0; m1] (Some [m0; m1])) [m0; m1]
           [m0; m1; m0; m1] Asc eq_refl eq_refl))).
Defined.

(** C8 (as stated) fails: the batch [m0; m2; m1] passes the guard on an
    empty list; the first call keeps [m0; m1], and the second call, given
    the same batch, appends [m2]. *)
Lemma addSignedMessages_replay_not_idempotent :
  checkFirstAppendNumber [] shuffledBatch = Returns tt /\
  addSignedMessages shuffledBatch (manager [] (Some []))
    = (Returns tt, manager shuffledBatch (Some [m0; m1])) /\
  addSignedMessages shuffledBatch (manager shuffledBatch (Some [m0; m1]))
    = (Returns tt, manager (shuffledBatch ++ shuffledBatch) (Some [m0; m1; m2])) /\
  [m0; m1; m2] <> [m0; m1].
Proof.
  repeat split; try reflexivity. discriminate.
Qed.

End AppendFacts.

(** ** Storage: paths and the disk *)

Lemma append_cons (c : ascii) (s t : string) : String c s +:+ t = String c (s +:+ t).
Proof. reflexivity. Qed.

Lemma append_nil_right (s : string) : s +:+ "" = s.
Proof. induction s as [|c s IH]; [reflexivity|]. now rewrite append_cons, IH. Qed.

Lemma append_assoc (a b c : string) : (a +:+ b) +:+ c = a +:+ (b +:+ c).
Proof. induction a as [|x a IH]; [reflexivity|]. now rewrite !append_cons, IH. Qed.

Lemma append_not_self (s t : string) : JS.truthy t = true -> s +:+ t <> s.
Proof.
  intros T E. rewrite <- (append_nil_right s) in E at 2.
  apply String.app_inj in E. subst t. discriminate.
Qed.

Lemma truthy_append_r (a b : string) : JS.truthy b = true -> JS.truthy (a +:+ b) = true.
Proof. intros E. destruct a; [exact E | reflexivity]. Qed.

Module StorageFacts.
Import Storage.

Section Disk.
Context `{Runtime}.
Variable storageDir : LocalFilePath.

Lemma destPath_truthy s : JS.truthy (destPath storageDir s) = true.
Proof. unfold destPath, destParentPath. now apply truthy_append_r. Qed.

Lemma existsSync_Some w p data : files w !! p = Some data -> existsSync w p = true.
Proof. intros E. unfold existsSync. rewrite E. reflexivity. Qed.

Lemma existsSync_None w p : files w !! p = None -> existsSync w p = false.
Proof. intros E. unfold existsSync. rewrite E. reflexivity. Qed.

(** The temporary file of a stream or bucket ingest is no content path. *)
Lemma storeTmp_not_destPath rnd s :
  storageDir +:+ "/store.file." +:+ rnd +:+ ".tmp" <> destPath storageDir s.
Proof.
  unfold destPath, destParentPath. rewrite append_assoc.
  intros E. apply String.app_inj in E. discriminate.
Qed.

(** Neither is the temporary file of a concatenation. *)
Lemma concatTmp_not_destPath prefix rnd s :
  createTemporaryFilePath storageDir prefix rnd <> destPath storageDir s.
Proof.
  unfold createTemporaryFilePath, destPath, destParentPath. rewrite append_assoc.
  intros E. apply String.app_inj in E. discriminate.
Qed.

Lemma renameAndCheck_moves w src dst data :
  files w !! src = Some data ->
  renameAndCheck src dst (Z.of_nat (length data)) w
  = (Returns tt, set_files (fun fs => <[dst := data]> (delete src fs)) w).
Proof.
  intros E. unfold renameAndCheck, renameSync, statSync. exec_unfold. rewrite E.
  unfold set_files. cbn [files fst snd]. rewrite lookup_insert_eq, Z.eqb_refl. reflexivity.
Qed.

(** A lookup of a hash whose content file is on the disk. *)
Lemma findFile_direct w s data :
  JS.truthy s = true ->
  files w !! destPath storageDir s = Some data ->
  findFile storageDir w (sha1Key s)
  = {| found := true; size := Z.of_nat (length data);
       localFilePath := Some (destPath storageDir s) |}.
Proof.
  intros T E. unfold findFile, _getLocalFileInfo, _getLocalFileInfo1, statSync. exec_unfold.
  simpl. rewrite T, E. simpl. unfold pathTruthy. rewrite !destPath_truthy. reflexivity.
Qed.

(** **** Ingest of a buffer *)

Lemma storeFile_fresh w s data rnd :
  files w !! destPath storageDir s = None ->
  storeFile storageDir s data rnd w
  = (Returns tt,
     {| files := <[destPath storageDir s := data]>
                   (delete (destPath storageDir s +:+ "." +:+ rnd +:+ ".tmp") (files w));
        fileStored := fileStored w ++ [s] |}).
Proof.
  intros Free. unfold storeFile.
  assert (destPath storageDir s +:+ "." +:+ rnd +:+ ".tmp" <> destPath storageDir s) as Ne.
  { apply append_not_self. reflexivity. }
  unfold Exec.bind at 1. unfold Exec.get at 1. rewrite (existsSync_None _ _ Free).
  unfold Exec.bind at 1. unfold writeFile, Exec.modify at 1.
  unfold Exec.bind at 1. unfold Exec.get at 1.
  rewrite existsSync_None by (simpl; rewrite lookup_insert_ne by exact Ne; exact Free).
  unfold Exec.bind at 1.
  rewrite (renameAndCheck_moves _ _ _ data) by (simpl; apply lookup_insert_eq).
  unfold _reportFileStored, Exec.modify. simpl. rewrite delete_insert_eq. reflexivity.
Qed.

(** C10. [storeFile] never hashes its input: there are a hash and a
    buffer that does not hash to it for which the call, on an empty
    store, returns, leaves the buffer at the content path of the hash,
    tells the observers that the hash was stored, and makes the lookup of
    the hash report [found] with the buffer's size. *)
Theorem storeFile_accepts_mismatched_content (rnd : string) :
  exists (sha1 : Sha1Hash) (data : Buffer),
    sha1Hex data <> sha1 /\
    let w := {| files := ∅; fileStored := [] |} in
    let w' := snd (storeFile storageDir sha1 data rnd w) in
    fst (storeFile storageDir sha1 data rnd w) = Returns tt /\
    files w' !! destPath storageDir sha1 = Some data /\
    fileStored w' = [sha1] /\
    findFile storageDir w' (sha1Key sha1)
    = {| found := true; size := Z.of_nat (length data);
         localFilePath := Some (destPath storageDir sha1) |}.
Proof.
  set (data := list_byte_of_string "hello").
  set (a := "f572d396fae9206628714fb2ce00f72e94f2258f").
  set (b := "0000000000000000000000000000000000000000").
  assert (exists s, (s = a \/ s = b) /\ sha1Hex data <> s) as (s & Hs & Ne).
  { destruct (String.eqb (sha1Hex data) a) eqn:E.
    - apply String.eqb_eq in E. exists b. split; [now right|]. rewrite E. discriminate.
    - apply String.eqb_neq in E. exists a. split; [now left | exact E]. }
  clearbody data.
  exists s, data. split; [exact Ne|]. intros w w'. subst w'.
  rewrite (storeFile_fresh w s data rnd) by apply lookup_empty.
  assert (JS.truthy s = true) as T by (destruct Hs as [-> | ->]; reflexivity).
  simpl. split; [reflexivity|]. split; [apply lookup_insert_eq|]. split; [reflexivity|].
  apply findFile_direct; [exact T | apply lookup_insert_eq].
Qed.

(** [storeFile] on any disk where the content path is free, whatever the
    buffer hashes to. *)
Lemma storeFile_installs_whatever_it_is_given w s data rnd :
  JS.truthy s = true ->
  files w !! destPath storageDir s = None ->
  let w' := snd (storeFile storageDir s data rnd w) in
  fst (storeFile storageDir s data rnd w) = Returns tt /\
  files w' !! destPath storageDir s = Some data /\
  fileStored w' = fileStored w ++ [s] /\
  found (findFile storageDir w' (sha1Key s)) = true.
Proof.
  intros T Free w'. subst w'. rewrite (storeFile_fresh w s data rnd Free). simpl.
  split; [reflexivity|]. split; [apply lookup_insert_eq|]. split; [reflexivity|].
  rewrite (findFile_direct _ s data); [reflexivity | exact T | apply lookup_insert_eq].
Qed.

(** **** Lookup through a link file *)

Lemma isLinkObject_not_falsy x : isLinkObject x = true -> falsy x = false.
Proof. destruct x; simpl; try discriminate. reflexivity. Qed.

(** C9 (as amended). For a hash that has no content file and whose link
    file parses to a link object: the lookup reports [found] exactly when
    the linked path is on the disk, with that path and the size the file
    has now; when the linked file is gone the lookup reports not found.
    The size recorded in the link object is not read. *)
Theorem findFile_through_link_ignores_recorded_size
    (w : World) (s : Sha1Hash) (txt : Buffer) (x : JSONValue) :
  JS.truthy s = true ->
  files w !! destPath storageDir s = None ->
  files w !! (destPath storageDir s +:+ ".link") = Some txt ->
  JSON_parse txt = Some x ->
  isLinkObject x = true ->
  findFile storageDir w (sha1Key s)
  = match files w !! linkPath x with
    | Some data =>
        if JS.truthy (linkPath x) then
          {| found := true; size := Z.of_nat (length data);
             localFilePath := Some (linkPath x) |}
        else {| found := false; size := 0; localFilePath := None |}
    | None => {| found := false; size := 0; localFilePath := None |}
    end.
Proof.
  intros T NoDirect Link Parse IsLink.
  unfold findFile, _getLocalFileInfo, _getLocalFileInfo1, _getLocalFileInfo2, readJsonFile,
    statSync. exec_unfold.
  cbn [fk_sha1 fk_chunkOf sha1Key]. rewrite T, NoDirect. cbn [pathTruthy].
  rewrite (existsSync_Some _ _ _ Link), Link, Parse, (isLinkObject_not_falsy _ IsLink), IsLink.
  cbn [negb]. destruct (files w !! linkPath x) as [data|]; [|reflexivity].
  unfold pathTruthy. destruct (JS.truthy (linkPath x)) eqn:TP; cbn; rewrite ?TP; reflexivity.
Qed.

(** **** Ingest from a bucket URL *)

Lemma cleanup_files p w :
  files (snd (_cleanup p w)) = delete p (files w) /\
  fileStored (snd (_cleanup p w)) = fileStored w.
Proof.
  unfold _cleanup, unlinkSync, existsSync. exec_unfold.
  destruct (files w !! p) as [d|] eqn:E.
  - rewrite bool_decide_eq_true_2 by eauto. split; reflexivity.
  - rewrite bool_decide_eq_false_2 by (intros [? ?]; discriminate).
    split; [|reflexivity]. cbn [snd]. now rewrite delete_id.
Qed.

(** While data comes in, only the temporary file changes. *)
Lemma download_data tmp expected size chunks st w :
  dl_complete st = false ->
  let r := fold_left (onHttpEvent storageDir tmp expected size) (map HttpData chunks) (st, w) in
  dl_complete (fst r) = false /\
  dl_shasum (fst r) = dl_shasum st ++ concat chunks /\
  ds_terminal (dl_ret (fst r)) = ds_terminal (dl_ret st) /\
  delete tmp (files (snd r)) = delete tmp (files w) /\
  fileStored (snd r) = fileStored w.
Proof.
  revert st w. induction chunks as [|c rest IH]; intros st w C r; subst r.
  - cbn [map fold_left fst snd concat]. rewrite app_nil_r. auto.
  - cbn [map fold_left].
    set (st1 := {| dl_shasum := dl_shasum st ++ c; dl_complete := false;
                   dl_ret := producer_incrementBytes (Z.of_nat (length c)) (dl_ret st);
                   dl_bytesReceived := dl_bytesReceived st + Z.of_nat (length c) |}).
    assert (onHttpEvent storageDir tmp expected size (st, w) (HttpData c)
            = (st1, snd (streamWrite tmp c w))) as Step.
    { unfold onHttpEvent. cbn [fst snd]. now rewrite C. }
    rewrite Step.
    destruct (IH st1 (snd (streamWrite tmp c w)) eq_refl) as (I1 & I2 & I3 & I4 & I5).
    rewrite I1, I2, I3, I4, I5.
    unfold streamWrite. exec_unfold. cbn [snd set_files files fileStored st1 dl_shasum dl_ret].
    cbn [producer_incrementBytes ds_terminal concat].
    rewrite delete_alter, app_assoc.
    repeat split; try reflexivity. case_decide; [reflexivity | congruence].
Qed.

(** C3. When the response stream of [storeFileFromBucketUrl] delivers
    its data and ends, and the bytes hash to something else than the
    expected hash: the returned stream ends in an error, the temporary
    file is gone, every other path of the disk, the content paths among
    them, is as before the call, and the observers are not told of a
    stored file. *)
Theorem storeFileFromBucketUrl_rejects_wrong_hash
    (w : World) (expected : Sha1Hash) (size : Z) (chunks : list Buffer) (rnd : string) :
  sha1Hex (concat chunks) <> expected ->
  let tmp := storageDir +:+ "/store.file." +:+ rnd +:+ ".tmp" in
  let r := storeFileFromBucketUrl storageDir expected size
             (map HttpData chunks ++ [HttpEnd]) rnd w in
  ds_terminal (dl_ret (fst r))
    = Some (Errored (UnexpectedSha1OfDownloadedFile (sha1Hex (concat chunks)) expected)) /\
  files (snd r) !! tmp = None /\
  files (snd r) = delete tmp (files w) /\
  (forall s, files (snd r) !! destPath storageDir s = files w !! destPath storageDir s) /\
  fileStored (snd r) = fileStored w.
Proof.
  intros Ne tmp r. subst r. unfold storeFileFromBucketUrl. fold tmp.
  rewrite fold_left_app.
  match goal with |- context [fold_left _ (map HttpData chunks) (?st0, ?w0)] =>
    destruct (download_data tmp expected size chunks st0 w0 eq_refl) as (C & S & T & F & L);
    destruct (fold_left (onHttpEvent storageDir tmp expected size) (map HttpData chunks)
                (st0, w0)) as [st w1]
  end.
  cbn [fst snd dl_shasum dl_ret ds_terminal app] in C, S, T, F, L.
  cbn [fold_left]. unfold onHttpEvent. cbn [fst snd]. rewrite C, S.
  apply String.eqb_neq in Ne. rewrite Ne. cbn [negb].
  unfold _reportError. cbn [fst snd dl_ret].
  destruct (cleanup_files tmp w1) as [CF CL]. rewrite CF, CL, F, L.
  unfold createWriteStream, writeFile. exec_unfold. cbn [snd set_files files fileStored].
  rewrite delete_insert_eq.
  split; [unfold producer_terminate; now rewrite T|].
  split; [apply lookup_delete_eq|]. split; [reflexivity|]. split; [|reflexivity].
  intros s. apply lookup_delete_ne. subst tmp. apply storeTmp_not_destPath.
Qed.

(** **** Concatenation of chunks *)

Lemma verifyChunksPresent_pure chunkSha1s w :
  snd (verifyChunksPresent storageDir chunkSha1s w) = w /\
  fst (verifyChunksPresent storageDir chunkSha1s w) <> Throws UnexpectedSha1OfConcatenatedFile.
Proof.
  induction chunkSha1s as [|c rest IH]; cbn [verifyChunksPresent]; exec_unfold.
  - split; [reflexivity | discriminate].
  - destruct (found (findFile storageDir w (sha1Key c))); [exact IH|].
    split; [reflexivity | discriminate].
Qed.

Lemma readWholeFile_error w s :
  readWholeFile storageDir w s <> Throws UnexpectedSha1OfConcatenatedFile.
Proof.
  unfold readWholeFile. destruct (JS.truthy s); [|discriminate].
  destruct (_getLocalFileInfo storageDir w s) as [[p|] [n|]]; try discriminate.
  destruct (JS.truthy p); [|discriminate].
  destruct (n <=? 0); [discriminate|].
  destruct (files w !! p); discriminate.
Qed.

(** Streaming the chunks keeps the temporary file in place and touches
    nothing else. *)
Lemma appendChunks_keeps tmp chunkSha1s hashed w :
  is_Some (files w !! tmp) ->
  let r := appendChunks storageDir tmp chunkSha1s hashed w in
  is_Some (files (snd r) !! tmp) /\
  (forall p, p <> tmp -> files (snd r) !! p = files w !! p) /\
  fileStored (snd r) = fileStored w /\
  fst r <> Throws UnexpectedSha1OfConcatenatedFile.
Proof.
  revert hashed w. induction chunkSha1s as [|c rest IH]; intros hashed w There r; subst r;
    cbn [appendChunks]; exec_unfold.
  - cbn [fst snd]. repeat split; try assumption; discriminate.
  - pose proof (readWholeFile_error w c) as RE.
    destruct (readWholeFile storageDir w c) as [buf|e].
    + unfold streamWrite. exec_unfold. cbn [snd].
      match goal with |- context [appendChunks _ _ _ _ ?w1] =>
        assert (is_Some (files w1 !! tmp)) as There1
          by (cbn [set_files files]; rewrite lookup_alter_eq; destruct There as [d ->]; eauto);
        destruct (IH (hashed ++ buf) w1 There1) as (I1 & I2 & I3 & I4)
      end.
      split; [exact I1|]. split; [|split; [exact I3 | exact I4]].
      intros p Np. rewrite I2 by exact Np. cbn [set_files files].
      apply lookup_alter_ne. congruence.
    + cbn [fst snd]. repeat split; try assumption; try congruence.
Qed.

(** C4, on the code. When [concatenateChunksAndStoreResult] stops on the
    hash of the concatenated bytes, nothing is installed at the content
    path and the observers are not told, and the temporary file is still
    on the disk: this path does not unlink it. *)
Theorem concatenate_mismatch_leaves_temporary_file
    (w : World) (sha1 : Sha1Hash) (chunkSha1s : list Sha1Hash) (rnd : string) :
  fst (concatenateChunksAndStoreResult storageDir sha1 chunkSha1s rnd w)
    = Throws UnexpectedSha1OfConcatenatedFile ->
  let w' := snd (concatenateChunksAndStoreResult storageDir sha1 chunkSha1s rnd w) in
  is_Some (files w' !! createTemporaryFilePath storageDir "kachery-daemon-concat-" rnd) /\
  files w' !! destPath storageDir sha1 = None /\
  fileStored w' = fileStored w.
Proof.
  set (tmp := createTemporaryFilePath storageDir "kachery-daemon-concat-" rnd).
  intros Thrown w'. subst w'.
  destruct (concatenateChunksAndStoreResult storageDir sha1 chunkSha1s rnd w) as [o w'] eqn:Run.
  cbn [fst snd] in *. subst o. revert Run.
  unfold concatenateChunksAndStoreResult. fold tmp.
  unfold Exec.bind at 1. unfold Exec.get at 1.
  destruct (existsSync w (destPath storageDir sha1)) eqn:Ex; [discriminate|].
  assert (files w !! destPath storageDir sha1 = None) as Free.
  { unfold existsSync in Ex. apply bool_decide_eq_false in Ex.
    destruct (files w !! destPath storageDir sha1); [exfalso; eauto | reflexivity]. }
  unfold Exec.bind at 1.
  destruct (verifyChunksPresent_pure chunkSha1s w) as [Vw Ve].
  destruct (verifyChunksPresent storageDir chunkSha1s w) as [[[]|e] w0]; cbn [fst snd] in Vw, Ve;
    subst w0; [|intros Run; inversion Run; subst; congruence].
  unfold Exec.bind at 1. unfold createWriteStream, writeFile, Exec.modify at 1.
  unfold Exec.bind at 1.
  match goal with |- context [appendChunks _ _ _ _ ?w1] =>
    assert (is_Some (files w1 !! tmp)) as There
      by (cbn [set_files files]; rewrite lookup_insert_eq; eauto);
    destruct (appendChunks_keeps tmp chunkSha1s [] w1 There) as (A1 & A2 & A3 & A4);
    destruct (appendChunks storageDir tmp chunkSha1s [] w1) as [[hashed|e] w2]
  end; cbn [fst snd] in A1, A2, A3, A4;
    [|intros Run; inversion Run; subst; congruence].
  assert (files w2 !! destPath storageDir sha1 = None) as Free2.
  { rewrite A2 by (apply not_eq_sym, concatTmp_not_destPath).
    cbn [set_files files]. rewrite lookup_insert_ne by apply concatTmp_not_destPath.
    exact Free. }
  unfold Exec.bind at 1. unfold Exec.throw_if.
  destruct (negb (String.eqb (sha1Hex hashed) sha1)).
  - unfold Exec.throw. intros Run. inversion Run; subst w'.
    split; [exact A1|]. split; [exact Free2 | exact A3].
  - unfold Exec.ret at 1. unfold Exec.bind at 1. unfold Exec.get at 1.
    rewrite (existsSync_None _ _ Free2).
    destruct A1 as [d Hd].
    unfold Exec.bind at 1.
    unfold renameAndCheck, renameSync, statSync. exec_unfold. rewrite Hd.
    cbn [set_files files]. rewrite lookup_insert_eq.
    destruct (_ =? _); intros Run; inversion Run.
Qed.

(** **** The streaming manifest builder *)

Lemma tiles_snoc from chunks mid c :
  tiles from chunks mid -> chunk_start c = mid -> tiles from (chunks ++ [c]) (chunk_end c).
Proof.
  revert from. induction chunks as [|a rest IH]; intros from; simpl.
  - intros -> E. split; [exact E | reflexivity].
  - intros [S T] E. split; [exact S | apply IH; assumption].
Qed.

Lemma tiles_first from chunks to c :
  tiles from chunks to -> chunks !! 0%nat = Some c -> chunk_start c = from.
Proof. destruct chunks as [|a rest]; simpl; [discriminate|]. intros [S _] E. congruence. Qed.

Lemma tiles_next from chunks to (i : nat) c c' :
  tiles from chunks to -> chunks !! i = Some c -> chunks !! S i = Some c' ->
  chunk_end c = chunk_start c'.
Proof.
  revert from i. induction chunks as [|a rest IH]; intros from i; [discriminate|].
  intros [S T] E E'. destruct i as [|i]; simpl in E, E'.
  - inversion E; subst a. symmetry. eapply tiles_first; eassumption.
  - eapply IH; eassumption.
Qed.

Lemma tiles_last from chunks to c :
  tiles from chunks to -> last chunks = Some c -> chunk_end c = to.
Proof.
  revert from. induction chunks as [|a rest IH]; intros from; [discriminate|].
  intros [S T] E. destruct rest as [|b rest].
  - simpl in E, T. congruence.
  - apply (IH (chunk_end a) T). exact E.
Qed.

Lemma slice_length (d : Buffer) (i m : Z) :
  0 <= i -> 0 <= m -> i + m <= Z.of_nat (length d) ->
  Z.of_nat (length (slice d i (i + m))) = m.
Proof.
  intros Hi Hm Hd. unfold slice. rewrite length_take, length_drop. lia.
Qed.

Section Builder.
Variable cs : Z.
Hypothesis cs_pos : 0 < cs.

Lemma sliceLoop_done fuel final (d : Buffer) i b :
  Z.of_nat (length d) <= i -> sliceLoop fuel cs final d i b = b.
Proof.
  intros Hi. destruct fuel as [|fuel]; [reflexivity|]. simpl.
  destruct (i <? Z.of_nat (length d)) eqn:E; [apply Z.ltb_lt in E; lia | reflexivity].
Qed.

(** The fuel [d.length] is enough: more of it changes nothing. *)
Lemma sliceLoop_fuel fuel fuel' final (d : Buffer) i b :
  0 <= i ->
  Z.of_nat (length d) - i <= Z.of_nat fuel ->
  (fuel <= fuel')%nat ->
  sliceLoop fuel' cs final d i b = sliceLoop fuel cs final d i b.
Proof.
  revert fuel' i b. induction fuel as [|fuel IH]; intros fuel' i b Hi Hf Le.
  - rewrite !sliceLoop_done by lia. reflexivity.
  - destruct fuel' as [|fuel']; [lia|]. simpl.
    destruct (i <? Z.of_nat (length d)) eqn:E; [|reflexivity].
    apply Z.ltb_lt in E. apply IH; lia.
Qed.

(** The loop of a non-final update, from index [i] with nothing kept
    yet: it emits the full chunks and keeps a rest shorter than a chunk. *)
Lemma sliceLoop_feeding fuel (d : Buffer) i b :
  0 <= i ->
  Z.of_nat (length d) - i <= Z.of_nat fuel ->
  tiles 0 (manifestChunks b) (byte1 (manifestData b)) ->
  Forall (fun c => chunkLength c = cs) (manifestChunks b) ->
  buffers (manifestData b) = [] ->
  byte1 (manifestData b) + Z.max 0 (Z.of_nat (length d) - i) = byte2 (manifestData b) ->
  let b' := sliceLoop fuel cs false d i b in
  wellBuilt cs b' /\
  byte2 (manifestData b') - byte1 (manifestData b') < cs /\
  byte2 (manifestData b') = byte2 (manifestData b).
Proof.
  revert i b. induction fuel as [|fuel IH]; intros i b Hi Hf T F K R b'; subst b'.
  - simpl. unfold wellBuilt. rewrite K. simpl. repeat split; try assumption; lia.
  - simpl. destruct (i <? Z.of_nat (length d)) eqn:E.
    2:{ apply Z.ltb_ge in E. unfold wellBuilt. rewrite K. simpl.
        repeat split; try assumption; lia. }
    apply Z.ltb_lt in E.
    set (m := Z.min cs (Z.of_nat (length d) - i)).
    assert (Z.of_nat (length (slice d i (i + m))) = m) as Lx by (apply slice_length; lia).
    unfold emitOrKeep. rewrite Lx, orb_false_r.
    destruct (m =? cs) eqn:Full.
    + apply Z.eqb_eq in Full.
      match goal with |- context [sliceLoop fuel cs false d (i + cs) ?B1] => set (b1 := B1) end.
      assert (tiles 0 (manifestChunks b1) (byte1 (manifestData b1))) as T1.
      { apply (tiles_snoc 0 _ (byte1 (manifestData b))); [exact T | reflexivity]. }
      assert (Forall (fun c => chunkLength c = cs) (manifestChunks b1)) as F1.
      { apply Forall_app. split; [exact F|]. constructor; [|constructor].
        unfold chunkLength. simpl. lia. }
      destruct (IH (i + cs) b1) as (W1 & S1 & E1);
        [lia | lia | exact T1 | exact F1 | exact K | subst b1; simpl; lia |].
      split; [exact W1|]. split; [exact S1 | rewrite E1; reflexivity].
    + apply Z.eqb_neq in Full.
      rewrite sliceLoop_done by lia.
      unfold wellBuilt. cbn [manifestData manifestChunks byte1 byte2 buffers].
      rewrite K. simpl. rewrite app_nil_r, Lx.
      repeat split; try assumption; lia.
Qed.

Lemma update_feeding b :
  wellBuilt cs b ->
  let b' := _updateManifestChunks cs false b in
  wellBuilt cs b' /\
  byte2 (manifestData b') - byte1 (manifestData b') < cs /\
  byte2 (manifestData b') = byte2 (manifestData b).
Proof.
  intros (T & F & L) b'. subst b'. unfold _updateManifestChunks.
  rewrite andb_false_l, orb_false_r.
  destruct (byte2 (manifestData b) - byte1 (manifestData b) >=? cs) eqn:G.
  - rewrite Z.geb_leb in G. apply Z.leb_le in G.
    match goal with |- context [sliceLoop ?f cs false ?d 0 ?B0] =>
      destruct (sliceLoop_feeding f d 0 B0) as (W1 & S1 & E1);
        cbn [manifestData manifestChunks byte1 byte2 buffers];
        try assumption; try reflexivity; try lia
    end.
    split; [exact W1|]. split; [exact S1 | exact E1].
  - rewrite Z.geb_leb in G. apply Z.leb_gt in G.
    split; [repeat split; assumption|]. split; [exact G | reflexivity].
Qed.

Lemma feed_wellBuilt b buf :
  wellBuilt cs b ->
  wellBuilt cs (feed cs b buf) /\
  byte2 (manifestData (feed cs b buf)) - byte1 (manifestData (feed cs b buf)) < cs /\
  byte2 (manifestData (feed cs b buf)) = byte2 (manifestData b) + Z.of_nat (length buf).
Proof.
  intros (T & F & L). unfold feed. apply update_feeding.
  unfold wellBuilt. cbn [manifestData manifestChunks byte1 byte2 buffers].
  repeat split; try assumption.
  rewrite concat_app, length_app. simpl. rewrite app_nil_r. lia.
Qed.

Lemma fold_feed_wellBuilt bufs b :
  wellBuilt cs b ->
  byte2 (manifestData b) - byte1 (manifestData b) < cs ->
  let b' := fold_left (feed cs) bufs b in
  wellBuilt cs b' /\
  byte2 (manifestData b') - byte1 (manifestData b') < cs /\
  byte2 (manifestData b') = byte2 (manifestData b) + Z.of_nat (length (concat bufs)).
Proof.
  revert b. induction bufs as [|buf rest IH]; intros b W Short b'; subst b'; simpl.
  - repeat split; try apply W; lia.
  - destruct (feed_wellBuilt b buf W) as (W1 & S1 & B1).
    destruct (IH _ W1 S1) as (W2 & S2 & B2).
    split; [exact W2|]. split; [exact S2|]. rewrite B2, B1, length_app. lia.
Qed.

(** The final update emits what is kept, if anything, as one last chunk. *)
Lemma update_final b :
  wellBuilt cs b ->
  byte2 (manifestData b) - byte1 (manifestData b) < cs ->
  let b' := _updateManifestChunks cs true b in
  byte2 (manifestData b') = byte2 (manifestData b) /\
  tiles 0 (manifestChunks b') (byte2 (manifestData b)) /\
  exists tail, manifestChunks b' = manifestChunks b ++ tail /\
    (tail = [] \/ exists c, tail = [c] /\ 0 < chunkLength c < cs).
Proof.
  intros (T & F & L) Short b'. subst b'. unfold _updateManifestChunks.
  destruct (byte2 (manifestData b) - byte1 (manifestData b) >=? cs) eqn:G.
  { rewrite Z.geb_leb in G. apply Z.leb_le in G. lia. }
  cbn [orb andb].
  destruct (byte2 (manifestData b) >? byte1 (manifestData b)) eqn:P.
  - apply Z.gtb_lt in P.
    set (d := concat (buffers (manifestData b))) in *.
    destruct (length d) as [|n] eqn:Ld; [lia|]. cbn [sliceLoop].
    rewrite Ld.
    destruct (0 <? Z.of_nat (S n)) eqn:E; [|apply Z.ltb_ge in E; lia].
    rewrite sliceLoop_done by (rewrite Ld; lia).
    assert (Z.of_nat (length (slice d 0 (0 + Z.min cs (Z.of_nat (S n) - 0))))
            = Z.of_nat (S n)) as Lx.
    { rewrite slice_length; rewrite ?Ld; lia. }
    unfold emitOrKeep. rewrite Lx, orb_true_r.
    cbn [manifestData manifestChunks byte1 byte2 buffers].
    split; [reflexivity|]. split.
    + replace (byte2 (manifestData b)) with (byte1 (manifestData b) + Z.of_nat (S n)) by lia.
      apply (tiles_snoc 0 _ (byte1 (manifestData b))); [exact T | reflexivity].
    + eexists. split; [reflexivity|]. right. eexists. split; [reflexivity|].
      unfold chunkLength. simpl. lia.
  - rewrite Z.gtb_ltb in P. apply Z.ltb_ge in P.
    assert (byte2 (manifestData b) = byte1 (manifestData b)) as Eq by lia.
    split; [reflexivity|]. split; [rewrite Eq; exact T|].
    exists []. split; [now rewrite app_nil_r | now left].
Qed.

(** The chunk list of a whole stream. *)
Lemma buildManifest_chunks bufs :
  let b := buildManifest cs bufs in
  let total := Z.of_nat (length (concat bufs)) in
  byte2 (manifestData b) = total /\
  tiles 0 (manifestChunks b) total /\
  exists full tail, manifestChunks b = full ++ tail /\
    Forall (fun c => chunkLength c = cs) full /\
    (tail = [] \/ exists c, tail = [c] /\ 0 < chunkLength c < cs).
Proof.
  intros b total. subst b total. unfold buildManifest.
  assert (wellBuilt cs emptyBuilder) as W0.
  { unfold wellBuilt, emptyBuilder. simpl. repeat split; constructor. }
  destruct (fold_feed_wellBuilt bufs emptyBuilder W0) as (W & S & B); [simpl; lia|].
  cbn [emptyBuilder manifestData byte2] in B.
  destruct (update_final _ W S) as (B2 & T & tail & E & Tl).
  rewrite Z.add_0_l in B. rewrite B in B2, T.
  split; [exact B2|]. split; [exact T|].
  exists (manifestChunks (fold_left (feed cs) bufs emptyBuilder)), tail.
  split; [exact E|]. split; [apply W | exact Tl].
Qed.

End Builder.

(** **** Ingest of a stream *)

Lemma chunkSize_pos : 0 < chunkSize.
Proof. unfold chunkSize. lia. Qed.

(** While data comes in: the hash and the builder are fed, and on the
    disk only the temporary file grows. *)
Lemma ingest_data tmp fileSize rnd5 bufs st w :
  complete st = false ->
  let r := fold_left (handle storageDir tmp fileSize rnd5) (map DsData bufs) (st, w) in
  complete (fst r) = false /\
  shasum (fst r) = shasum st ++ concat bufs /\
  builder (fst r) = fold_left (feed chunkSize) bufs (builder st) /\
  settled (fst r) = settled st /\
  fileStored (snd r) = fileStored w /\
  files (snd r) = match tmp with
                  | Some p => alter (fun old => old ++ concat bufs) p (files w)
                  | None => files w
                  end.
Proof.
  revert st w. induction bufs as [|buf rest IH]; intros st w C r; subst r.
  - cbn [map fold_left fst snd concat]. rewrite app_nil_r.
    repeat split; try assumption. destruct tmp as [p|]; [|reflexivity].
    symmetry. apply map_eq. intros k. rewrite lookup_alter. case_decide; [subst k|reflexivity].
    destruct (files w !! p) as [d|]; simpl; [now rewrite app_nil_r | reflexivity].
  - cbn [map fold_left].
    set (st1 := {| shasum := shasum st ++ buf; builder := feed chunkSize (builder st) buf;
                   complete := false; settled := settled st |}).
    set (w1 := match tmp with Some p => snd (streamWrite p buf w) | None => w end).
    assert (handle storageDir tmp fileSize rnd5 (st, w) (DsData buf) = (st1, w1)) as Step.
    { unfold handle, onData. cbn [fst snd]. now rewrite C. }
    rewrite Step. destruct (IH st1 w1 eq_refl) as (I1 & I2 & I3 & I4 & I5 & I6).
    rewrite I1, I2, I3, I4, I5, I6. subst st1 w1.
    cbn [shasum builder settled concat fold_left]. rewrite <- app_assoc.
    repeat split; try reflexivity.
    + destruct tmp; reflexivity.
    + destruct tmp as [p|]; [|reflexivity].
      unfold streamWrite. exec_unfold. cbn [snd set_files files].
      apply map_eq. intros k. rewrite !lookup_alter.
      repeat case_decide; try congruence.
      destruct (files w !! p) as [d|]; simpl; [now rewrite <- app_assoc | reflexivity].
Qed.

(** What [nextStep] settles. *)
Lemma nextStep_settles tmp sha1Computed rnd5 st w :
  let b := _updateManifestChunks chunkSize true (builder st) in
  exists res,
    settled (fst (nextStep storageDir tmp sha1Computed rnd5 st w)) = Some (Returns res) /\
    builder (fst (nextStep storageDir tmp sha1Computed rnd5 st w)) = b /\
    result_sha1 res = sha1Computed /\
    (result_manifestSha1 res = None <-> (length (manifestChunks b) <= 1)%nat).
Proof.
  intros b. unfold nextStep. fold b. cbn [fst settled builder].
  eexists. split; [reflexivity|]. split; [reflexivity|]. split; [reflexivity|].
  cbn [result_manifestSha1].
  destruct (1 <? length (manifestChunks b))%nat eqn:E.
  - apply Nat.ltb_lt in E. split; [discriminate | lia].
  - apply Nat.ltb_ge in E. split; [intros _; exact E | reflexivity].
Qed.

(** What the end of the stream settles: the manifest is finished by
    [nextStep], unless the temporary file could not be installed. *)
Lemma onFinished_settles tmp fileSize rnd5 st w :
  complete st = false ->
  let r := onFinished storageDir tmp fileSize rnd5 st w in
  let b := _updateManifestChunks chunkSize true (builder st) in
  (exists e, settled (fst r) = Some (Throws e) /\
     exists p, tmp = Some p /\ existsSync w (destPath storageDir (sha1Hex (shasum st))) = false /\
       fst (renameAndCheck p (destPath storageDir (sha1Hex (shasum st))) fileSize w) = Throws e) \/
  (exists res, settled (fst r) = Some (Returns res) /\
     builder (fst r) = b /\
     result_sha1 res = sha1Hex (shasum st) /\
     (result_manifestSha1 res = None <-> (length (manifestChunks b) <= 1)%nat)).
Proof.
  intros C r b. subst r b. unfold onFinished. rewrite C.
  set (st1 := {| shasum := shasum st; builder := builder st; complete := true;
                 settled := settled st |}).
  destruct tmp as [p|].
  - destruct (existsSync w (destPath storageDir (sha1Hex (shasum st)))) eqn:Ex.
    + right. apply (nextStep_settles (Some p) _ rnd5 st1 w).
    + destruct (renameAndCheck p (destPath storageDir (sha1Hex (shasum st))) fileSize w)
        as [[[]|e] w1] eqn:Rn.
      * right. apply (nextStep_settles (Some p) _ rnd5 st1 w1).
      * left. exists e. split; [reflexivity|]. exists p.
        split; [reflexivity|]. split; [reflexivity | now rewrite Rn].
  - right. apply (nextStep_settles None _ rnd5 st1 w).
Qed.

(** C2. For the data buffers [bufs] of a stream followed by its end:
    the chunks the manifest builder emits start at 0, each starts where
    the one before ended, and the last ends at the total size (there is
    no chunk only when the stream is empty); every chunk has between 1 and
    20,000,000 bytes and every chunk but the last exactly 20,000,000.
    The call either fails to install the temporary file (never when only
    the hash is asked for, nor when the declared size is the number of
    bytes streamed) or resolves with the hash of the bytes, having built
    exactly these chunks, and with a manifest hash that is null exactly
    when there is at most one chunk. *)
Theorem storeFileFromStream_manifest_partitions_input
    (bufs : list Buffer) (fileSize : Z) (calculateHashOnly : bool) (rnd10 rnd5 : string)
    (w : World) :
  let chunks := manifestChunks (buildManifest chunkSize bufs) in
  let total := Z.of_nat (length (concat bufs)) in
  let r := storeFileFromStream storageDir (map DsData bufs ++ [DsFinished]) fileSize
             calculateHashOnly rnd10 rnd5 w in
  chunkSize = 20000000 /\
  (forall c, chunks !! 0%nat = Some c -> chunk_start c = 0) /\
  (forall (i : nat) c c', chunks !! i = Some c -> chunks !! S i = Some c' ->
     chunk_end c = chunk_start c') /\
  (forall c, last chunks = Some c -> chunk_end c = total) /\
  (chunks = [] <-> total = 0) /\
  (forall (i : nat) c, chunks !! i = Some c -> 0 < chunk_end c - chunk_start c <= chunkSize) /\
  (forall (i : nat) c, chunks !! i = Some c -> (S i < length chunks)%nat ->
     chunk_end c - chunk_start c = chunkSize) /\
  ((exists e, settled (fst r) = Some (Throws e) /\
      calculateHashOnly = false /\ fileSize <> total) \/
   (exists res, settled (fst r) = Some (Returns res) /\
      manifestChunks (builder (fst r)) = chunks /\
      byte2 (manifestData (builder (fst r))) = total /\
      result_sha1 res = sha1Hex (concat bufs) /\
      (result_manifestSha1 res = None <-> (length chunks <= 1)%nat))).
Proof.
  intros chunks total r.
  destruct (buildManifest_chunks chunkSize chunkSize_pos bufs) as (B2 & T & full & tail & E & F & Tl).
  fold chunks in T, E. fold total in B2, T.
  assert (forall (i : nat) c, chunks !! i = Some c ->
            0 < chunkLength c <= chunkSize /\
            ((S i < length chunks)%nat -> chunkLength c = chunkSize)) as Sizes.
  { intros i c Hc. rewrite E in Hc. rewrite E, length_app.
    pose proof chunkSize_pos as Pos.
    apply lookup_app_Some in Hc as [Hf | [Hi Ht]].
    - rewrite Forall_forall in F. pose proof (F c (list_elem_of_lookup_2 _ _ _ Hf)) as Fc.
      split; [lia | intros _; exact Fc].
    - destruct Tl as [-> | (c0 & -> & Lc)]; [discriminate|].
      destruct (i - length full)%nat as [|k] eqn:D; [|discriminate].
      simpl in Ht. inversion Ht; subst c0. split; [lia|]. simpl. lia. }
  split; [reflexivity|].
  split; [intros c Hc; eapply tiles_first; eassumption|].
  split; [intros i c c' Hc Hc'; eapply tiles_next; eassumption|].
  split; [intros c Hc; eapply tiles_last; eassumption|].
  split.
  { split.
    - intros Em. rewrite Em in T. simpl in T. lia.
    - intros Z0. destruct chunks as [|c rest] eqn:Ch; [reflexivity|]. exfalso.
      destruct (last (c :: rest)) as [l|] eqn:La.
      + pose proof (tiles_last _ _ _ _ T La) as El.
        destruct T as [Sc Tr].
        apply last_Some in La as [l' El'].
        assert ((c :: rest) !! length l' = Some l) as Hl.
        { rewrite El'. rewrite lookup_app_r by lia. now rewrite Nat.sub_diag. }
        pose proof (proj1 (Sizes _ _ Hl)) as Pl. unfold chunkLength in Pl.
        assert (forall (j : nat) x, (c :: rest) !! j = Some x -> 0 <= chunk_start x) as NonNeg.
        { clear - Sizes Sc Tr. intros j. induction j as [|j IHj]; intros x Hx.
          - simpl in Hx. inversion Hx; subst x. lia.
          - destruct ((c :: rest) !! j) as [y|] eqn:Hy.
            + pose proof (tiles_next 0 (c :: rest) _ j y x (conj Sc Tr) Hy Hx) as N.
              pose proof (proj1 (Sizes _ _ Hy)) as Py. unfold chunkLength in Py.
              specialize (IHj y eq_refl). lia.
            + apply lookup_ge_None in Hy. apply lookup_lt_Some in Hx. lia. }
        specialize (NonNeg _ _ Hl). lia.
      + apply last_None in La. discriminate. }
  split; [intros i c Hc; apply (Sizes i c Hc)|].
  split; [intros i c Hc Hi; apply (Sizes i c Hc), Hi|].
  (* the call *)
  subst r. unfold storeFileFromStream. rewrite fold_left_app.
  set (tmp := if negb calculateHashOnly
              then Some (storageDir +:+ "/store.file." +:+ rnd10 +:+ ".tmp") else None).
  set (w0 := match tmp with Some p => snd (createWriteStream p w) | None => w end).
  set (st0 := {| shasum := []; builder := emptyBuilder; complete := false; settled := None |}).
  destruct (ingest_data tmp fileSize rnd5 bufs st0 w0 eq_refl) as (C & S & Bd & St & Fs & Fl).
  destruct (fold_left (handle storageDir tmp fileSize rnd5) (map DsData bufs) (st0, w0))
    as [st1 w1].
  cbn [fst snd st0 shasum builder app] in C, S, Bd, St, Fs, Fl.
  cbn [fold_left handle fst snd].
  destruct (onFinished_settles tmp fileSize rnd5 st1 w1 C)
    as [(e & Se & p & Tp & Ex & Rn) | (res & Sr & Br & Rs & Rm)].
  - left. exists e. split; [exact Se|].
    destruct calculateHashOnly; [discriminate|]. split; [reflexivity|].
    intros Eq. subst tmp. cbn [negb] in Tp. inversion Tp; subst p. clear Tp.
    rewrite S in Rn.
    assert (files w1 !! (storageDir +:+ "/store.file." +:+ rnd10 +:+ ".tmp") = Some (concat bufs))
      as Tmp.
    { rewrite Fl. cbn [negb]. rewrite lookup_alter_eq. subst w0. cbn [negb].
      unfold createWriteStream, writeFile. exec_unfold. cbn [snd set_files files].
      rewrite lookup_insert_eq. reflexivity. }
    fold total in Eq. subst fileSize. unfold total in Rn.
    rewrite (renameAndCheck_moves _ _ _ _ Tmp) in Rn. discriminate.
  - right. exists res. split; [exact Sr|]. rewrite Br, Bd. rewrite Bd in Rm. rewrite S in Rs.
    change (_updateManifestChunks chunkSize true (fold_left (feed chunkSize) bufs emptyBuilder))
      with (buildManifest chunkSize bufs) in *.
    fold chunks in Rm |- *.
    split; [reflexivity|]. split; [exact B2|]. split; [exact Rs | exact Rm].
Qed.

End Disk.
End StorageFacts.

(** ** Hub: bucket paths *)

Module PathFacts.
Import Hub HubSamples.

(** C6. The path [getSubfeedPath] computes is never the specified
    [feeds/<aa>/<bb>/<cc>/<feedId>/subfeeds/<aa>/<bb>/<cc>/<subfeedHash>]:
    it is one fixed text, whatever the feed and the subfeed. *)
Theorem getSubfeedPath_never_the_specified_path (feedId subfeedHash : string) :
  getSubfeedPath feedId subfeedHash <> specifiedSubfeedPath feedId subfeedHash.
Proof.
  unfold getSubfeedPath, specifiedSubfeedPath, JS.index.
  destruct feedId as [|c0 [|c1 rest]]; cbn; intros E;
    repeat (injection E as ? E); discriminate.
Qed.

Lemma getSubfeedPath_constant (f1 s1 f2 s2 : string) :
  getSubfeedPath f1 s1 = getSubfeedPath f2 s2.
Proof. reflexivity. Qed.

Example getSubfeedPath_sample :
  getSubfeedPath sampleFeedId sampleSubfeedHash
    = "feeds/{f[0]}{f[1]}/{f[2]}{f[3]}/{f[4]}{f[5]}/{f}/subfeeds/{s[0]}{s[1]}/{s[2]}{s[3]}//{s[4]}{s[5]}/{s}"
  /\ specifiedSubfeedPath sampleFeedId sampleSubfeedHash
    = "feeds/01/23/45/0123456789abcdef/subfeeds/fe/dc/ba/fedcba9876543210".
Proof. split; reflexivity. Qed.

End PathFacts.

(** ** Hub: the requestFile waiter *)

Module WaiterFacts.
Import Hub HubSamples.

Lemma waiterStep_complete fileKey wt ev :
  complete wt = true -> waiterStep fileKey wt ev = wt.
Proof.
  intros Cw. destruct ev; simpl; unfold onIncomingPubsubMessage, check; now rewrite Cw.
Qed.

Lemma settledRight_step fileKey wt ev :
  settledRight wt -> settledRight (waiterStep fileKey wt ev).
Proof.
  intros I. destruct (complete wt) eqn:Cw.
  { now rewrite waiterStep_complete. }
  destruct I as [T C].
  assert (resolved wt = None) as R by (apply C; exact Cw).
  assert (status wt <> Finished) as NF by (intros F; apply T in F; congruence).
  destruct ev as [msg now | now]; simpl.
  - unfold onIncomingPubsubMessage. rewrite Cw.
    destruct msg as [k | k newStatus | |]; try (split; assumption).
    destruct (fileKeysMatch k fileKey); [|split; assumption].
    destruct (stageFromStatus newStatus >? stageFromStatus (status wt)).
    + destruct newStatus; unfold settledRight; simpl; rewrite ?R; split; split; congruence.
    + destruct (status wt) eqn:S; unfold settledRight; simpl; rewrite ?R, ?S, ?Cw;
        split; split; congruence.
  - unfold check. rewrite Cw.
    destruct (deadline (status wt)) as [limit|] eqn:D; [|split; assumption].
    destruct (now - timer wt >? limit); [|split; assumption].
    unfold settledRight. simpl. split; split; congruence.
Qed.

Lemma settledRight_fold fileKey events wt :
  settledRight wt -> settledRight (fold_left (waiterStep fileKey) events wt).
Proof.
  revert wt. induction events as [|ev rest IH]; intros wt I; simpl; [exact I|].
  apply IH, settledRight_step, I.
Qed.

Lemma settledRight_waiterAfter fileKey start events :
  settledRight (waiterAfter fileKey start events).
Proof.
  apply settledRight_fold. split; split; simpl; congruence.
Qed.

(** With a node configuration, the waiter of [requestFileFromChannels]
    is [waiterAfter]; without one the promise is resolved [false] at once. *)
Lemma requestFileFromChannels_waiter fileKey start events st :
  fst (requestFileFromChannels fileKey start events st)
  = match nodeConfig st with
    | Some _ => waiterAfter fileKey start events
    | None => {| status := NoStatus; timer := start; complete := true; resolved := Some false |}
    end.
Proof. unfold requestFileFromChannels. destruct (nodeConfig st); reflexivity. Qed.




(** The two runs of the specification's scenario E6, on a 1001 ms tick. *)
Example waiter_resolves_on_finished :
  resolved (waiterAfter helloKey 0
              [Incoming (UploadFileStatus helloKey Pending) 0; CheckTick 1001;
               Incoming (UploadFileStatus helloKey Started) 2000; CheckTick 2002;
               CheckTick 3003; CheckTick 4004;
               Incoming (UploadFileStatus helloKey Finished) 5000])
    = Some true.
Proof. reflexivity. Qed.

Example waiter_gives_up_in_pending :
  resolved (waiterAfter helloKey 0
              (Incoming (UploadFileStatus helloKey Pending) 3000 ::
               map (fun n => CheckTick (1001 * Z.of_nat n)) (seq 3 30)))
    = None /\
  resolved (waiterAfter helloKey 0
              (Incoming (UploadFileStatus helloKey Pending) 3000 ::
               map (fun n => CheckTick (1001 * Z.of_nat n)) (seq 3 31)))
    = Some false.
Proof. split; reflexivity. Qed.

End WaiterFacts.

(** ** Hub: roles and permissions *)

Module ChannelFacts.
Import Hub HubSamples.

(** Publishing keeps the clients and the configuration. *)
Lemma publish_keeps_clients name pc body st :
  pubsubClients (_publishMessageToPubsubChannel name pc body st) = pubsubClients st /\
  nodeConfig (_publishMessageToPubsubChannel name pc body st) = nodeConfig st.
Proof.
  unfold _publishMessageToPubsubChannel. destruct (getPubsubClientForChannel st name); auto.
Qed.

Lemma publishTurn_published fileKey st cm :
  published (publishTurn fileKey st cm)
  = published st ++
    (if publishesFor st cm then [(channelName cm +:+ "-requestFiles", RequestFile fileKey)]
     else []).
Proof.
  unfold publishTurn, publishesFor, _publishMessageToPubsubChannel.
  destruct (authorization cm) as [au|]; [|now rewrite app_nil_r].
  destruct (requestFiles (permissions au)); simpl; [|now rewrite app_nil_r].
  destruct (getPubsubClientForChannel st (channelName cm)) eqn:G; simpl.
  - reflexivity.
  - now rewrite app_nil_r.
Qed.

Lemma publishTurn_clients fileKey st cm :
  pubsubClients (publishTurn fileKey st cm) = pubsubClients st.
Proof.
  unfold publishTurn. destruct (authorization cm) as [au|]; [|reflexivity].
  destruct (requestFiles (permissions au)); [|reflexivity]. apply publish_keeps_clients.
Qed.

Lemma publishesFor_clients st st' cm :
  pubsubClients st' = pubsubClients st -> publishesFor st' cm = publishesFor st cm.
Proof.
  intros E. unfold publishesFor, getPubsubClientForChannel. now rewrite E.
Qed.

Lemma publish_loop_published fileKey cms st :
  published (fold_left (publishTurn fileKey) cms st)
  = published st ++
    map (fun cm => (channelName cm +:+ "-requestFiles", RequestFile fileKey))
        (List.filter (publishesFor st) cms).
Proof.
  revert st. induction cms as [|cm rest IH]; intros st; simpl.
  - now rewrite app_nil_r.
  - rewrite IH, publishTurn_published.
    rewrite (List.filter_ext _ (publishesFor st))
      by (intros c; apply publishesFor_clients, publishTurn_clients).
    destruct (publishesFor st cm); simpl; [now rewrite <- app_assoc | now rewrite app_nil_r].
Qed.

Lemma published_after_request fileKey start events st :
  published (snd (requestFileFromChannels fileKey start events st))
  = published st ++
    match nodeConfig st with
    | Some config =>
        map (fun cm => (channelName cm +:+ "-requestFiles", RequestFile fileKey))
            (List.filter (publishesFor st) (memberships config))
    | None => []
    end.
Proof.
  unfold requestFileFromChannels, publishRequestFile.
  destruct (nodeConfig st) as [config|] eqn:E; cbn [snd]; [|now rewrite app_nil_r].
  apply publish_loop_published.
Qed.

(** X1. What the publishing side of [requestFileFromChannels] does: one
    [requestFile] on [<ch>-requestFiles] for every membership, in order,
    whose authorization permits [requestFiles] (and that has a pubsub
    client), whatever its roles; nothing without a node configuration. *)
Theorem requestFileFromChannels_published
    (fileKey : FileKey) (start : Z) (events : list WaiterEvent) (st : HubState) :
  published (snd (requestFileFromChannels fileKey start events st))
  = published st ++
    match nodeConfig st with
    | Some config =>
        map (fun cm => (channelName cm +:+ "-requestFiles", RequestFile fileKey))
            (List.filter (publishesFor st) (memberships config))
    | None => []
    end.
Proof. apply published_after_request. Qed.

(** C5, outgoing side, on the code: for a node whose one membership has
    an authorization that permits [requestFiles] while the role
    [requestFiles] is not set, [requestFileFromChannels] still publishes
    the [requestFile] message on [<ch>-requestFiles]; the node does not
    listen for the answers on [<ch>-provideFiles]. *)
Theorem requestFile_published_without_the_role
    (cm : NodeChannelMembership) (au : Authorization) (fileKey : FileKey)
    (start : Z) (events : list WaiterEvent) :
  authorization cm = Some au ->
  requestFiles (permissions au) = true ->
  requestFiles (roles cm) = false ->
  published (snd (requestFileFromChannels fileKey start events (hubOf cm)))
    = [(channelName cm +:+ "-requestFiles", RequestFile fileKey)] /\
  forall subscribed, getPubsubClientForChannel (hubOf cm) (channelName cm) = Some subscribed ->
    ~ In (channelName cm +:+ "-provideFiles") subscribed.
Proof.
  intros Au Perm Role.
  assert (pubsubClients (hubOf cm) = [(channelName cm, subscribeToPubsubChannels cm au)])
    as Clients.
  { unfold hubOf, _doInitialize, memberships. cbn [channelMemberships fold_left].
    rewrite Au. reflexivity. }
  assert (getPubsubClientForChannel (hubOf cm) (channelName cm)
          = Some (subscribeToPubsubChannels cm au)) as Client.
  { unfold getPubsubClientForChannel. rewrite Clients. cbn [find fst snd].
    now rewrite String.eqb_refl. }
  assert (published (hubOf cm) = []) as Pub.
  { unfold hubOf, _doInitialize, memberships. cbn [channelMemberships fold_left].
    rewrite Au. reflexivity. }
  assert (nodeConfig (hubOf cm) = Some {| channelMemberships := Some [cm] |}) as Cfg
    by reflexivity.
  split.
  - rewrite published_after_request, Pub, Cfg.
    cbn [memberships channelMemberships List.filter]. unfold publishesFor.
    rewrite Au, Perm, Client. reflexivity.
  - intros subscribed E. rewrite Client in E. inversion E; subst subscribed.
    unfold subscribeToPubsubChannels. rewrite Perm, Role. cbn [andb app].
    intros In1. repeat (apply in_app_or in In1 as [In1 | In1]);
      try (destruct (_ && _); [destruct In1 as [E1 | []] | destruct In1];
           apply String.app_inj in E1; discriminate).
Qed.

(** The theorem on the sample membership. *)
Lemma requestFile_published_without_the_role_witness :
  requestFiles (roles permittedWithoutRole) = false /\
  pubsubClients (hubOf permittedWithoutRole) = [("lab", [])] /\
  published (snd (requestFileFromChannels helloKey 0 [] (hubOf permittedWithoutRole)))
    = [("lab-requestFiles", RequestFile helloKey)].
Proof.
  split; [reflexivity|]. split; [reflexivity|].
  exact (proj1 (requestFile_published_without_the_role permittedWithoutRole
                  {| permissions := {| requestFiles := true; provideFiles := false;
                                       requestFeeds := false; provideFeeds := false |} |}
                  helloKey 0 [] eq_refl eq_refl eq_refl)).
Defined.

(** What the incoming side does with a [requestFile], in one equation. *)
Lemma requestFile_dispatch
    (channel pubsubChannel : string) (from : NodeId) (fileKey : FileKey) (st : HubState) :
  fileRequests (_handleKacheryHubPubsubMessage
                  {| in_channelName := channel; in_pubsubChannelName := pubsubChannel;
                     in_fromNodeId := from; in_message := RequestFile fileKey |} st)
  = fileRequests st ++
    (if String.eqb pubsubChannel (channel +:+ "-requestFiles")
     then match _getChannelMembership st channel with
          | Some cm =>
              match channelBucketUri cm with
              | Some uri => if JS.truthy uri then [(fileKey, channel, from)] else []
              | None => []
              end
          | None => []
          end
     else []).
Proof.
  unfold _handleKacheryHubPubsubMessage.
  cbn [in_message in_pubsubChannelName in_channelName in_fromNodeId].
  destruct (String.eqb _ _); simpl; [|now rewrite app_nil_r].
  destruct (_getChannelMembership st channel) as [cm|]; [|now rewrite app_nil_r].
  destruct (channelBucketUri cm) as [uri|]; [|now rewrite app_nil_r].
  destruct (JS.truthy uri); simpl; [reflexivity | now rewrite app_nil_r].
Qed.

Example requestFile_dispatched_without_provideFiles :
  provideFiles (roles plainMember) = false /\
  fileRequests (_handleKacheryHubPubsubMessage requestOnLab (hubOf plainMember))
    = [(helloKey, "lab", "peer")].
Proof. split; reflexivity. Qed.

End ChannelFacts.

(** ** Runs of the model on the samples *)

Module SubfeedRuns.
Import Subfeed SubfeedSamples SubfeedFacts.

(** The theorem on a chain of three messages. *)
Lemma initializeFromLocal_loads_exactly_valid_chains_witness :
  Forall wellTyped [m0; m1; m2] /\
  chainValid "feed01" [m0; m1; m2] /\
  initializeFromLocal (manager [m0; m1; m2] None)
    = (Returns tt, manager [m0; m1; m2] (Some [m0; m1; m2])).
Proof.
  assert (Forall wellTyped [m0; m1; m2]) as WT.
  { repeat (constructor; [unfold wellTyped; simpl; congruence|]). constructor. }
  pose proof (initializeFromLocal_loads_exactly_valid_chains
                (manager [m0; m1; m2] None) [m0; m1; m2] eq_refl WT) as (_ & _ & Loaded).
  split; [exact WT|]. split; [exact (proj2 (Loaded _ eq_refl)) | reflexivity].
Defined.

(** Scenario E4 of the specification: the chain of three loads; with the
    body of message 1 replaced the load throws and the manager stays
    uninitialized. *)
Example load_of_a_tampered_chain_throws :
  initializeFromLocal (manager [m0; signed "x" 1 (Some "feed01:a"); m2] None)
    = (Throws (InconsistentPreviousSignature (Some "feed01:x") (Some "feed01:b")),
       manager [m0; signed "x" 1 (Some "feed01:a"); m2] None) /\
  initializeFromLocal
      (manager [m0; {| body := body (signed "x" 1 (Some "feed01:a"));
                       signature := signature m1 |}; m2] None)
    = (Throws (UnableToVerifySignature "feed01:b"),
       manager [m0; {| body := body (signed "x" 1 (Some "feed01:a"));
                       signature := signature m1 |}; m2] None).
Proof. split; reflexivity. Qed.

End SubfeedRuns.

Module StorageRuns.
Import Storage StorageSamples StorageFacts.

(** C9 (as stated) fails: the link object records 6 bytes, the linked
    file now has 8, and the lookup still reports [found] with the linked
    path. *)
Lemma stale_link_is_still_found :
  files staleLinkDisk !! destPath storageDir helloSha1 = None /\
  readJsonFile staleLinkDisk (destPath storageDir helloSha1 +:+ ".link") = Some sampleLink /\
  linkRecordedSize sampleLink = Some 6 /\
  length <$> files staleLinkDisk !! linkPath sampleLink = Some 8%nat /\
  findFile storageDir staleLinkDisk (sha1Key helloSha1)
    = {| found := true; size := 8; localFilePath := Some "/data/hello.txt" |}.
Proof. vm_compute. repeat split. Qed.

(** The theorem on a link whose file is gone: not found. *)
Lemma findFile_through_link_ignores_recorded_size_witness :
  files danglingLinkDisk !! destPath storageDir helloSha1 = None /\
  isLinkObject sampleLink = true /\
  findFile storageDir danglingLinkDisk (sha1Key helloSha1)
    = {| found := false; size := 0; localFilePath := None |}.
Proof.
  split; [reflexivity|]. split; [reflexivity|].
  exact (findFile_through_link_ignores_recorded_size storageDir danglingLinkDisk helloSha1
           sampleLinkText sampleLink eq_refl eq_refl eq_refl eq_refl eq_refl).
Defined.

(** The theorem on a bucket that returns [abc] for the hash of [hello]. *)
Lemma storeFileFromBucketUrl_rejects_wrong_hash_witness :
  sha1Hex (concat [text "ab"; text "c"]) <> helloSha1 /\
  ds_terminal (dl_ret (fst (storeFileFromBucketUrl storageDir helloSha1 3
                              [HttpData (text "ab"); HttpData (text "c"); HttpEnd]
                              "AbCdEfGhIj" chunkDisk)))
    = Some (Errored (UnexpectedSha1OfDownloadedFile abcSha1 helloSha1)) /\
  files (snd (storeFileFromBucketUrl storageDir helloSha1 3
                [HttpData (text "ab"); HttpData (text "c"); HttpEnd]
                "AbCdEfGhIj" chunkDisk))
    = files chunkDisk /\
  fileStored (snd (storeFileFromBucketUrl storageDir helloSha1 3
                     [HttpData (text "ab"); HttpData (text "c"); HttpEnd]
                     "AbCdEfGhIj" chunkDisk))
    = [].
Proof.
  assert (sha1Hex (concat [text "ab"; text "c"]) <> helloSha1) as Ne by (vm_compute; discriminate).
  pose proof (storeFileFromBucketUrl_rejects_wrong_hash storageDir chunkDisk helloSha1 3
                [text "ab"; text "c"] "AbCdEfGhIj" Ne) as (T & _ & F & _ & L).
  split; [exact Ne|]. split; [exact T|]. split; [|exact L].
  etransitivity; [exact F|]. vm_compute. reflexivity.
Defined.

(** The same download when the bucket returns what was asked for. *)
Example storeFileFromBucketUrl_installs_right_hash :
  ds_terminal (dl_ret (fst (storeFileFromBucketUrl storageDir abcSha1 3
                              [HttpData (text "ab"); HttpData (text "c"); HttpEnd]
                              "AbCdEfGhIj" emptyDisk)))
    = Some Ended /\
  files (snd (storeFileFromBucketUrl storageDir abcSha1 3
                [HttpData (text "ab"); HttpData (text "c"); HttpEnd]
                "AbCdEfGhIj" emptyDisk))
    = files chunkDisk /\
  fileStored (snd (storeFileFromBucketUrl storageDir abcSha1 3
                     [HttpData (text "ab"); HttpData (text "c"); HttpEnd]
                     "AbCdEfGhIj" emptyDisk))
    = [abcSha1].
Proof. vm_compute. repeat split. Qed.

(** The theorem on the chunk [abc] taken twice for the hash of [hello]:
    the call throws and the temporary file holds the six bytes. *)
Lemma concatenate_mismatch_leaves_temporary_file_witness :
  fst (concatenateChunksAndStoreResult storageDir helloSha1 [abcSha1; abcSha1]
         "AbCdEfGhIj" chunkDisk)
    = Throws UnexpectedSha1OfConcatenatedFile /\
  files (snd (concatenateChunksAndStoreResult storageDir helloSha1 [abcSha1; abcSha1]
                "AbCdEfGhIj" chunkDisk))
    !! "/kachery/tmp/kachery-daemon-concat--AbCdEfGhIj" = Some (text "abcabc") /\
  is_Some (files (snd (concatenateChunksAndStoreResult storageDir helloSha1 [abcSha1; abcSha1]
                         "AbCdEfGhIj" chunkDisk))
           !! createTemporaryFilePath storageDir "kachery-daemon-concat-" "AbCdEfGhIj").
Proof.
  assert (fst (concatenateChunksAndStoreResult storageDir helloSha1 [abcSha1; abcSha1]
                 "AbCdEfGhIj" chunkDisk)
          = Throws UnexpectedSha1OfConcatenatedFile) as Thrown by (vm_compute; reflexivity).
  split; [exact Thrown|]. split; [vm_compute; reflexivity|].
  exact (proj1 (concatenate_mismatch_leaves_temporary_file storageDir chunkDisk helloSha1
                  [abcSha1; abcSha1] "AbCdEfGhIj" Thrown)).
Defined.

(** Scenario E1 of the specification: six bytes, one chunk, no manifest. *)
Example storeFileFromStream_small_file :
  settled (fst (storeFileFromStream storageDir
                  [DsData (text "hello"); DsData (text newline); DsFinished] 6 false
                  "AbCdEfGhIj" "KlMnO" emptyDisk))
    = Some (Returns {| result_sha1 := helloSha1; result_manifestSha1 := None |}) /\
  files (snd (storeFileFromStream storageDir
                [DsData (text "hello"); DsData (text newline); DsFinished] 6 false
                "AbCdEfGhIj" "KlMnO" emptyDisk))
    = <[destPath storageDir helloSha1 := text ("hello" +:+ newline)]> ∅ /\
  destPath storageDir helloSha1
    = "/kachery/sha1/f5/72/d3/f572d396fae9206628714fb2ce00f72e94f2258f".
Proof. vm_compute. repeat split. Qed.

(** The builder on twelve bytes with chunks of four, fed in uneven
    buffers: three full chunks; on ten bytes: two and a rest. *)
Example buildManifest_small_chunks :
  map (fun c => (chunk_start c, chunk_end c))
      (manifestChunks (buildManifest 4 [text "hello"; text " wor"; text "ld"; text "!"]))
    = [(0, 4); (4, 8); (8, 12)] /\
  map (fun c => (chunk_start c, chunk_end c))
      (manifestChunks (buildManifest 4 [text "hello wor"; text "l"]))
    = [(0, 4); (4, 8); (8, 10)].
Proof. vm_compute. split; reflexivity. Qed.

End StorageRuns.

(** ** Storage: what the manifest says of the bytes *)

Module ManifestFacts.
Import Storage StorageFacts Manifests.

Lemma slice_app_l (d e : Buffer) (a b : Z) :
  0 <= a -> b <= Z.of_nat (length d) -> slice (d ++ e) a b = slice d a b.
Proof.
  intros Ha Hb. unfold slice.
  destruct (Z_le_gt_dec b a) as [Le | Gt].
  - replace (Z.to_nat (b - a)) with 0%nat by lia. reflexivity.
  - rewrite drop_app_le by lia. rewrite take_app_le; [reflexivity|].
    rewrite length_drop. lia.
Qed.

Lemma slice_drop (d : Buffer) (n a b : Z) :
  0 <= n -> 0 <= a -> slice (skipn (Z.to_nat n) d) a b = slice d (n + a) (n + b).
Proof.
  intros Hn Ha. unfold slice. rewrite drop_drop.
  replace (n + b - (n + a)) with (b - a) by lia.
  replace (Z.to_nat n + Z.to_nat a)%nat with (Z.to_nat (n + a)) by lia. reflexivity.
Qed.

Lemma slice_to_end (d : Buffer) (a b : Z) :
  0 <= a -> Z.of_nat (length d) <= b -> slice d a b = skipn (Z.to_nat a) d.
Proof.
  intros Ha Hb. unfold slice. apply take_ge. rewrite length_drop. lia.
Qed.

Lemma ceil_div (cs n q : Z) :
  0 < cs -> (q - 1) * cs < n <= q * cs -> (n + cs - 1) / cs = q.
Proof.
  intros Pos [Lo Hi]. symmetry. apply (Z.div_unique _ _ _ (n + cs - 1 - cs * q)); lia.
Qed.

Section Builder.
Context `{Runtime}.
Variable cs : Z.
Hypothesis cs_pos : 0 < cs.

Lemma full_chunks_ext (d d' : Buffer) (q : nat) :
  (forall a b, 0 <= a -> b <= Z.of_nat q * cs -> slice d' a b = slice d a b) ->
  map (fun k : nat => chunkOfInput d' (Z.of_nat k * cs) ((Z.of_nat k + 1) * cs)) (seq 0 q)
  = map (fun k : nat => chunkOfInput d (Z.of_nat k * cs) ((Z.of_nat k + 1) * cs)) (seq 0 q).
Proof.
  intros Same. apply map_ext_in. intros k Hk. apply in_seq in Hk.
  unfold chunkOfInput. rewrite Same; [reflexivity | lia | nia].
Qed.

(** The loop of a non-final update over the kept bytes [d], which are
    the bytes of [D] from [B0] on, once the slices before index [i] were
    emitted. *)
Lemma sliceLoop_fed fuel (D d : Buffer) (B0 i : Z) (q : nat) b :
  0 <= B0 -> 0 <= i <= Z.of_nat (length d) ->
  d = skipn (Z.to_nat B0) D ->
  B0 <= Z.of_nat (length D) ->
  Z.of_nat (length d) - i <= Z.of_nat fuel ->
  manifestChunks b
  = map (fun k : nat => chunkOfInput D (Z.of_nat k * cs) ((Z.of_nat k + 1) * cs)) (seq 0 q) ->
  byte1 (manifestData b) = Z.of_nat q * cs ->
  byte1 (manifestData b) = B0 + i ->
  byte2 (manifestData b) = Z.of_nat (length D) ->
  buffers (manifestData b) = [] ->
  let b' := sliceLoop fuel cs false d i b in
  fedWith cs D b' /\ byte2 (manifestData b') - byte1 (manifestData b') < cs.
Proof.
  intros HB0. revert i q b.
  induction fuel as [|fuel IH]; intros i q b Hi Hd HB Hf Ch B1 B1i B2 K b'; subst b'.
  - assert (Z.of_nat (length d) = Z.of_nat (length D) - B0) as Ld
      by (subst d; rewrite length_drop; lia).
    simpl. split; [|lia]. exists q. rewrite K. cbn [concat].
    repeat split; try assumption; try lia.
    symmetry. apply drop_ge. lia.
  - assert (Z.of_nat (length d) = Z.of_nat (length D) - B0) as Ld
      by (subst d; rewrite length_drop; lia).
    simpl. destruct (i <? Z.of_nat (length d)) eqn:E.
    2:{ apply Z.ltb_ge in E. split; [|lia]. exists q. rewrite K. cbn [concat].
        repeat split; try assumption; try lia. symmetry. apply drop_ge. lia. }
    apply Z.ltb_lt in E.
    set (m := Z.min cs (Z.of_nat (length d) - i)).
    assert (Z.of_nat (length (slice d i (i + m))) = m) as Lx by (apply slice_length; lia).
    unfold emitOrKeep. rewrite Lx, orb_false_r.
    destruct (m =? cs) eqn:Full.
    + apply Z.eqb_eq in Full.
      match goal with |- context [sliceLoop fuel cs false d (i + cs) ?B1] => set (b1 := B1) end.
      destruct (IH (i + cs) (S q) b1) as (F1 & S1); try assumption; try lia.
      * subst b1. cbn [manifestChunks]. rewrite Ch, seq_S, map_app. cbn [map Nat.add].
        f_equal. f_equal. unfold chunkOfInput, computeSha1OfBufferSync. rewrite B1.
        f_equal; [lia|]. f_equal. rewrite Full. subst d. rewrite slice_drop by lia.
        f_equal; lia.
      * subst b1. cbn [manifestData byte1]. lia.
      * subst b1. cbn [manifestData byte1]. lia.
      * split; assumption.
    + apply Z.eqb_neq in Full.
      rewrite sliceLoop_done by lia.
      cbn [manifestData manifestChunks byte1 byte2 buffers].
      split; [|lia]. exists q. cbn [manifestData manifestChunks byte1 byte2 buffers].
      rewrite K. cbn [app concat]. rewrite app_nil_r.
      repeat split; try assumption; try lia.
      rewrite slice_to_end by lia. subst d. rewrite drop_drop. f_equal. lia.
Qed.

Lemma update_fed (D : Buffer) b :
  fedWith cs D b ->
  let b' := _updateManifestChunks cs false b in
  fedWith cs D b' /\ byte2 (manifestData b') - byte1 (manifestData b') < cs.
Proof.
  intros F b'. subst b'. pose proof F as (q & Ch & B1 & B2 & K & Le).
  unfold _updateManifestChunks. rewrite andb_false_l, orb_false_r.
  destruct (byte2 (manifestData b) - byte1 (manifestData b) >=? cs) eqn:G.
  - rewrite Z.geb_leb in G. apply Z.leb_le in G. rewrite K.
    match goal with |- context [sliceLoop ?f cs false ?d 0 ?B0] =>
      apply (sliceLoop_fed f D d (byte1 (manifestData b)) 0 q B0)
    end; cbn [manifestData manifestChunks byte1 byte2 buffers]; try assumption;
      try reflexivity; try lia.
  - rewrite Z.geb_leb in G. apply Z.leb_gt in G. split; [exact F | exact G].
Qed.

Lemma feed_fed (D : Buffer) b buf :
  fedWith cs D b ->
  fedWith cs (D ++ buf) (feed cs b buf) /\
  byte2 (manifestData (feed cs b buf)) - byte1 (manifestData (feed cs b buf)) < cs.
Proof.
  intros (q & Ch & B1 & B2 & K & Le). unfold feed. apply update_fed.
  exists q. cbn [manifestData manifestChunks byte1 byte2 buffers].
  split; [|split; [exact B1|split; [|split]]].
  - rewrite Ch. symmetry. apply full_chunks_ext. intros a c Ha Hc. apply slice_app_l; lia.
  - rewrite length_app. lia.
  - rewrite concat_app. cbn [concat]. rewrite app_nil_r, K. symmetry. apply drop_app_le. lia.
  - lia.
Qed.

Lemma fold_feed_fed bufs (D : Buffer) b :
  fedWith cs D b ->
  byte2 (manifestData b) - byte1 (manifestData b) < cs ->
  let b' := fold_left (feed cs) bufs b in
  fedWith cs (D ++ concat bufs) b' /\
  byte2 (manifestData b') - byte1 (manifestData b') < cs.
Proof.
  revert D b. induction bufs as [|buf rest IH]; intros D b F Short b'; subst b'; simpl.
  - rewrite app_nil_r. split; assumption.
  - destruct (feed_fed D b buf F) as (F1 & S1).
    rewrite app_assoc. apply IH; assumption.
Qed.

(** The final update completes the chunk list of the file. *)
Lemma final_expected (D : Buffer) b :
  fedWith cs D b ->
  byte2 (manifestData b) - byte1 (manifestData b) < cs ->
  manifestChunks (_updateManifestChunks cs true b) = expectedChunks cs D /\
  byte2 (manifestData (_updateManifestChunks cs true b)) = Z.of_nat (length D).
Proof.
  intros (q & Ch & B1 & B2 & K & Le) Short. unfold _updateManifestChunks.
  destruct (byte2 (manifestData b) - byte1 (manifestData b) >=? cs) eqn:G.
  { rewrite Z.geb_leb in G. apply Z.leb_le in G. lia. }
  cbn [orb andb]. unfold expectedChunks, chunkCount.
  destruct (byte2 (manifestData b) >? byte1 (manifestData b)) eqn:P.
  - apply Z.gtb_lt in P.
    rewrite (ceil_div cs (Z.of_nat (length D)) (Z.of_nat (S q))) by (try assumption; nia).
    rewrite Nat2Z.id, seq_S, map_app. cbn [map Nat.add].
    set (d := concat (buffers (manifestData b))) in *.
    assert (Z.of_nat (length d) = Z.of_nat (length D) - byte1 (manifestData b)) as Ld
      by (rewrite K, length_drop; lia).
    destruct (length d) as [|n] eqn:Ln; [lia|]. cbn [sliceLoop]. rewrite Ln.
    destruct (0 <? Z.of_nat (S n)) eqn:E; [|apply Z.ltb_ge in E; lia].
    rewrite sliceLoop_done by (rewrite Ln; lia).
    assert (slice d 0 (0 + Z.min cs (Z.of_nat (S n) - 0)) = d) as Sx.
    { rewrite slice_to_end by (rewrite ?Ln; lia). reflexivity. }
    unfold emitOrKeep. rewrite Sx, Ln, orb_true_r.
    cbn [manifestData manifestChunks byte1 byte2 buffers]. split; [|exact B2].
    rewrite Ch. f_equal.
    + apply map_ext_in. intros k Hk. apply in_seq in Hk. f_equal. nia.
    + f_equal. unfold chunkOfInput, computeSha1OfBufferSync.
      replace (Z.min ((Z.of_nat q + 1) * cs) (Z.of_nat (length D))) with (Z.of_nat (length D))
        by nia.
      f_equal; [lia | lia |]. f_equal.
      rewrite slice_to_end by lia. rewrite K. f_equal. lia.
  - rewrite Z.gtb_ltb in P. apply Z.ltb_ge in P.
    rewrite (ceil_div cs (Z.of_nat (length D)) (Z.of_nat q)) by (try assumption; nia).
    rewrite Nat2Z.id. split; [|exact B2]. rewrite Ch.
    apply map_ext_in. intros k Hk. apply in_seq in Hk. f_equal. nia.
Qed.

Lemma buildManifest_expected bufs :
  manifestChunks (buildManifest cs bufs) = expectedChunks cs (concat bufs) /\
  byte2 (manifestData (buildManifest cs bufs)) = Z.of_nat (length (concat bufs)).
Proof.
  unfold buildManifest.
  assert (fedWith cs [] emptyBuilder) as F0.
  { exists 0%nat. cbn. repeat split; lia. }
  destruct (fold_feed_fed bufs [] emptyBuilder F0) as (F & S); [cbn; lia|].
  cbn [app] in F. apply final_expected; assumption.
Qed.


Lemma lookup_map {A B : Type} (f : A -> B) (l : list A) (i : nat) :
  map f l !! i = f <$> l !! i.
Proof.
  revert i. induction l as [|a l IH]; intros i; [destruct i; reflexivity|].
  destruct i as [|i]; [reflexivity | apply IH].
Qed.

Lemma expectedChunks_lookup (d : Buffer) (i : nat) c :
  expectedChunks cs d !! i = Some c ->
  (i < chunkCount cs (Z.of_nat (length d)))%nat /\
  c = chunkOfInput d (Z.of_nat i * cs) (Z.min ((Z.of_nat i + 1) * cs) (Z.of_nat (length d))).
Proof.
  unfold expectedChunks. rewrite lookup_map. intros E.
  destruct (seq 0 (chunkCount cs (Z.of_nat (length d))) !! i) as [k|] eqn:K; [|discriminate].
  apply lookup_seq in K as [-> Lt]. cbn [fmap option_fmap option_map] in E.
  inversion E. split; [exact Lt | reflexivity].
Qed.

(** Every chunk of the list has bytes: it starts before the end of the
    file. *)
Lemma chunkCount_bound (n : Z) (i : nat) :
  0 <= n -> (i < chunkCount cs n)%nat -> Z.of_nat i * cs < n.
Proof.
  unfold chunkCount. intros Hn Lt.
  destruct (Z_lt_le_dec (Z.of_nat i * cs) n) as [Ok | Bad]; [exact Ok|].
  exfalso. assert ((n + cs - 1) / cs < Z.of_nat i + 1) as Le
    by (apply Z.div_lt_upper_bound; [lia | nia]).
  revert Lt Le. generalize ((n + cs - 1) / cs). intros x Lt Le. lia.
Qed.

End Builder.

Section Stream.
Context `{Runtime}.

(** X3. The chunk list built for a stream is a function of its bytes:
    there are as many chunks as the size divided by 20,000,000, rounded
    up; chunk [i] runs from byte [i * 20,000,000] to the next multiple or
    to the end of the file, and carries the SHA-1 of exactly these bytes;
    and a stream that delivers the same bytes cut into other buffers
    builds the same list. *)
Theorem manifest_chunks_hash_their_bytes (bufs : list Buffer) :
  let d := concat bufs in
  let chunks := manifestChunks (buildManifest chunkSize bufs) in
  Z.of_nat (length chunks) = (Z.of_nat (length d) + 19999999) / 20000000 /\
  (forall (i : nat) c, chunks !! i = Some c ->
     chunk_start c = Z.of_nat i * 20000000 /\
     chunk_end c = Z.min ((Z.of_nat i + 1) * 20000000) (Z.of_nat (length d)) /\
     chunk_start c < chunk_end c /\
     chunk_sha1 c = sha1Hex (slice d (chunk_start c) (chunk_end c))) /\
  chunks = manifestChunks (buildManifest chunkSize [d]).
Proof.
  intros d chunks. subst chunks.
  destruct (buildManifest_expected chunkSize chunkSize_pos bufs) as [Ch _].
  destruct (buildManifest_expected chunkSize chunkSize_pos [d]) as [Ch1 _].
  cbn [concat] in Ch1. rewrite app_nil_r in Ch1. fold d in Ch. rewrite Ch, Ch1.
  split; [|split; [|reflexivity]].
  - unfold expectedChunks, chunkCount, chunkSize. rewrite length_map, length_seq.
    rewrite Z2Nat.id by (apply Z.div_pos; lia). f_equal; lia.
  - intros i c Hc. apply (expectedChunks_lookup chunkSize) in Hc as [Lt ->].
    pose proof (chunkCount_bound chunkSize chunkSize_pos (Z.of_nat (length d)) i
                  ltac:(lia) Lt) as Bd.
    unfold chunkSize in *. cbn [chunkOfInput chunk_start chunk_end chunk_sha1].
    repeat split; lia.
Qed.

End Stream.
End ManifestFacts.

(** ** Storage: ingest, end to end *)

Lemma length_append (a b : string) :
  String.length (a +:+ b) = (String.length a + String.length b)%nat.
Proof. induction a as [|c a IH]; [reflexivity|]. rewrite append_cons. simpl. now rewrite IH. Qed.

Lemma index_length (s : string) (i : nat) :
  (i < String.length s)%nat -> String.length (JS.index s i) = 1%nat.
Proof.
  revert i. induction s as [|c s IH]; intros i Hi; simpl in Hi; [lia|].
  destruct i as [|i]; [reflexivity|]. unfold JS.index in *. simpl. apply IH. lia.
Qed.

Lemma truthy_of_length (s : string) : String.length s = 40%nat -> JS.truthy s = true.
Proof. destruct s; [discriminate | reflexivity]. Qed.

Module IngestFacts.
Import Storage StorageAccess StorageFacts Manifests ManifestFacts.

Section Disk.
Context `{Runtime}.
Variable storageDir : LocalFilePath.

Lemma existsSync_false w p : existsSync w p = false -> files w !! p = None.
Proof.
  unfold existsSync. intros E. apply bool_decide_eq_false in E.
  destruct (files w !! p); [exfalso; eauto | reflexivity].
Qed.

Lemma destPath_length s :
  String.length s = 40%nat ->
  String.length (destPath storageDir s) = (String.length storageDir + 55)%nat.
Proof.
  intros L. unfold destPath, destParentPath.
  rewrite !length_append, !index_length; try lia. rewrite L. simpl. lia.
Qed.

(** The temporary file [storeFile] writes for one hash is no content
    path of another. *)
Lemma storeFileTmp_not_destPath ms rnd s :
  String.length ms = 40%nat -> String.length s = 40%nat ->
  destPath storageDir ms +:+ "." +:+ rnd +:+ ".tmp" <> destPath storageDir s.
Proof.
  intros Lm Ls E. apply (f_equal String.length) in E.
  rewrite !length_append, !destPath_length in E by assumption. simpl in E. lia.
Qed.

Lemma storeFile_result w s data rnd :
  storeFile storageDir s data rnd w
  = (Returns tt,
     if existsSync w (destPath storageDir s) then w
     else {| files := <[destPath storageDir s := data]>
                        (delete (destPath storageDir s +:+ "." +:+ rnd +:+ ".tmp") (files w));
             fileStored := fileStored w ++ [s] |}).
Proof.
  destruct (existsSync w (destPath storageDir s)) eqn:E.
  - unfold storeFile. exec_unfold. now rewrite E.
  - apply storeFile_fresh, existsSync_false, E.
Qed.

(** X4. The first write under a hash wins: once [storeFile] has
    returned, a second [storeFile] for the same hash, whatever bytes it is
    given, returns without changing the disk and without telling the
    observers; the content path holds what it held before the first call,
    or the bytes of the first call when it was free. *)
Theorem storeFile_first_write_wins (w : World) (s : Sha1Hash) (d1 d2 : Buffer) (r1 r2 : string) :
  let w1 := snd (storeFile storageDir s d1 r1 w) in
  storeFile storageDir s d2 r2 w1 = (Returns tt, w1) /\
  files w1 !! destPath storageDir s = Some (default d1 (files w !! destPath storageDir s)).
Proof.
  intros w1. subst w1. rewrite (storeFile_result w s d1 r1). cbn [snd].
  destruct (existsSync w (destPath storageDir s)) eqn:E.
  - split.
    + rewrite storeFile_result, E. reflexivity.
    + unfold existsSync in E. apply bool_decide_eq_true in E. destruct E as [old E].
      rewrite E. reflexivity.
  - rewrite (existsSync_false _ _ E). cbn [default]. split; [|apply lookup_insert_eq].
    rewrite storeFile_result.
    rewrite (existsSync_Some _ _ d1) by (cbn [files]; apply lookup_insert_eq). reflexivity.
Qed.

Lemma cleanup_world p w :
  snd (_cleanup p w) = {| files := delete p (files w); fileStored := fileStored w |}.
Proof.
  destruct (cleanup_files p w) as [F L]. destruct (snd (_cleanup p w)) as [f l].
  cbn [files fileStored] in F, L. now subst.
Qed.

(** Once [complete] is set, the handlers do nothing. *)
Lemma handle_complete tmp fileSize rnd5 events st w :
  complete st = true ->
  fold_left (handle storageDir tmp fileSize rnd5) events (st, w) = (st, w).
Proof.
  intros C. induction events as [|ev rest IH]; [reflexivity|]. cbn [fold_left].
  replace (handle storageDir tmp fileSize rnd5 (st, w) ev) with (st, w); [exact IH|].
  destruct ev; cbn [handle fst snd]; unfold onData, onError, onFinished; now rewrite C.
Qed.

(** The locals and the disk when the data of a stream has come in. *)
Lemma stream_data bufs fileSize hashOnly rnd10 rnd5 w :
  let tmp := storageDir +:+ "/store.file." +:+ rnd10 +:+ ".tmp" in
  let tmpDestPath := if negb hashOnly then Some tmp else None in
  let r := fold_left (handle storageDir tmpDestPath fileSize rnd5) (map DsData bufs)
             ({| shasum := []; builder := emptyBuilder; complete := false; settled := None |},
              match tmpDestPath with Some p => snd (createWriteStream p w) | None => w end) in
  complete (fst r) = false /\
  shasum (fst r) = concat bufs /\
  builder (fst r) = fold_left (feed chunkSize) bufs emptyBuilder /\
  settled (fst r) = None /\
  fileStored (snd r) = fileStored w /\
  files (snd r) = if hashOnly then files w else <[tmp := concat bufs]> (files w).
Proof.
  intros tmp tmpDestPath r. subst r.
  match goal with |- context [fold_left _ _ (?st0, ?w0)] =>
    destruct (ingest_data storageDir tmpDestPath fileSize rnd5 bufs st0 w0 eq_refl)
      as (C & S & B & St & Fs & Fl)
  end.
  cbn [shasum builder settled app] in S, B, St.
  split; [exact C|]. split; [exact S|]. split; [exact B|]. split; [exact St|].
  rewrite Fs, Fl. subst tmpDestPath. destruct hashOnly; cbn [negb]; [split; reflexivity|].
  unfold createWriteStream, writeFile. exec_unfold. cbn [snd set_files files fileStored].
  split; [reflexivity|]. now rewrite alter_insert_eq.
Qed.

(** What [nextStep] does, all of it. *)
Lemma nextStep_run tmpDestPath sha rnd5 st w :
  let b := _updateManifestChunks chunkSize true (builder st) in
  let json := JSON_stringify_manifest
                {| manifest_size := byte2 (manifestData b); manifest_sha1 := sha;
                   manifest_chunks := manifestChunks b |} in
  let w2 := {| files := match tmpDestPath with
                        | Some p => delete p (files w)
                        | None => files w
                        end;
               fileStored := fileStored w ++ [sha] |} in
  nextStep storageDir tmpDestPath sha rnd5 st w
  = ({| shasum := shasum st; builder := b; complete := true;
        settled := Some (Returns {| result_sha1 := sha;
                                    result_manifestSha1 :=
                                      if (1 <? length (manifestChunks b))%nat
                                      then Some (sha1Hex json) else None |}) |},
     if (1 <? length (manifestChunks b))%nat
     then snd (storeFile storageDir (sha1Hex json) json rnd5 w2) else w2).
Proof.
  intros b json w2. unfold nextStep. fold b. fold json.
  assert (snd (_reportFileStored sha (snd (cleanupTmp tmpDestPath w))) = w2) as W2.
  { subst w2. destruct tmpDestPath as [p|]; cbn [cleanupTmp].
    - rewrite cleanup_world. reflexivity.
    - destruct w; reflexivity. }
  rewrite W2. unfold computeSha1OfBufferSync.
  destruct (1 <? length (manifestChunks b))%nat; reflexivity.
Qed.


(** The manifest store at the end of [nextStep] keeps what is in the
    store and leaves no temporary file of the ingest behind. *)
Lemma manifest_store_keeps (w2 : World) (ms : Sha1Hash) (json : Buffer) (rnd5 : string) (c : bool) :
  String.length ms = 40%nat ->
  let w' := if c then snd (storeFile storageDir ms json rnd5 w2) else w2 in
  (forall s x, String.length s = 40%nat ->
     files w2 !! destPath storageDir s = Some x -> files w' !! destPath storageDir s = Some x) /\
  (forall rnd10, files w2 !! (storageDir +:+ "/store.file." +:+ rnd10 +:+ ".tmp") = None ->
     files w' !! (storageDir +:+ "/store.file." +:+ rnd10 +:+ ".tmp") = None) /\
  (c = true -> is_Some (files w' !! destPath storageDir ms)) /\
  (c = false -> w' = w2) /\
  exists rest, fileStored w' = fileStored w2 ++ rest.
Proof.
  intros Lm w'. subst w'. destruct c.
  2:{ repeat split; try tauto; try discriminate. exists []. now rewrite app_nil_r. }
  rewrite storeFile_result. cbn [snd].
  destruct (existsSync w2 (destPath storageDir ms)) eqn:E.
  - split; [tauto|]. split; [tauto|]. split.
    + intros _. unfold existsSync in E. now apply bool_decide_eq_true in E.
    + split; [discriminate|]. exists []. now rewrite app_nil_r.
  - apply existsSync_false in E. cbn [files fileStored]. split; [|split; [|split; [|split]]].
    + intros s x Ls Hs.
      rewrite lookup_insert_ne by congruence.
      rewrite lookup_delete_ne by (apply storeFileTmp_not_destPath; assumption). exact Hs.
    + intros rnd10 Ht.
      rewrite lookup_insert_ne by (apply not_eq_sym, storeTmp_not_destPath).
      apply lookup_delete_None. now right.
    + intros _. rewrite lookup_insert_eq. eauto.
    + discriminate.
    + eexists. reflexivity.
Qed.

(** A read stream is created for a range that starts at 0 or later and
    holds a byte at least. *)
Lemma createReadStreamForFile_ok path offset size :
  0 <= offset -> 0 < size ->
  createReadStreamForFile path offset size
  = Returns {| rs_path := path; rs_start := offset; rs_end := offset + size - 1 |}.
Proof.
  intros O S. unfold createReadStreamForFile. cbv zeta.
  destruct (offset <? 0) eqn:E0; [apply Z.ltb_lt in E0; lia|].
  destruct (offset + size - 1 <? 0) eqn:E1; [apply Z.ltb_lt in E1; lia|].
  destruct (offset + size - 1 <? offset) eqn:E2; [apply Z.ltb_lt in E2; lia|].
  reflexivity.
Qed.

(** No read stream is created for a range without a byte. *)
Lemma createReadStreamForFile_empty path offset size :
  size <= 0 ->
  createReadStreamForFile path offset size = Throws (StreamFailed "ERR_OUT_OF_RANGE").
Proof.
  intros S. unfold createReadStreamForFile. cbv zeta.
  destruct (offset <? 0) eqn:E0; [reflexivity|].
  destruct (offset + size - 1 <? 0) eqn:E1; [reflexivity|].
  destruct (offset + size - 1 <? offset) eqn:E2; [reflexivity|].
  apply Z.ltb_ge in E2. lia.
Qed.

(** A read of a whole content file gives back its bytes. *)
Lemma getFileDataStreamy_direct w s (data : Buffer) :
  JS.truthy s = true ->
  files w !! destPath storageDir s = Some data ->
  data <> [] ->
  getFileDataStreamy storageDir w (sha1Key s) None None = Returns data.
Proof.
  intros T E Ne.
  assert (0 < Z.of_nat (length data)) as Pos by (destruct data; [congruence | simpl; lia]).
  unfold getFileDataStreamy, getFileReadStream, _getLocalFileInfo, _getLocalFileInfo1, statSync.
  exec_unfold. cbn [fk_sha1 sha1Key]. cbv zeta. rewrite T, E. cbv beta iota.
  cbn [pathTruthy]. rewrite !destPath_truthy. cbv beta iota.
  rewrite createReadStreamForFile_ok by lia.
  unfold readStreamData. cbn [rs_path rs_start rs_end]. rewrite E.
  f_equal. unfold slice. cbn [Z.to_nat drop]. apply take_ge. lia.
Qed.

(** X5. A stream stored under a free content path, with the size it was
    declared with: the bytes are installed under their hash, the
    temporary file is gone, the lookup finds them, a read gives them back,
    the observers are told, and the manifest of a file of several chunks
    is in the store as well. *)
Theorem storeFileFromStream_round_trip
    (bufs : list Buffer) (rnd10 rnd5 : string) (w : World) :
  (forall b, String.length (sha1Hex b) = 40%nat) ->
  let d := concat bufs in
  let sha := sha1Hex d in
  files w !! destPath storageDir sha = None ->
  let r := storeFileFromStream storageDir (map DsData bufs ++ [DsFinished])
             (Z.of_nat (length d)) false rnd10 rnd5 w in
  (exists res, settled (fst r) = Some (Returns res) /\ result_sha1 res = sha /\
     forall ms, result_manifestSha1 res = Some ms ->
       found (findFile storageDir (snd r) (sha1Key ms)) = true) /\
  files (snd r) !! destPath storageDir sha = Some d /\
  files (snd r) !! (storageDir +:+ "/store.file." +:+ rnd10 +:+ ".tmp") = None /\
  findFile storageDir (snd r) (sha1Key sha)
    = {| found := true; size := Z.of_nat (length d);
         localFilePath := Some (destPath storageDir sha) |} /\
  (d <> [] -> getFileDataStreamy storageDir (snd r) (sha1Key sha) None None = Returns d) /\
  exists rest, fileStored (snd r) = fileStored w ++ sha :: rest.
Proof.
  intros H40 d sha Free r. subst r. unfold storeFileFromStream. cbn [negb].
  rewrite fold_left_app.
  set (tmp := storageDir +:+ "/store.file." +:+ rnd10 +:+ ".tmp").
  pose proof (stream_data bufs (Z.of_nat (length d)) false rnd10 rnd5 w) as SD.
  cbv zeta in SD. cbn [negb] in SD. fold tmp in SD. destruct SD as (C & S & B & St & Fs & Fl).
  destruct (fold_left _ (map DsData bufs) _) as [st1 w1].
  cbn [fst snd] in C, S, B, St, Fs, Fl.
  cbn [fold_left handle fst snd]. unfold onFinished. rewrite C, S. fold d. fold sha.
  assert (tmp <> destPath storageDir sha) as Ne by apply storeTmp_not_destPath.
  assert (files w1 !! destPath storageDir sha = None) as Free1
    by (rewrite Fl, lookup_insert_ne by exact Ne; exact Free).
  rewrite (existsSync_None _ _ Free1).
  rewrite (renameAndCheck_moves w1 tmp _ d) by (rewrite Fl; apply lookup_insert_eq).
  rewrite nextStep_run. cbn [fst snd settled builder].
  set (b := _updateManifestChunks chunkSize true (builder st1)).
  set (json := JSON_stringify_manifest _).
  set (w2 := {| files := _; fileStored := _ |}).
  assert (files w2 !! destPath storageDir sha = Some d) as In2.
  { subst w2. cbn [files set_files]. rewrite lookup_delete_ne by exact Ne. apply lookup_insert_eq. }
  assert (files w2 !! tmp = None) as Out2 by (subst w2; cbn [files]; apply lookup_delete_eq).
  assert (fileStored w2 = fileStored w ++ [sha]) as St2
    by (subst w2; cbn [fileStored set_files]; now rewrite Fs).
  destruct (manifest_store_keeps w2 (sha1Hex json) json rnd5 (1 <? length (manifestChunks b))%nat
              (H40 json)) as (K1 & K2 & K3 & K4 & rest & K5).
  set (w' := if (1 <? length (manifestChunks b))%nat then _ else w2) in *.
  pose proof (K1 sha d (H40 d) In2) as In'.
  split; [|split; [exact In'|split; [exact (K2 rnd10 Out2)|split; [|split]]]].
  - eexists. split; [reflexivity|]. split; [reflexivity|]. cbn [result_manifestSha1].
    intros ms Hms. destruct (1 <? length (manifestChunks b))%nat; [|discriminate].
    inversion Hms; subst ms. destruct (K3 eq_refl) as [x Hx].
    rewrite (findFile_direct storageDir w' _ x); [reflexivity | apply truthy_of_length, H40 | exact Hx].
  - apply findFile_direct; [apply truthy_of_length, H40 | exact In'].
  - intros NE. apply getFileDataStreamy_direct; [apply truthy_of_length, H40 | exact In' | exact NE].
  - exists rest. rewrite K5, St2, <- app_assoc. reflexivity.
Qed.


(** X6. A stream whose hash is already in the store: the content file
    there is kept as it is, whatever it holds and whatever size was
    declared; the call still resolves and the observers are told again. *)
Theorem storeFileFromStream_keeps_existing_content
    (bufs : list Buffer) (fileSize : Z) (rnd10 rnd5 : string) (w : World) (old : Buffer) :
  (forall b, String.length (sha1Hex b) = 40%nat) ->
  let sha := sha1Hex (concat bufs) in
  files w !! destPath storageDir sha = Some old ->
  let r := storeFileFromStream storageDir (map DsData bufs ++ [DsFinished])
             fileSize false rnd10 rnd5 w in
  (exists res, settled (fst r) = Some (Returns res) /\ result_sha1 res = sha) /\
  files (snd r) !! destPath storageDir sha = Some old /\
  files (snd r) !! (storageDir +:+ "/store.file." +:+ rnd10 +:+ ".tmp") = None /\
  exists rest, fileStored (snd r) = fileStored w ++ sha :: rest.
Proof.
  intros H40 sha There r. subst r. unfold storeFileFromStream. cbn [negb].
  rewrite fold_left_app.
  set (tmp := storageDir +:+ "/store.file." +:+ rnd10 +:+ ".tmp").
  pose proof (stream_data bufs fileSize false rnd10 rnd5 w) as SD.
  cbv zeta in SD. cbn [negb] in SD. fold tmp in SD. destruct SD as (C & S & B & St & Fs & Fl).
  destruct (fold_left _ (map DsData bufs) _) as [st1 w1].
  cbn [fst snd] in C, S, B, St, Fs, Fl.
  cbn [fold_left handle fst snd]. unfold onFinished. rewrite C, S. fold sha.
  assert (tmp <> destPath storageDir sha) as Ne by apply storeTmp_not_destPath.
  assert (files w1 !! destPath storageDir sha = Some old) as There1
    by (rewrite Fl, lookup_insert_ne by exact Ne; exact There).
  rewrite (existsSync_Some _ _ _ There1).
  rewrite nextStep_run. cbn [fst snd settled builder].
  set (b := _updateManifestChunks chunkSize true (builder st1)).
  set (json := JSON_stringify_manifest _).
  set (w2 := {| files := _; fileStored := _ |}).
  assert (files w2 !! destPath storageDir sha = Some old) as In2
    by (subst w2; cbn [files]; rewrite lookup_delete_ne by exact Ne; exact There1).
  assert (files w2 !! tmp = None) as Out2 by (subst w2; cbn [files]; apply lookup_delete_eq).
  assert (fileStored w2 = fileStored w ++ [sha]) as St2
    by (subst w2; cbn [fileStored]; now rewrite Fs).
  destruct (manifest_store_keeps w2 (sha1Hex json) json rnd5 (1 <? length (manifestChunks b))%nat
              (H40 json)) as (K1 & K2 & K3 & K4 & rest & K5).
  split; [eexists; split; reflexivity|].
  split; [exact (K1 sha old (H40 _) In2)|]. split; [exact (K2 rnd10 Out2)|].
  exists rest. rewrite K5, St2, <- app_assoc. reflexivity.
Qed.

(** X7. A stream declared with another size than it has, under a free
    content path: the promise is rejected for the size and the observers
    are not told, yet the bytes are installed under their hash. *)
Theorem storeFileFromStream_wrong_declared_size
    (bufs : list Buffer) (fileSize : Z) (rnd10 rnd5 : string) (w : World) :
  let d := concat bufs in
  let sha := sha1Hex d in
  let tmp := storageDir +:+ "/store.file." +:+ rnd10 +:+ ".tmp" in
  fileSize <> Z.of_nat (length d) ->
  files w !! destPath storageDir sha = None ->
  let r := storeFileFromStream storageDir (map DsData bufs ++ [DsFinished])
             fileSize false rnd10 rnd5 w in
  settled (fst r)
    = Some (Throws (UnexpectedSizeAfterRenaming (destPath storageDir sha)
                      (Z.of_nat (length d)) fileSize)) /\
  files (snd r) = <[destPath storageDir sha := d]> (delete tmp (files w)) /\
  fileStored (snd r) = fileStored w.
Proof.
  intros d sha tmp Wrong Free r. subst r. unfold storeFileFromStream. cbn [negb].
  rewrite fold_left_app. fold tmp.
  pose proof (stream_data bufs fileSize false rnd10 rnd5 w) as SD.
  cbv zeta in SD. cbn [negb] in SD. fold tmp in SD. destruct SD as (C & S & B & St & Fs & Fl).
  destruct (fold_left _ (map DsData bufs) _) as [st1 w1].
  cbn [fst snd] in C, S, B, St, Fs, Fl.
  cbn [fold_left handle fst snd]. unfold onFinished. rewrite C, S. fold d. fold sha.
  assert (tmp <> destPath storageDir sha) as Ne by apply storeTmp_not_destPath.
  assert (files w1 !! destPath storageDir sha = None) as Free1
    by (rewrite Fl, lookup_insert_ne by exact Ne; exact Free).
  rewrite (existsSync_None _ _ Free1).
  unfold renameAndCheck, renameSync, statSync. exec_unfold.
  rewrite Fl, lookup_insert_eq. cbn [set_files files fileStored].
  rewrite lookup_insert_eq. fold d.
  destruct (Z.of_nat (length d) =? fileSize) eqn:E; [apply Z.eqb_eq in E; congruence|].
  cbv beta iota. cbn [fst snd settled cleanupTmp]. rewrite cleanup_world. cbn [files fileStored].
  split; [reflexivity|]. split; [|exact Fs].
  cbn [set_files files]. rewrite delete_insert_ne by exact Ne.
  rewrite delete_delete_eq, Fl, delete_insert_eq. reflexivity.
Qed.

(** X8. A stream that fails after some data: the promise is rejected
    with the stream's error, the temporary file is removed, nothing else
    on the disk changes, the observers are not told, and whatever the
    stream does afterwards is ignored. *)
Theorem storeFileFromStream_stream_error
    (bufs : list Buffer) (err : StorageError) (more : list StreamEvent) (fileSize : Z)
    (calculateHashOnly : bool) (rnd10 rnd5 : string) (w : World) :
  let tmp := storageDir +:+ "/store.file." +:+ rnd10 +:+ ".tmp" in
  let r := storeFileFromStream storageDir (map DsData bufs ++ DsError err :: more)
             fileSize calculateHashOnly rnd10 rnd5 w in
  settled (fst r) = Some (Throws err) /\
  files (snd r) = (if calculateHashOnly then files w else delete tmp (files w)) /\
  fileStored (snd r) = fileStored w.
Proof.
  intros tmp r. subst r. unfold storeFileFromStream. rewrite fold_left_app. fold tmp.
  pose proof (stream_data bufs fileSize calculateHashOnly rnd10 rnd5 w) as SD.
  cbv zeta in SD. fold tmp in SD. destruct SD as (C & S & B & St & Fs & Fl).
  destruct (fold_left _ (map DsData bufs) _) as [st1 w1].
  cbn [fst snd] in C, S, B, St, Fs, Fl.
  cbn [fold_left].
  match goal with |- context [handle storageDir ?t fileSize rnd5 (st1, w1) (DsError err)] =>
    replace (handle storageDir t fileSize rnd5 (st1, w1) (DsError err))
      with ({| shasum := shasum st1; builder := builder st1; complete := true;
               settled := Some (Throws err) |}, snd (cleanupTmp t w1))
      by (cbn [handle fst snd]; unfold onError; now rewrite C)
  end.
  rewrite handle_complete by reflexivity. cbn [fst snd settled].
  split; [reflexivity|].
  destruct calculateHashOnly; cbn [negb cleanupTmp]; exec_unfold; cbn [snd].
  - split; [exact Fl | exact Fs].
  - rewrite cleanup_world. cbn [files fileStored]. rewrite Fl, delete_insert_eq.
    split; [reflexivity | exact Fs].
Qed.

(** X9. A stream that is only hashed: the result is the hash of the
    bytes and, for a file of several chunks, the hash of the manifest of
    the bytes, however the stream cut them into buffers; no temporary
    file is written, and for a file of at most one chunk the disk stays as
    it is, while the observers are told that the hash was stored. *)
Theorem storeFileFromStream_hash_only
    (bufs : list Buffer) (fileSize : Z) (rnd10 rnd5 : string) (w : World) :
  let d := concat bufs in
  let manifest := {| manifest_size := Z.of_nat (length d); manifest_sha1 := sha1Hex d;
                     manifest_chunks := expectedChunks chunkSize d |} in
  let r := storeFileFromStream storageDir (map DsData bufs ++ [DsFinished])
             fileSize true rnd10 rnd5 w in
  settled (fst r)
    = Some (Returns {| result_sha1 := sha1Hex d;
                       result_manifestSha1 :=
                         if 20000000 <? Z.of_nat (length d)
                         then Some (sha1Hex (JSON_stringify_manifest manifest))
                         else None |}) /\
  (Z.of_nat (length d) <= 20000000 ->
     files (snd r) = files w /\ fileStored (snd r) = fileStored w ++ [sha1Hex d]).
Proof.
  intros d manifest r. subst r. unfold storeFileFromStream. cbn [negb].
  rewrite fold_left_app.
  pose proof (stream_data bufs fileSize true rnd10 rnd5 w) as SD.
  cbv zeta in SD. cbn [negb] in SD. destruct SD as (C & S & B & St & Fs & Fl).
  destruct (fold_left _ (map DsData bufs) _) as [st1 w1].
  cbn [fst snd] in C, S, B, St, Fs, Fl.
  cbn [fold_left handle fst snd]. unfold onFinished. rewrite C, S. fold d.
  rewrite nextStep_run. cbn [fst snd settled builder]. rewrite B.
  change (_updateManifestChunks chunkSize true (fold_left (feed chunkSize) bufs emptyBuilder))
    with (buildManifest chunkSize bufs).
  destruct (buildManifest_expected chunkSize chunkSize_pos bufs) as [Ch B2].
  fold d in Ch, B2. rewrite Ch, B2. fold manifest.
  assert ((1 <? length (expectedChunks chunkSize d))%nat = (20000000 <? Z.of_nat (length d)))
    as Count.
  { unfold expectedChunks, chunkCount, chunkSize. rewrite length_map, length_seq.
    destruct (20000000 <? Z.of_nat (length d)) eqn:Big.
    - apply Z.ltb_lt in Big. apply Nat.ltb_lt.
      assert (2 <= (Z.of_nat (length d) + 20 * 1000 * 1000 - 1) / (20 * 1000 * 1000)).
      { apply Z.div_le_lower_bound; lia. }
      lia.
    - apply Z.ltb_ge in Big. apply Nat.ltb_ge.
      assert ((Z.of_nat (length d) + 20 * 1000 * 1000 - 1) / (20 * 1000 * 1000) < 2).
      { apply Z.div_lt_upper_bound; lia. }
      lia. }
  rewrite Count. split; [reflexivity|].
  intros Small. apply Z.ltb_ge in Small. rewrite Small. cbn [files fileStored].
  split; [exact Fl | now rewrite Fs].
Qed.

End Disk.
End IngestFacts.

(** ** Storage: concatenation, end to end *)

Module ConcatFacts.
Import Storage StorageAccess StorageFacts Manifests ManifestFacts IngestFacts.

Section Disk.
Context `{Runtime}.
Variable storageDir : LocalFilePath.

Lemma readWholeFile_direct w s (data : Buffer) :
  JS.truthy s = true ->
  files w !! destPath storageDir s = Some data ->
  data <> [] ->
  readWholeFile storageDir w s = Returns data.
Proof.
  intros T E Ne. unfold readWholeFile, _getLocalFileInfo, _getLocalFileInfo1, statSync.
  exec_unfold. cbv zeta. rewrite T, E. cbv beta iota. cbn [pathTruthy].
  rewrite !destPath_truthy. cbv beta iota.
  assert (0 < Z.of_nat (length data)) as Pos by (destruct data; [congruence | simpl; lia]).
  destruct (Z.of_nat (length data) <=? 0) eqn:E1; [apply Z.leb_le in E1; lia|].
  unfold LocalFilePath. rewrite E. f_equal. unfold slice. cbn [Z.to_nat drop]. apply take_ge. lia.
Qed.

Lemma verifyChunksPresent_ok chunkSha1s datas w :
  Forall2 (chunkStored storageDir (files w)) chunkSha1s datas ->
  verifyChunksPresent storageDir chunkSha1s w = (Returns tt, w).
Proof.
  induction 1 as [|c data cs ds (T & E & _) _ IH]; cbn [verifyChunksPresent]; exec_unfold;
    [reflexivity|].
  rewrite (findFile_direct storageDir w c data T E). cbn [found]. exact IH.
Qed.

Lemma appendChunks_run tmp chunkSha1s datas hashed acc (base : gmap string Buffer) stored0 :
  (forall s, tmp <> destPath storageDir s) ->
  Forall2 (chunkStored storageDir base) chunkSha1s datas ->
  appendChunks storageDir tmp chunkSha1s hashed
    {| files := <[tmp := acc]> base; fileStored := stored0 |}
  = (Returns (hashed ++ concat datas),
     {| files := <[tmp := acc ++ concat datas]> base; fileStored := stored0 |}).
Proof.
  intros Tmp F. revert hashed acc.
  induction F as [|c data cs ds (T & E & Ne) _ IH]; intros hashed acc;
    cbn [appendChunks concat]; exec_unfold.
  - now rewrite !app_nil_r.
  - rewrite (readWholeFile_direct _ c data T); [|cbn [files]; now rewrite lookup_insert_ne|exact Ne].
    unfold streamWrite. exec_unfold. unfold set_files. cbn [files fileStored].
    rewrite alter_insert_eq, IH, !app_assoc. reflexivity.
Qed.

Lemma concatenate_run w sha1 chunkSha1s datas rnd :
  files w !! destPath storageDir sha1 = None ->
  Forall2 (chunkStored storageDir (files w)) chunkSha1s datas ->
  sha1Hex (concat datas) = sha1 ->
  concatenateChunksAndStoreResult storageDir sha1 chunkSha1s rnd w
  = (Returns tt,
     {| files := <[destPath storageDir sha1 := concat datas]>
                   (delete (createTemporaryFilePath storageDir "kachery-daemon-concat-" rnd)
                      (files w));
        fileStored := fileStored w ++ [sha1] |}).
Proof.
  intros Free F Hash. unfold concatenateChunksAndStoreResult.
  set (tmp := createTemporaryFilePath storageDir "kachery-daemon-concat-" rnd).
  assert (forall s, tmp <> destPath storageDir s) as Tmp
    by (intros s; apply concatTmp_not_destPath).
  unfold Exec.bind at 1. unfold Exec.get at 1. rewrite (existsSync_None _ _ Free).
  unfold Exec.bind at 1. rewrite (verifyChunksPresent_ok _ _ _ F).
  unfold Exec.bind at 1. unfold createWriteStream, writeFile, Exec.modify at 1.
  unfold Exec.bind at 1. unfold set_files at 1.
  rewrite (appendChunks_run tmp chunkSha1s datas [] [] (files w) (fileStored w) Tmp F).
  cbn [app]. unfold Exec.bind at 1. rewrite Hash, String.eqb_refl. cbn [negb Exec.throw_if].
  unfold Exec.ret at 1. unfold Exec.bind at 1. unfold Exec.get at 1.
  rewrite existsSync_None by (cbn [files]; rewrite lookup_insert_ne by apply Tmp; exact Free).
  unfold Exec.bind at 1.
  rewrite (renameAndCheck_moves _ tmp _ (concat datas)) by (cbn [files]; apply lookup_insert_eq).
  unfold _reportFileStored, Exec.modify, set_files. cbn [files fileStored].
  rewrite delete_insert_eq. reflexivity.
Qed.


(** X10. When every chunk is in the store with bytes to read, the content
    path of the result is free and the chunks together hash to the hash
    asked for: the call returns, the concatenation is installed under that
    hash, the temporary file is gone, nothing else on the disk changes,
    the observers are told, and the lookup finds the result with its
    size. *)
Theorem concatenate_installs_the_concatenation
    (w : World) (sha1 : Sha1Hash) (chunkSha1s : list Sha1Hash) (datas : list Buffer)
    (rnd : string) :
  JS.truthy sha1 = true ->
  files w !! destPath storageDir sha1 = None ->
  Forall2 (chunkStored storageDir (files w)) chunkSha1s datas ->
  sha1Hex (concat datas) = sha1 ->
  let r := concatenateChunksAndStoreResult storageDir sha1 chunkSha1s rnd w in
  fst r = Returns tt /\
  files (snd r)
    = <[destPath storageDir sha1 := concat datas]>
        (delete (createTemporaryFilePath storageDir "kachery-daemon-concat-" rnd) (files w)) /\
  fileStored (snd r) = fileStored w ++ [sha1] /\
  findFile storageDir (snd r) (sha1Key sha1)
    = {| found := true; size := Z.of_nat (length (concat datas));
         localFilePath := Some (destPath storageDir sha1) |}.
Proof.
  intros T Free F Hash r. subst r. rewrite (concatenate_run w sha1 chunkSha1s datas rnd Free F Hash).
  cbn [fst snd files fileStored]. repeat split.
  apply findFile_direct; [exact T | cbn [files]; apply lookup_insert_eq].
Qed.

(** X11. When a chunk is missing, the call throws for the first missing
    chunk before it writes anything: the disk and the observers are as
    before, and no temporary file was made. *)
Theorem concatenate_missing_chunk_touches_nothing
    (w : World) (sha1 : Sha1Hash) (chunkSha1s : list Sha1Hash) (rnd : string) :
  files w !! destPath storageDir sha1 = None ->
  Exists (fun c => found (findFile storageDir w (sha1Key c)) = false) chunkSha1s ->
  exists before c after,
    chunkSha1s = before ++ c :: after /\
    Forall (fun c' => found (findFile storageDir w (sha1Key c')) = true) before /\
    found (findFile storageDir w (sha1Key c)) = false /\
    concatenateChunksAndStoreResult storageDir sha1 chunkSha1s rnd w = (Throws (MissingChunk c), w).
Proof.
  intros Free Missing. unfold concatenateChunksAndStoreResult.
  unfold Exec.bind at 1. unfold Exec.get at 1. rewrite (existsSync_None _ _ Free).
  unfold Exec.bind at 1.
  assert (exists before c after,
            chunkSha1s = before ++ c :: after /\
            Forall (fun c' => found (findFile storageDir w (sha1Key c')) = true) before /\
            found (findFile storageDir w (sha1Key c)) = false /\
            verifyChunksPresent storageDir chunkSha1s w = (Throws (MissingChunk c), w))
    as (before & c & after & E & B & N & V).
  { clear Free. induction chunkSha1s as [|a rest IH]; [inversion Missing|].
    cbn [verifyChunksPresent]. exec_unfold.
    destruct (found (findFile storageDir w (sha1Key a))) eqn:Fa.
    - destruct IH as (before & c & after & E & B & N & V).
      { inversion Missing as [? ? Bad | ? ? Later]; subst; [congruence | exact Later]. }
      exists (a :: before), c, after. subst rest.
      split; [reflexivity|]. split; [constructor; assumption|]. split; assumption.
    - exists [], a, rest. split; [reflexivity|]. split; [constructor|]. split; [exact Fa | reflexivity]. }
  exists before, c, after. rewrite V. repeat split; assumption.
Qed.

(** The ranges of the chunk list, read from the file one after the
    other, give the file. *)
Lemma expectedChunks_concat (cs : Z) (d : Buffer) :
  0 < cs ->
  concat (map (fun c => slice d (chunk_start c) (chunk_end c)) (expectedChunks cs d)) = d.
Proof.
  intros Pos. unfold expectedChunks. rewrite map_map. cbn [chunkOfInput chunk_start chunk_end].
  set (len := Z.of_nat (length d)).
  assert (forall m : nat,
            concat (map (fun k : nat => slice d (Z.of_nat k * cs)
                                          (Z.min ((Z.of_nat k + 1) * cs) len)) (seq 0 m))
            = take (Z.to_nat (Z.min (Z.of_nat m * cs) len)) d) as Upto.
  { induction m as [|m IH].
    { cbn [seq map concat].
      replace (Z.min (Z.of_nat 0 * cs) len) with 0 by (subst len; lia). reflexivity. }
    rewrite seq_S, map_app, concat_app, IH. cbn [map concat Nat.add]. rewrite app_nil_r.
    unfold slice.
    destruct (Z_lt_le_dec (Z.of_nat m * cs) len) as [In | Out].
    - replace (Z.min (Z.of_nat m * cs) len) with (Z.of_nat m * cs) by lia.
      rewrite take_take_drop. f_equal. lia.
    - rewrite (drop_ge d) by (subst len; lia). rewrite take_nil, app_nil_r. f_equal. lia. }
  rewrite Upto. apply take_ge. subst len. unfold chunkCount.
  assert (Z.of_nat (length d) <= (Z.of_nat (length d) + cs - 1) / cs * cs).
  { pose proof (Z.div_mod (Z.of_nat (length d) + cs - 1) cs ltac:(lia)) as DM.
    pose proof (Z.mod_pos_bound (Z.of_nat (length d) + cs - 1) cs Pos) as MB. nia. }
  assert (0 <= (Z.of_nat (length d) + cs - 1) / cs) by (apply Z.div_pos; lia).
  rewrite Z2Nat.id by assumption. lia.
Qed.

(** X12. The chunks of a file's manifest, each in the store under its
    hash, concatenate to the file: [concatenateChunksAndStoreResult],
    given the file's hash and the chunk hashes of the list that
    [storeFileFromStream] builds, installs the bytes of the file under the
    file's hash. *)
Theorem concatenate_rebuilds_file_from_manifest_chunks
    (cs : Z) (bufs : list Buffer) (rnd : string) (w : World) :
  0 < cs ->
  (forall b, JS.truthy (sha1Hex b) = true) ->
  let d := concat bufs in
  let chunks := manifestChunks (buildManifest cs bufs) in
  files w !! destPath storageDir (sha1Hex d) = None ->
  (forall c, In c chunks ->
     files w !! destPath storageDir (chunk_sha1 c)
     = Some (slice d (chunk_start c) (chunk_end c))) ->
  let r := concatenateChunksAndStoreResult storageDir (sha1Hex d) (map chunk_sha1 chunks) rnd w in
  fst r = Returns tt /\
  files (snd r) !! destPath storageDir (sha1Hex d) = Some d /\
  fileStored (snd r) = fileStored w ++ [sha1Hex d] /\
  findFile storageDir (snd r) (sha1Key (sha1Hex d))
    = {| found := true; size := Z.of_nat (length d);
         localFilePath := Some (destPath storageDir (sha1Hex d)) |}.
Proof.
  intros Pos Truthy d chunks Free Have r. subst r chunks.
  destruct (buildManifest_expected cs Pos bufs) as [Ch _]. fold d in Ch. rewrite Ch in *.
  set (datas := map (fun c => slice d (chunk_start c) (chunk_end c)) (expectedChunks cs d)).
  assert (Forall2 (chunkStored storageDir (files w)) (map chunk_sha1 (expectedChunks cs d)) datas)
    as F.
  { subst datas.
    assert (forall l : list FileManifestChunk,
              (forall c, In c l -> In c (expectedChunks cs d)) ->
              Forall2 (chunkStored storageDir (files w)) (map chunk_sha1 l)
                (map (fun c => slice d (chunk_start c) (chunk_end c)) l)) as G.
    { induction l as [|c l IH]; intros Sub; [constructor|].
      cbn [map]. constructor; [|apply IH; intros; apply Sub; now right].
      pose proof (Sub c (or_introl eq_refl)) as Hc.
      destruct (list_elem_of_lookup_1 _ _ (proj2 (list_elem_of_In _ _) Hc)) as [i Hl].
      apply (expectedChunks_lookup cs) in Hl as [Lt Ec].
      pose proof (chunkCount_bound cs Pos (Z.of_nat (length d)) i ltac:(lia) Lt) as Bd.
      split; [|split; [apply Have, Hc|]].
      - rewrite Ec. apply Truthy.
      - rewrite Ec. cbn [chunkOfInput chunk_start chunk_end]. intros Empty.
        apply (f_equal (@length Byte.byte)) in Empty. cbn [length] in Empty.
        unfold slice in Empty. rewrite length_take, length_drop in Empty. nia. }
    apply G. tauto. }
  assert (concat datas = d) as Cat by (subst datas; apply expectedChunks_concat, Pos).
  assert (sha1Hex (concat datas) = sha1Hex d) as Hash by now rewrite Cat.
  rewrite (concatenate_run w (sha1Hex d) _ datas rnd Free F Hash).
  cbn [fst snd files fileStored]. rewrite Cat.
  split; [reflexivity|]. split; [apply lookup_insert_eq|]. split; [reflexivity|].
  apply findFile_direct; [apply Truthy | cbn [files]; apply lookup_insert_eq].
Qed.

End Disk.
End ConcatFacts.

(** ** Storage: lookups, reads and the trash *)

Module AccessFacts.
Import Storage StorageAccess StorageFacts IngestFacts.

Section Disk.
Context `{Runtime}.
Variable storageDir : LocalFilePath.

(** What a lookup returns: a path that is on the disk with the size of
    the file there, or nothing. *)
Lemma getLocalFileInfo_shape w s :
  (exists p data, _getLocalFileInfo storageDir w s = (Some p, Some (Z.of_nat (length data))) /\
     JS.truthy p = true /\ files w !! p = Some data) \/
  _getLocalFileInfo storageDir w s = (None, None).
Proof.
  unfold _getLocalFileInfo, _getLocalFileInfo1, _getLocalFileInfo2, readJsonFile, statSync.
  exec_unfold. cbv zeta.
  destruct (files w !! destPath storageDir s) as [d|] eqn:E1; cbv beta iota.
  - cbn [pathTruthy]. rewrite destPath_truthy. left. eauto 10 using destPath_truthy.
  - cbn [pathTruthy].
    destruct (existsSync w (destPath storageDir s +:+ ".link")); [|now right].
    destruct (files w !! (destPath storageDir s +:+ ".link")); [|now right].
    destruct (JSON_parse _) as [x|]; [|now right].
    destruct (falsy x); [now right|]. destruct (isLinkObject x); cbn [negb]; [|now right].
    destruct (files w !! linkPath x) as [d|] eqn:E2; cbv beta iota; [|now right].
    cbn [pathTruthy]. destruct (JS.truthy (linkPath x)) eqn:T; [|now right].
    left. eauto 10.
Qed.

(** The whole-file read that the concatenation uses is the read of the
    key [{sha1}] without a range. *)
Lemma readWholeFile_is_getFileDataStreamy w s :
  readWholeFile storageDir w s = getFileDataStreamy storageDir w (sha1Key s) None None.
Proof.
  unfold readWholeFile, getFileDataStreamy, getFileReadStream. cbn [fk_sha1 fk_chunkOf sha1Key].
  destruct (JS.truthy s); [|reflexivity].
  destruct (getLocalFileInfo_shape w s) as [(p & data & -> & T & E) | ->]; [|reflexivity].
  rewrite T. cbv zeta.
  destruct (Z.of_nat (length data) <=? 0) eqn:Le.
  - apply Z.leb_le in Le. rewrite createReadStreamForFile_empty by exact Le. reflexivity.
  - apply Z.leb_gt in Le. rewrite createReadStreamForFile_ok by lia.
    unfold readStreamData. cbn [rs_path rs_start rs_end].
    unfold LocalFilePath in *. rewrite E. do 2 f_equal. lia.
Qed.

(** X13. [hasLocalFile] and [findFile] agree, on every disk and key. *)
Theorem hasLocalFile_agrees_with_findFile (w : World) (fileKey : FileKey) :
  hasLocalFile storageDir w fileKey = found (findFile storageDir w fileKey).
Proof.
  unfold hasLocalFile, findFile.
  destruct (JS.truthy (fk_sha1 fileKey)).
  - destruct (_getLocalFileInfo storageDir w (fk_sha1 fileKey)) as [p [n|]].
    + destruct (pathTruthy p); [reflexivity|].
      destruct (fk_chunkOf fileKey) as [[[parent a] b]|]; [|reflexivity].
      destruct (pathTruthy _); reflexivity.
    + destruct (fk_chunkOf fileKey) as [[[parent a] b]|]; [|reflexivity].
      destruct (pathTruthy _); reflexivity.
  - destruct (fk_chunkOf fileKey) as [[[parent a] b]|]; [|reflexivity].
    destruct (pathTruthy _); reflexivity.
Qed.

(** What [getFileReadStream] does, by what [findFile] reports: for a
    key that is not found it throws; for one that is found it creates a
    read stream on a file of the disk, for the size asked for. *)
Lemma getFileReadStream_cases w fileKey startByte endByte :
  let first := match startByte, endByte with Some a, Some _ => a | _, _ => 0 end in
  let n := match startByte, endByte with
           | Some a, Some b => b - a
           | _, _ => size (findFile storageDir w fileKey)
           end in
  (found (findFile storageDir w fileKey) = false /\
   getFileReadStream storageDir w fileKey startByte endByte = Throws UnableToGetReadStream) \/
  (found (findFile storageDir w fileKey) = true /\
   exists (p : string) (data : Buffer) offset,
     files w !! p = Some data /\
     (offset = first \/
      exists parent c1 c2, fk_chunkOf fileKey = Some (parent, c1, c2) /\ offset = c1 + first) /\
     getFileReadStream storageDir w fileKey startByte endByte
     = match createReadStreamForFile p offset n with
       | Returns stream => Returns (stream, n)
       | Throws e => Throws e
       end).
Proof.
  cbv zeta. unfold findFile, getFileReadStream. cbv zeta.
  assert (match fk_chunkOf fileKey with
          | Some (parent, c1, c2) =>
              (exists (p : string) (data : Buffer),
                 _getLocalFileInfo storageDir w (fk_sha1 parent)
                 = (Some p, Some (Z.of_nat (length data))) /\
                 JS.truthy p = true /\ files w !! p = Some data) \/
              _getLocalFileInfo storageDir w (fk_sha1 parent) = (None, None)
          | None => True
          end) as Parent.
  { destruct (fk_chunkOf fileKey) as [[[parent c1] c2]|]; [|exact I].
    destruct (getLocalFileInfo_shape w (fk_sha1 parent)) as [(p & data & P & T & E) | P];
      [left; eauto | right; exact P]. }
  destruct (JS.truthy (fk_sha1 fileKey)).
  - destruct (getLocalFileInfo_shape w (fk_sha1 fileKey)) as [(p & data & -> & T & E) | ->].
    + cbn [pathTruthy]. rewrite T. right. split; [reflexivity|].
      exists p, data. eexists. split; [exact E|]. split; [left; reflexivity|].
      cbn [size]. destruct startByte, endByte; reflexivity.
    + cbn [pathTruthy].
      destruct (fk_chunkOf fileKey) as [[[parent c1] c2]|]; [|left; split; reflexivity].
      destruct Parent as [(p & data & -> & T & E) | ->]; cbn [fst pathTruthy]; rewrite ?T;
        [|left; split; reflexivity].
      right. split; [reflexivity|].
      exists p, data. eexists. split; [exact E|].
      split; [right; exists parent, c1, c2; split; reflexivity|].
      cbn [size]. destruct startByte, endByte; reflexivity.
  - destruct (fk_chunkOf fileKey) as [[[parent c1] c2]|]; [|left; split; reflexivity].
    destruct Parent as [(p & data & -> & T & E) | ->]; cbn [fst pathTruthy]; rewrite ?T;
      [|left; split; reflexivity].
    right. split; [reflexivity|].
    exists p, data. eexists. split; [exact E|].
    split; [right; exists parent, c1, c2; split; reflexivity|].
    cbn [size]. destruct startByte, endByte; reflexivity.
Qed.

(** X14. [getFileReadStream] and [findFile] agree.  Whatever range is
    asked for, [getFileReadStream] throws that it is unable to get a read
    stream exactly when [findFile] does not find the key.  For a key that
    is found, and positions and a size that are safe integers, what it
    does is decided by the size to announce, which is the length of the range asked for
    or, when no range or one bound only is given, the size [findFile]
    reports: when this size is positive it returns a stream and that
    size, and the stream delivers bytes of the disk, at most that many;
    when it is zero or negative the read stream cannot be created, and
    the call throws for the range. *)
Theorem getFileReadStream_agrees_with_findFile (w : World) (fileKey : FileKey) :
  let sizeAsked (startByte endByte : option Z) :=
    match startByte, endByte with
    | Some a, Some b => b - a
    | _, _ => size (findFile storageDir w fileKey)
    end in
  (forall startByte endByte,
     getFileReadStream storageDir w fileKey startByte endByte = Throws UnableToGetReadStream
     <-> found (findFile storageDir w fileKey) = false) /\
  (forall startByte endByte,
     safePositions fileKey startByte endByte ->
     sizeAsked startByte endByte <= MAX_SAFE_INTEGER ->
     found (findFile storageDir w fileKey) = true ->
     if 0 <? sizeAsked startByte endByte
     then exists stream data,
            getFileReadStream storageDir w fileKey startByte endByte
            = Returns (stream, sizeAsked startByte endByte) /\
            readStreamData w stream = Returns data /\
            Z.of_nat (length data) <= sizeAsked startByte endByte
     else getFileReadStream storageDir w fileKey startByte endByte
          = Throws (StreamFailed "ERR_OUT_OF_RANGE")).
Proof.
  cbv zeta. split.
  - intros startByte endByte.
    destruct (getFileReadStream_cases w fileKey startByte endByte)
      as [[F G] | (F & p & data & offset & E & O & G)]; cbv zeta in *.
    + rewrite F, G. tauto.
    + rewrite F, G. split; [|discriminate].
      unfold createReadStreamForFile. cbv zeta.
      destruct (_ || _ || _); discriminate.
  - intros startByte endByte Safe _ F.
    destruct (getFileReadStream_cases w fileKey startByte endByte)
      as [[F' G] | (_ & p & data & offset & E & O & G)]; cbv zeta in *.
    { congruence. }
    rewrite G. clear G.
    set (n := match startByte, endByte with
              | Some a, Some b => b - a
              | _, _ => size (findFile storageDir w fileKey)
              end).
    assert (0 <= offset) as Off.
    { unfold safePositions in Safe. cbv zeta in Safe.
      destruct O as [-> | (parent & c1 & c2 & K & ->)].
      - destruct startByte, endByte; cbn [fst snd] in Safe; lia.
      - rewrite K in Safe. destruct startByte, endByte; cbn [fst snd] in Safe; lia. }
    destruct (0 <? n) eqn:Pos.
    + apply Z.ltb_lt in Pos. rewrite createReadStreamForFile_ok by assumption.
      eexists. exists (slice data offset (offset + n - 1 + 1)).
      split; [reflexivity|]. split.
      * unfold readStreamData. cbn [rs_path rs_start rs_end]. rewrite E. reflexivity.
      * unfold slice. rewrite length_take, length_drop. lia.
    + apply Z.ltb_ge in Pos. apply (createReadStreamForFile_empty p offset) in Pos.
      now rewrite Pos.
Qed.

(** X15. A read of the bytes [a .. b) of a file in the store, for
    positions that are safe integers, gives these bytes, as far as the
    file goes. *)
Theorem ranged_read_gives_the_range
    (w : World) (s : Sha1Hash) (data : Buffer) (a b : Z) :
  JS.truthy s = true ->
  files w !! destPath storageDir s = Some data ->
  0 <= a < b ->
  b <= MAX_SAFE_INTEGER ->
  getFileDataStreamy storageDir w (sha1Key s) (Some a) (Some b) = Returns (slice data a b) /\
  Z.of_nat (length (slice data a b))
    = Z.max 0 (Z.min b (Z.of_nat (length data)) - a).
Proof.
  intros T E Range Safe. split.
  - unfold getFileDataStreamy, getFileReadStream, _getLocalFileInfo, _getLocalFileInfo1, statSync.
    exec_unfold. cbn [fk_sha1 sha1Key]. cbv zeta. rewrite T, E. cbv beta iota.
    cbn [pathTruthy]. rewrite !destPath_truthy. cbv beta iota.
    rewrite createReadStreamForFile_ok by lia.
    unfold readStreamData. cbn [rs_path rs_start rs_end]. rewrite E.
    do 2 f_equal. lia.
  - unfold slice. rewrite length_take, length_drop. lia.
Qed.

(** X16. A key that names the bytes [a .. b) of a parent file as a
    chunk, when the chunk is not in the store under its own hash and the
    parent is, for positions that are safe integers: the lookup reports it
    found with the length of the range as its size and no path, and a read
    of the chunk, or of a range of it, is the read of the parent at the
    offset of the chunk. *)
Theorem chunk_read_is_parent_range
    (w : World) (c : Sha1Hash) (m : option Sha1Hash) (parent : FileKey) (a b : Z) :
  0 <= a <= b ->
  b <= MAX_SAFE_INTEGER ->
  found (findFile storageDir w (sha1Key c)) = false ->
  JS.truthy (fk_sha1 parent) = true ->
  found (findFile storageDir w (sha1Key (fk_sha1 parent))) = true ->
  let k := Build_FileKey c m (Some (parent, a, b)) in
  findFile storageDir w k = {| found := true; size := b - a; localFilePath := None |} /\
  getFileDataStreamy storageDir w k None None
    = getFileDataStreamy storageDir w parent (Some a) (Some b) /\
  forall a' b', 0 <= a' <= b' -> a + b' <= MAX_SAFE_INTEGER ->
    getFileDataStreamy storageDir w k (Some a') (Some b')
    = getFileDataStreamy storageDir w parent (Some (a + a')) (Some (a + b')).
Proof.
  intros Range Safe NoChunk TP HasParent k. subst k.
  assert ((if JS.truthy c
           then match _getLocalFileInfo storageDir w c with
                | (Some p, Some n) => JS.truthy p
                | _ => false
                end
           else false) = false) as Own.
  { revert NoChunk. unfold findFile. cbn [fk_sha1 fk_chunkOf sha1Key].
    destruct (JS.truthy c); [|reflexivity].
    destruct (getLocalFileInfo_shape w c) as [(p & data & -> & T & E) | ->];
      cbn [pathTruthy]; rewrite ?T; [discriminate | reflexivity]. }
  assert (exists p (data : Buffer), _getLocalFileInfo storageDir w (fk_sha1 parent)
                         = (Some p, Some (Z.of_nat (length data))) /\ JS.truthy p = true)
    as (p & data & Par & Tp).
  { revert HasParent. unfold findFile. cbn [fk_sha1 fk_chunkOf sha1Key]. rewrite TP.
    destruct (getLocalFileInfo_shape w (fk_sha1 parent)) as [(p & data & -> & T & E) | ->];
      [eauto | discriminate]. }
  split; [|split].
  - unfold findFile. cbn [fk_sha1 fk_chunkOf]. rewrite Par. cbn [fst pathTruthy]. rewrite Tp.
    destruct (JS.truthy c); [|reflexivity].
    destruct (_getLocalFileInfo storageDir w c) as [[q|] [n|]]; try reflexivity.
    cbn [pathTruthy]. rewrite Own. reflexivity.
  - unfold getFileDataStreamy, getFileReadStream. cbn [fk_sha1 fk_chunkOf].
    rewrite TP, Par. cbn [fst]. rewrite Tp. cbv zeta.
    replace (a + 0) with a by lia.
    destruct (JS.truthy c); [|reflexivity].
    destruct (_getLocalFileInfo storageDir w c) as [[q|] [n|]]; rewrite ?Own; reflexivity.
  - intros a' b' Range' Safe'. unfold getFileDataStreamy, getFileReadStream. cbn [fk_sha1 fk_chunkOf].
    rewrite TP, Par. cbn [fst]. rewrite Tp. cbv zeta.
    replace (a + b' - (a + a')) with (b' - a') by lia.
    destruct (JS.truthy c); [|reflexivity].
    destruct (_getLocalFileInfo storageDir w c) as [[q|] [n|]]; rewrite ?Own; reflexivity.
Qed.

(** **** The trash *)

Lemma trashPath_not_destPath s s' : trashPath storageDir s <> destPath storageDir s'.
Proof.
  unfold trashPath, trashParentPath, destPath, destParentPath. rewrite !append_assoc.
  intros E. apply String.app_inj in E. discriminate.
Qed.

Lemma trashPath_not_link s s' : trashPath storageDir s <> destPath storageDir s' +:+ ".link".
Proof.
  unfold trashPath, trashParentPath, destPath, destParentPath. rewrite !append_assoc.
  intros E. apply String.app_inj in E. discriminate.
Qed.

Lemma link_not_destPath s : destPath storageDir s +:+ ".link" <> destPath storageDir s.
Proof. apply append_not_self. reflexivity. Qed.

Lemma getLocalFileInfo_direct w s (data : Buffer) :
  files w !! destPath storageDir s = Some data ->
  _getLocalFileInfo storageDir w s
  = (Some (destPath storageDir s), Some (Z.of_nat (length data))).
Proof.
  intros E. unfold _getLocalFileInfo, _getLocalFileInfo1, statSync. exec_unfold. cbv zeta.
  rewrite E. cbv beta iota. cbn [pathTruthy]. now rewrite destPath_truthy.
Qed.

Lemma getLocalFileInfo_linked w s (txt : Buffer) x :
  files w !! destPath storageDir s = None ->
  files w !! (destPath storageDir s +:+ ".link") = Some txt ->
  JSON_parse txt = Some x ->
  isLinkObject x = true ->
  _getLocalFileInfo storageDir w s
  = match files w !! linkPath x with
    | Some data =>
        if JS.truthy (linkPath x) then (Some (linkPath x), Some (Z.of_nat (length data)))
        else (None, None)
    | None => (None, None)
    end.
Proof.
  intros NoDirect Link Parse IsLink.
  unfold _getLocalFileInfo, _getLocalFileInfo1, _getLocalFileInfo2, readJsonFile, statSync.
  exec_unfold. cbv zeta. rewrite NoDirect. cbv beta iota. cbn [pathTruthy].
  rewrite (existsSync_Some _ _ _ Link), Link, Parse, (isLinkObject_not_falsy _ IsLink), IsLink.
  cbn [negb]. destruct (files w !! linkPath x) as [data|]; cbv beta iota; [|reflexivity].
  cbn [pathTruthy]. destruct (JS.truthy (linkPath x)); reflexivity.
Qed.

Lemma getLocalFileInfo_absent w s :
  files w !! destPath storageDir s = None ->
  files w !! (destPath storageDir s +:+ ".link") = None ->
  _getLocalFileInfo storageDir w s = (None, None).
Proof.
  intros NoDirect NoLink.
  unfold _getLocalFileInfo, _getLocalFileInfo1, _getLocalFileInfo2, statSync.
  exec_unfold. cbv zeta. rewrite NoDirect. cbv beta iota. cbn [pathTruthy].
  now rewrite (existsSync_None _ _ NoLink).
Qed.

Lemma findFile_absent w s :
  _getLocalFileInfo storageDir w s = (None, None) ->
  found (findFile storageDir w (sha1Key s)) = false.
Proof.
  intros E. unfold findFile. cbn [fk_sha1 fk_chunkOf sha1Key]. rewrite E.
  destruct (JS.truthy s); reflexivity.
Qed.

(** X17. A file that is in the store under its hash, moved to the trash:
    its content path is free afterwards, its bytes are at the trash path
    of the hash unless the trash already held a file there, which is then
    kept, nothing else on the disk changes, and without a link file for
    the hash the lookup no longer finds it. *)
Theorem moveFileToTrash_frees_the_content_path (w : World) (s : Sha1Hash) (data : Buffer) :
  files w !! destPath storageDir s = Some data ->
  let r := moveFileToTrash storageDir s w in
  fst r = Returns tt /\
  files (snd r) !! destPath storageDir s = None /\
  files (snd r) !! trashPath storageDir s
    = Some (default data (files w !! trashPath storageDir s)) /\
  (forall p, p <> destPath storageDir s -> p <> trashPath storageDir s ->
     files (snd r) !! p = files w !! p) /\
  fileStored (snd r) = fileStored w /\
  (files w !! (destPath storageDir s +:+ ".link") = None ->
     found (findFile storageDir (snd r) (sha1Key s)) = false).
Proof.
  intros E r. subst r. unfold moveFileToTrash. exec_unfold.
  rewrite (getLocalFileInfo_direct w s data E). cbn [fst]. rewrite destPath_truthy. cbn [negb].
  pose proof (trashPath_not_destPath s s) as Ne.
  destruct (existsSync w (trashPath storageDir s)) eqn:Ex.
  - unfold existsSync in Ex. apply bool_decide_eq_true in Ex. destruct Ex as [old Old].
    unfold unlinkSync. exec_unfold. rewrite (existsSync_Some _ _ _ E).
    unfold set_files. cbn [fst snd files fileStored]. rewrite Old. cbn [default].
    split; [reflexivity|]. split; [apply lookup_delete_eq|].
    split; [now rewrite lookup_delete_ne by congruence|].
    split; [intros p P1 P2; now rewrite lookup_delete_ne by congruence|].
    split; [reflexivity|]. intros NoLink. apply findFile_absent, getLocalFileInfo_absent.
    + apply lookup_delete_eq.
    + cbn [files]. rewrite lookup_delete_ne by (apply not_eq_sym, link_not_destPath). exact NoLink.
  - apply existsSync_false in Ex. unfold renameSync. exec_unfold. rewrite E.
    unfold set_files. cbn [fst snd files fileStored]. rewrite Ex. cbn [default].
    split; [reflexivity|].
    split; [rewrite lookup_insert_ne by exact Ne; apply lookup_delete_eq|].
    split; [apply lookup_insert_eq|].
    split; [intros p P1 P2; rewrite lookup_insert_ne, lookup_delete_ne by congruence; reflexivity|].
    split; [reflexivity|]. intros NoLink. apply findFile_absent, getLocalFileInfo_absent.
    + cbn [files]. rewrite lookup_insert_ne by exact Ne. apply lookup_delete_eq.
    + cbn [files]. rewrite lookup_insert_ne by apply trashPath_not_link.
      rewrite lookup_delete_ne by (apply not_eq_sym, link_not_destPath). exact NoLink.
Qed.

(** X18. A hash that the store resolves through a link file, moved to the
    trash: it is the linked file itself, outside the store, that is taken
    from its place (into the trash, or removed when the trash already
    holds a file for the hash); the link file stays behind, and the lookup
    no longer finds the hash. *)
Theorem moveFileToTrash_takes_the_linked_file
    (w : World) (s : Sha1Hash) (txt : Buffer) (x : JSONValue) (data : Buffer) :
  files w !! destPath storageDir s = None ->
  files w !! (destPath storageDir s +:+ ".link") = Some txt ->
  JSON_parse txt = Some x ->
  isLinkObject x = true ->
  JS.truthy (linkPath x) = true ->
  files w !! linkPath x = Some data ->
  let r := moveFileToTrash storageDir s w in
  fst r = Returns tt /\
  files (snd r) !! linkPath x = None /\
  (linkPath x <> trashPath storageDir s ->
     files (snd r) !! trashPath storageDir s
     = Some (default data (files w !! trashPath storageDir s))) /\
  (linkPath x <> destPath storageDir s +:+ ".link" ->
     files (snd r) !! (destPath storageDir s +:+ ".link") = Some txt) /\
  found (findFile storageDir (snd r) (sha1Key s)) = false.
Proof.
  intros NoDirect Link Parse IsLink T Ext r. subst r.
  assert (linkPath x <> destPath storageDir s) as NotDest by congruence.
  unfold moveFileToTrash. exec_unfold.
  rewrite (getLocalFileInfo_linked w s txt x NoDirect Link Parse IsLink), Ext, T.
  cbn [fst]. rewrite T. cbn [negb].
  assert (forall w', files w' !! destPath storageDir s = None ->
            files w' !! linkPath x = None ->
            (files w' !! (destPath storageDir s +:+ ".link") = Some txt \/
             files w' !! (destPath storageDir s +:+ ".link") = None) ->
            found (findFile storageDir w' (sha1Key s)) = false) as Gone.
  { intros w' D L [K | K]; apply findFile_absent.
    - rewrite (getLocalFileInfo_linked w' s txt x D K Parse IsLink). now rewrite L.
    - now apply getLocalFileInfo_absent. }
  destruct (existsSync w (trashPath storageDir s)) eqn:Ex.
  - unfold existsSync in Ex. apply bool_decide_eq_true in Ex. destruct Ex as [old Old].
    unfold unlinkSync. exec_unfold. rewrite (existsSync_Some _ _ _ Ext).
    unfold set_files. cbn [fst snd files fileStored].
    split; [reflexivity|]. split; [apply lookup_delete_eq|].
    split; [intros N; rewrite lookup_delete_ne by exact N; now rewrite Old|].
    split; [intros N; now rewrite lookup_delete_ne by exact N|].
    apply Gone; cbn [files].
    + rewrite lookup_delete_ne by exact NotDest. exact NoDirect.
    + apply lookup_delete_eq.
    + destruct (decide (linkPath x = destPath storageDir s +:+ ".link")) as [Eq | N].
      * right. rewrite <- Eq. apply lookup_delete_eq.
      * left. now rewrite lookup_delete_ne by exact N.
  - apply existsSync_false in Ex. unfold renameSync. exec_unfold. rewrite Ext.
    unfold set_files. cbn [fst snd files fileStored].
    assert (trashPath storageDir s <> linkPath x) as NT by congruence.
    split; [reflexivity|].
    split; [rewrite lookup_insert_ne by exact NT; apply lookup_delete_eq|].
    split; [intros _; rewrite Ex; apply lookup_insert_eq|].
    split.
    { intros N. rewrite lookup_insert_ne by apply trashPath_not_link.
      now rewrite lookup_delete_ne by exact N. }
    apply Gone; cbn [files].
    + rewrite lookup_insert_ne by apply trashPath_not_destPath.
      rewrite lookup_delete_ne by exact NotDest. exact NoDirect.
    + rewrite lookup_insert_ne by exact NT. apply lookup_delete_eq.
    + rewrite lookup_insert_ne by apply trashPath_not_link.
      destruct (decide (linkPath x = destPath storageDir s +:+ ".link")) as [Eq | N].
      * right. rewrite <- Eq. apply lookup_delete_eq.
      * left. now rewrite lookup_delete_ne by exact N.
Qed.

End Disk.
End AccessFacts.

(** ** Storage: downloads from a bucket, end to end *)

Module DownloadFacts.
Import Storage StorageAccess StorageFacts IngestFacts.

Section Disk.
Context `{Runtime}.
Variable storageDir : LocalFilePath.

(** The locals and the disk when the data of a response has come in. *)
Lemma download_run expected size chunks rnd w :
  let tmp := storageDir +:+ "/store.file." +:+ rnd +:+ ".tmp" in
  let r := fold_left (onHttpEvent storageDir tmp expected size) (map HttpData chunks)
             ({| dl_shasum := []; dl_complete := false;
                 dl_ret := {| ds_size := Some size; ds_bytesLoaded := 0; ds_terminal := None |};
                 dl_bytesReceived := 0 |}, snd (createWriteStream tmp w)) in
  dl_complete (fst r) = false /\
  dl_shasum (fst r) = concat chunks /\
  dl_ret (fst r) = {| ds_size := Some size; ds_bytesLoaded := Z.of_nat (length (concat chunks));
                      ds_terminal := None |} /\
  files (snd r) = <[tmp := concat chunks]> (files w) /\
  fileStored (snd r) = fileStored w.
Proof.
  intros tmp.
  assert (forall chunks st w0 acc,
            dl_complete st = false ->
            files w0 !! tmp = Some acc ->
            let r := fold_left (onHttpEvent storageDir tmp expected size) (map HttpData chunks)
                       (st, w0) in
            dl_complete (fst r) = false /\
            dl_shasum (fst r) = dl_shasum st ++ concat chunks /\
            dl_ret (fst r)
              = producer_incrementBytes (Z.of_nat (length (concat chunks))) (dl_ret st) /\
            files (snd r) = <[tmp := acc ++ concat chunks]> (files w0) /\
            fileStored (snd r) = fileStored w0) as Gen.
  { clear chunks w. induction chunks as [|c rest IH]; intros st w0 acc C Acc r; subst r.
    - cbn [map fold_left fst snd concat length]. rewrite !app_nil_r.
      split; [exact C|]. split; [reflexivity|].
      split; [destruct (dl_ret st); unfold producer_incrementBytes; cbn; f_equal; lia|].
      split; [symmetry; now apply insert_id | reflexivity].
    - cbn [map fold_left].
      set (st1 := {| dl_shasum := dl_shasum st ++ c; dl_complete := false;
                     dl_ret := producer_incrementBytes (Z.of_nat (length c)) (dl_ret st);
                     dl_bytesReceived := dl_bytesReceived st + Z.of_nat (length c) |}).
      assert (onHttpEvent storageDir tmp expected size (st, w0) (HttpData c)
              = (st1, snd (streamWrite tmp c w0))) as Step.
      { unfold onHttpEvent. cbn [fst snd]. now rewrite C. }
      rewrite Step.
      assert (files (snd (streamWrite tmp c w0)) !! tmp = Some (acc ++ c)) as Acc1.
      { unfold streamWrite. exec_unfold. unfold set_files. cbn [snd files].
        rewrite lookup_alter_eq, Acc. reflexivity. }
      destruct (IH st1 _ (acc ++ c) eq_refl Acc1) as (I1 & I2 & I3 & I4 & I5).
      rewrite I1, I2, I3, I4, I5. subst st1. cbn [dl_shasum dl_ret concat].
      unfold streamWrite. exec_unfold. unfold set_files. cbn [snd files fileStored].
      rewrite <- !app_assoc, length_app.
      split; [reflexivity|]. split; [reflexivity|].
      split; [unfold producer_incrementBytes; cbn; f_equal; lia|].
      split; [|reflexivity].
      apply map_eq. intros k. destruct (decide (k = tmp)) as [-> | N].
      + now rewrite !lookup_insert_eq.
      + rewrite !lookup_insert_ne by congruence. apply lookup_alter_ne. congruence. }
  intros r. subst r.
  match goal with |- context [fold_left _ _ (?st0, ?w0)] =>
    destruct (Gen chunks st0 w0 [] eq_refl) as (G1 & G2 & G3 & G4 & G5)
  end.
  { unfold createWriteStream, writeFile. exec_unfold. unfold set_files. cbn [snd files].
    apply lookup_insert_eq. }
  rewrite G1, G2, G3, G4, G5.
  unfold createWriteStream, writeFile. exec_unfold. unfold set_files.
  cbn [snd files fileStored dl_shasum dl_ret app producer_incrementBytes ds_size ds_bytesLoaded
       ds_terminal].
  rewrite insert_insert_eq. repeat split; reflexivity.
Qed.

(** Once a download is complete, what still arrives only counts in the
    statistics. *)
Lemma download_complete tmp expected size events st w :
  dl_complete st = true ->
  let r := fold_left (onHttpEvent storageDir tmp expected size) events (st, w) in
  dl_complete (fst r) = true /\ dl_ret (fst r) = dl_ret st /\
  dl_shasum (fst r) = dl_shasum st /\ snd r = w.
Proof.
  revert st. induction events as [|ev rest IH]; intros st C r; subst r; [auto|].
  cbn [fold_left].
  assert (exists st', onHttpEvent storageDir tmp expected size (st, w) ev = (st', w) /\
                      dl_complete st' = true /\ dl_ret st' = dl_ret st /\
                      dl_shasum st' = dl_shasum st) as (st' & Step & C' & R' & S').
  { destruct ev as [data | err | | |]; unfold onHttpEvent; cbn [fst snd]; rewrite ?C;
      eexists; (split; [reflexivity|]); auto. }
  rewrite Step. destruct (IH st' C') as (I1 & I2 & I3 & I4).
  split; [exact I1|]. split; [congruence|]. split; [congruence | exact I4].
Qed.

(** The flag [complete] is set exactly when the returned stream has its
    terminal event. *)
Lemma download_terminal_iff_complete tmp expected size events st w :
  (dl_complete st = true <-> ds_terminal (dl_ret st) <> None) ->
  let r := fold_left (onHttpEvent storageDir tmp expected size) events (st, w) in
  dl_complete (fst r) = true <-> ds_terminal (dl_ret (fst r)) <> None.
Proof.
  revert st w. induction events as [|ev rest IH]; intros st w I r; subst r; [exact I|].
  cbn [fold_left]. destruct (dl_complete st) eqn:C.
  - destruct (download_complete tmp expected size (ev :: rest) st w C) as (D1 & D2 & _).
    cbn [fold_left] in D1, D2. rewrite D1, D2. exact I.
  - assert (ds_terminal (dl_ret st) = None) as T.
    { destruct (ds_terminal (dl_ret st)) eqn:E; [|reflexivity].
      assert (false = true) by (apply I; discriminate). discriminate. }
    assert (forall t, let st' := {| dl_shasum := dl_shasum st; dl_complete := true;
                                    dl_ret := producer_terminate t (dl_ret st);
                                    dl_bytesReceived := dl_bytesReceived st |} in
                      dl_complete st' = true <-> ds_terminal (dl_ret st') <> None) as Term.
    { intros t st'. subst st'. cbn [dl_complete dl_ret]. unfold producer_terminate.
      rewrite T. cbn [ds_terminal]. split; [discriminate | reflexivity]. }
    assert (exists (st' : Download) (w' : World), onHttpEvent storageDir tmp expected size (st, w) ev = (st', w') /\
              (dl_complete st' = true <-> ds_terminal (dl_ret st') <> None))
      as (st' & w' & Step & I').
    { destruct ev as [data | err | | |]; unfold onHttpEvent; cbn [fst snd]; rewrite ?C.
      - do 2 eexists. split; [reflexivity|].
        cbn [dl_complete dl_ret producer_incrementBytes ds_terminal]. rewrite T.
        split; [discriminate | congruence].
      - do 2 eexists. split; [reflexivity | apply Term].
      - destruct (negb _); [do 2 eexists; split; [reflexivity | apply Term]|].
        destruct (existsSync _ _); [do 2 eexists; split; [reflexivity | apply Term]|].
        destruct (renameAndCheck _ _ _ _) as [[[]|e] w1];
          do 2 eexists; (split; [reflexivity | apply Term]).
      - do 2 eexists. split; [reflexivity | apply Term].
      - do 2 eexists. split; [reflexivity|]. rewrite C, T. split; [discriminate | congruence]. }
    rewrite Step. apply IH, I'.
Qed.

(** X19. A download whose bytes hash to the hash asked for, with the
    length the response announced, under a free content path: the
    returned stream ends without error, the bytes are installed under the
    hash, the temporary file is gone, nothing else on the disk changes,
    the observers are told, and the lookup finds the file; what the socket
    does after the end of the response changes none of this. *)
Theorem storeFileFromBucketUrl_round_trip
    (chunks : list Buffer) (more : list HttpEvent) (rnd : string) (w : World) :
  let d := concat chunks in
  let sha := sha1Hex d in
  let tmp := storageDir +:+ "/store.file." +:+ rnd +:+ ".tmp" in
  JS.truthy sha = true ->
  files w !! destPath storageDir sha = None ->
  let r := storeFileFromBucketUrl storageDir sha (Z.of_nat (length d))
             (map HttpData chunks ++ HttpEnd :: more) rnd w in
  ds_terminal (dl_ret (fst r)) = Some Ended /\
  ds_bytesLoaded (dl_ret (fst r)) = Z.of_nat (length d) /\
  files (snd r) = <[destPath storageDir sha := d]> (delete tmp (files w)) /\
  fileStored (snd r) = fileStored w ++ [sha] /\
  findFile storageDir (snd r) (sha1Key sha)
    = {| found := true; size := Z.of_nat (length d);
         localFilePath := Some (destPath storageDir sha) |}.
Proof.
  intros d sha tmp T Free r. subst r. unfold storeFileFromBucketUrl. fold tmp.
  rewrite fold_left_app.
  pose proof (download_run sha (Z.of_nat (length d)) chunks rnd w) as DR.
  cbv zeta in DR. fold tmp in DR. fold d in DR. destruct DR as (C & S & R & Fl & Fs).
  destruct (fold_left _ (map HttpData chunks) _) as [st1 w1].
  cbn [fst snd] in C, S, R, Fl, Fs. cbn [fold_left].
  assert (tmp <> destPath storageDir sha) as Ne by apply storeTmp_not_destPath.
  assert (onHttpEvent storageDir tmp sha (Z.of_nat (length d)) (st1, w1) HttpEnd
          = ({| dl_shasum := d; dl_complete := true;
                dl_ret := producer_terminate Ended (dl_ret st1);
                dl_bytesReceived := dl_bytesReceived st1 |},
             {| files := <[destPath storageDir sha := d]> (delete tmp (files w));
                fileStored := fileStored w ++ [sha] |})) as End.
  { unfold onHttpEvent. cbn [fst snd]. rewrite C, S. fold d. fold sha.
    rewrite String.eqb_refl. cbn [negb].
    rewrite existsSync_None by (rewrite Fl, lookup_insert_ne by exact Ne; exact Free).
    rewrite (renameAndCheck_moves w1 tmp _ d) by (rewrite Fl; apply lookup_insert_eq).
    unfold _reportDone. rewrite cleanup_world.
    unfold _reportFileStored, Exec.modify, set_files. cbn [snd files fileStored].
    rewrite Fl, Fs, ?S. rewrite delete_insert_ne by exact Ne.
    rewrite delete_delete_eq, delete_insert_eq. reflexivity. }
  rewrite End.
  match goal with |- context [fold_left _ more (?st2, ?w2)] =>
    destruct (download_complete tmp sha (Z.of_nat (length d)) more st2 w2 eq_refl)
      as (_ & D2 & _ & D4)
  end.
  rewrite D2, D4. cbn [dl_ret files fileStored]. rewrite R.
  unfold producer_terminate. cbn [ds_terminal ds_bytesLoaded].
  repeat split. apply findFile_direct; [exact T | cbn [files]; apply lookup_insert_eq].
Qed.

Lemma download_interrupted
    (expected : Sha1Hash) (size : Z) (chunks : list Buffer) (ev : HttpEvent)
    (more : list HttpEvent) (rnd : string) (w : World) (err : StorageError) :
  ev = HttpError err \/ (ev = SocketClose /\ err = SocketClosed) ->
  let tmp := storageDir +:+ "/store.file." +:+ rnd +:+ ".tmp" in
  let r := storeFileFromBucketUrl storageDir expected size
             (map HttpData chunks ++ ev :: more) rnd w in
  ds_terminal (dl_ret (fst r)) = Some (Errored err) /\
  files (snd r) = delete tmp (files w) /\
  fileStored (snd r) = fileStored w.
Proof.
  intros Ev tmp r. subst r. unfold storeFileFromBucketUrl. fold tmp.
  rewrite fold_left_app.
  pose proof (download_run expected size chunks rnd w) as DR.
  cbv zeta in DR. fold tmp in DR. destruct DR as (C & S & R & Fl & Fs).
  destruct (fold_left _ (map HttpData chunks) _) as [st1 w1].
  cbn [fst snd] in C, S, R, Fl, Fs. cbn [fold_left].
  assert (onHttpEvent storageDir tmp expected size (st1, w1) ev
          = _reportError tmp err st1 w1) as Step.
  { destruct Ev as [-> | [-> ->]]; unfold onHttpEvent; cbn [fst snd]; now rewrite C. }
  rewrite Step. unfold _reportError.
  match goal with |- context [fold_left _ more (?st2, ?w2)] =>
    destruct (download_complete tmp expected size more st2 w2 eq_refl) as (_ & D2 & _ & D4)
  end.
  rewrite D2, D4, cleanup_world. cbn [dl_ret files fileStored]. rewrite R, Fl, Fs.
  unfold producer_terminate. cbn [ds_terminal]. rewrite delete_insert_eq. repeat split.
Qed.

(** X20. A download cut short, by an error of the response or by the
    socket closing before the response ended: the returned stream ends in
    that error, the temporary file is removed, nothing else on the disk
    changes, and the observers are not told; what arrives afterwards is
    ignored. *)
Theorem storeFileFromBucketUrl_interrupted
    (expected : Sha1Hash) (size : Z) (chunks : list Buffer) (more : list HttpEvent)
    (rnd : string) (w : World) :
  let tmp := storageDir +:+ "/store.file." +:+ rnd +:+ ".tmp" in
  let run := fun ev => storeFileFromBucketUrl storageDir expected size
                         (map HttpData chunks ++ ev :: more) rnd w in
  (forall err,
     ds_terminal (dl_ret (fst (run (HttpError err)))) = Some (Errored err) /\
     files (snd (run (HttpError err))) = delete tmp (files w) /\
     fileStored (snd (run (HttpError err))) = fileStored w) /\
  ds_terminal (dl_ret (fst (run SocketClose))) = Some (Errored SocketClosed) /\
  files (snd (run SocketClose)) = delete tmp (files w) /\
  fileStored (snd (run SocketClose)) = fileStored w.
Proof.
  intros tmp run. subst run. cbv beta. split.
  - intros err. apply download_interrupted. now left.
  - apply download_interrupted. now right.
Qed.

(** X21. The returned stream gets its terminal event once: when a
    download has ended, in success or in error, no later event of the
    response or the socket changes the stream, the disk or what the
    observers were told. *)
Theorem storeFileFromBucketUrl_settles_once
    (expected : Sha1Hash) (size : Z) (events more : list HttpEvent) (rnd : string) (w : World) :
  let r := storeFileFromBucketUrl storageDir expected size events rnd w in
  let r' := storeFileFromBucketUrl storageDir expected size (events ++ more) rnd w in
  ds_terminal (dl_ret (fst r)) <> None ->
  dl_ret (fst r') = dl_ret (fst r) /\ snd r' = snd r.
Proof.
  intros r r' Done. subst r r'. revert Done. unfold storeFileFromBucketUrl.
  rewrite fold_left_app.
  set (tmp := storageDir +:+ "/store.file." +:+ rnd +:+ ".tmp").
  match goal with |- context [fold_left _ events (?st0, ?w0)] =>
    pose proof (download_terminal_iff_complete tmp expected size events st0 w0) as Inv;
    destruct (fold_left (onHttpEvent storageDir tmp expected size) events (st0, w0))
      as [st1 w1] eqn:Run
  end.
  cbn [fst snd dl_complete dl_ret ds_terminal] in *.
  intros Done. assert (dl_complete st1 = true) as C.
  { apply Inv; [split; [discriminate | congruence] | exact Done]. }
  destruct (download_complete tmp expected size more st1 w1 C) as (_ & D2 & _ & D4).
  split; assumption.
Qed.

End Disk.
End DownloadFacts.

(** ** Subfeed: what an append keeps and what it does not check *)

Module NumberingFacts.
Import Subfeed SubfeedReads SubfeedFacts AppendFacts.

Section Append.
Context {L : Type} `{SignatureVerifier} `{LocalFeedManagerInterface L}.

Lemma numbered_snoc ms sm :
  numbered ms -> messageNumber (body sm) = Z.of_nat (length ms) -> numbered (ms ++ [sm]).
Proof.
  intros N E i x Hx. apply lookup_app_Some in Hx as [Hx | [Hi Hx]]; [now apply N|].
  destruct (i - length ms)%nat as [|j] eqn:D; [|discriminate].
  simpl in Hx. inversion Hx; subst x. rewrite E. f_equal. lia.
Qed.

Lemma numbered_last ms :
  numbered ms ->
  lastMessageNumber ms = if decide (ms = []) then None else Some (Z.of_nat (length ms) - 1).
Proof.
  intros N. unfold lastMessageNumber. destruct (last ms) as [sm|] eqn:La.
  - apply last_Some in La as [l' ->]. rewrite decide_False by (destruct l'; discriminate).
    rewrite (N (length l') sm).
    + rewrite length_app. simpl. f_equal. lia.
    + rewrite lookup_app_r by lia. now rewrite Nat.sub_diag.
  - apply last_None in La. subst ms. reflexivity.
Qed.

(** One pass of the append loop: the list grows by a selection of the
    batch, in the batch's order, and stays numbered. *)
Lemma fold_pushIfNext_numbered batch ms :
  numbered ms ->
  exists added : list SignedSubfeedMessage,
    fold_left pushIfNext batch ms = ms ++ added /\
    sublist added batch /\
    numbered (ms ++ added).
Proof.
  revert ms. induction batch as [|a rest IH]; intros ms N; simpl.
  - exists []. rewrite app_nil_r. split; [reflexivity|]. split; [constructor | exact N].
  - unfold pushIfNext at 2. destruct (messageNumber (body a) =? Z.of_nat (length ms)) eqn:E.
    + apply Z.eqb_eq in E.
      destruct (IH (ms ++ [a]) (numbered_snoc ms a N E)) as (added & F & S & N').
      exists (a :: added). rewrite F, <- !app_assoc. split; [reflexivity|].
      split; [now constructor|]. rewrite <- app_assoc in N'. exact N'.
    + destruct (IH ms N) as (added & F & S & N').
      exists added. split; [exact F|]. split; [now constructor | exact N'].
Qed.

(** A batch that continues the list is appended whole. *)
Lemma fold_pushIfNext_continues batch ms :
  consecutiveFrom (Z.of_nat (length ms)) batch ->
  fold_left pushIfNext batch ms = ms ++ batch.
Proof.
  revert ms. induction batch as [|a rest IH]; intros ms C; simpl; [now rewrite app_nil_r|].
  unfold pushIfNext at 2. rewrite (C 0%nat a eq_refl), Z.add_0_r, Z.eqb_refl.
  rewrite IH, <- app_assoc; [reflexivity|].
  intros i sm Hi. rewrite (C (S i) sm Hi), length_app. simpl. lia.
Qed.

Lemma fold_pushIfNext_overlap (k : Z) batch ms :
  0 <= k <= Z.of_nat (length ms) ->
  consecutiveFrom k batch ->
  fold_left pushIfNext batch ms = ms ++ drop (Z.to_nat (Z.of_nat (length ms) - k)) batch.
Proof.
  intros Hk C. set (n := Z.to_nat (Z.of_nat (length ms) - k)).
  rewrite <- (take_drop n batch) at 1. rewrite fold_left_app.
  rewrite (fold_pushIfNext_none (take n batch) ms).
  - apply fold_pushIfNext_continues. intros i sm Hi. rewrite lookup_drop in Hi.
    rewrite (C _ _ Hi). subst n. lia.
  - apply Forall_forall. intros sm Hsm. apply list_elem_of_lookup_1 in Hsm as [i Hi].
    pose proof (lookup_lt_Some _ _ _ Hi) as Lt. rewrite length_take in Lt.
    rewrite lookup_take_lt in Hi by lia. rewrite (C _ _ Hi). subst n. lia.
Qed.


Lemma checkFirstAppendNumber_passes existing batch (k : Z) :
  numbered existing ->
  consecutiveFrom k batch ->
  0 <= k <= Z.of_nat (length existing) ->
  checkFirstAppendNumber existing batch = Returns tt.
Proof.
  intros N C Hk. unfold checkFirstAppendNumber.
  destruct batch as [|a rest]; [reflexivity|]. cbn [firstMessageNumber].
  rewrite (C 0%nat a eq_refl), Z.add_0_r, (numbered_last existing N).
  destruct (decide (existing = [])) as [-> | Ne].
  - simpl in Hk. replace k with 0 by lia. reflexivity.
  - destruct (k >? Z.of_nat (length existing) - 1 + 1) eqn:G; [|reflexivity].
    apply Z.gtb_lt in G. lia.
Qed.

Lemma addSignedMessages_consecutive_run
    (existing batch : list SignedSubfeedMessage) (k : Z) (l' : L) (this : Manager L) :
  signedMessages this = Some existing ->
  numbered existing ->
  consecutiveFrom k batch ->
  0 <= k <= Z.of_nat (length existing) ->
  addSignedMessagesToSubfeed (localFeedManager this) (feedId this) (subfeedHash this) batch
    = Returns l' ->
  addSignedMessages batch this
  = (Returns tt,
     set_signedMessages
       (Some (existing ++ drop (Z.to_nat (Z.of_nat (length existing) - k)) batch))
       (set_localFeedManager l' this)).
Proof.
  intros Cache N C Hk Log. unfold addSignedMessages. exec_unfold. rewrite Cache.
  rewrite (checkFirstAppendNumber_passes existing batch k N C Hk), Log.
  rewrite (fold_pushIfNext_overlap k batch existing Hk C). reflexivity.
Qed.

(** X22. An append keeps the in-memory list numbered: after a call that
    returns, the list is the old list followed by messages of the batch,
    in the batch's order, and the message at every index carries that
    index as its number, so that [getSignedMessage(i)] returns message
    number [i]; a call that throws leaves the manager as it was. *)
Theorem addSignedMessages_keeps_numbering
    (this : Manager L) (existing batch : list SignedSubfeedMessage) :
  signedMessages this = Some existing ->
  numbered existing ->
  (forall this1, addSignedMessages batch this = (Returns tt, this1) ->
     exists added : list SignedSubfeedMessage,
       signedMessages this1 = Some (existing ++ added) /\
       sublist added batch /\
       numbered (existing ++ added) /\
       forall i sm, getSignedMessage i this1 = (Returns (Some sm), this1) ->
         messageNumber (body sm) = i) /\
  (forall e this1, addSignedMessages batch this = (Throws e, this1) -> this1 = this).
Proof.
  intros Cache N. unfold addSignedMessages. exec_unfold. rewrite Cache.
  destruct (checkFirstAppendNumber existing batch) as [[]|e0].
  2:{ split; intros; congruence. }
  destruct (addSignedMessagesToSubfeed _ _ _ batch) as [l1|e1].
  2:{ split; intros; congruence. }
  split; [|intros; discriminate].
  intros this1 Run. inversion Run; subst this1; clear Run.
  destruct (fold_pushIfNext_numbered batch existing N) as (added & F & S & N').
  exists added. cbn [signedMessages set_signedMessages]. rewrite F.
  split; [reflexivity|]. split; [exact S|]. split; [exact N'|].
  intros i sm. unfold getSignedMessage. exec_unfold. cbn [signedMessages set_signedMessages].
  intros G. inversion G as [G'].
  destruct (i <? 0) eqn:Neg; [discriminate|]. apply Z.ltb_ge in Neg.
  rewrite (N' _ _ G'). lia.
Qed.

(** X23. A batch with consecutive numbers that starts inside or right
    after the list: the messages the list already has are skipped and the
    rest is appended, so the list becomes the old list followed by the
    batch without its first [length - k] messages. *)
Theorem addSignedMessages_consecutive_batch
    (this : Manager L) (existing batch : list SignedSubfeedMessage) (k : Z) (l' : L) :
  signedMessages this = Some existing ->
  numbered existing ->
  consecutiveFrom k batch ->
  0 <= k <= Z.of_nat (length existing) ->
  addSignedMessagesToSubfeed (localFeedManager this) (feedId this) (subfeedHash this) batch
    = Returns l' ->
  addSignedMessages batch this
  = (Returns tt,
     set_signedMessages
       (Some (existing ++ drop (Z.to_nat (Z.of_nat (length existing) - k)) batch))
       (set_localFeedManager l' this)).
Proof. intros. now apply addSignedMessages_consecutive_run. Qed.

(** X24. A batch that would leave a gap is refused before the backing log
    is asked: when the first number of the batch is beyond the length of
    the list, or is not 0 for an empty list, the call throws and the
    manager, backing log included, is as before. *)
Theorem addSignedMessages_refuses_a_gap
    (this : Manager L) (existing batch : list SignedSubfeedMessage) (first : Z) :
  signedMessages this = Some existing ->
  numbered existing ->
  firstMessageNumber batch = Some first ->
  Z.of_nat (length existing) < first \/ (existing = [] /\ first <> 0) ->
  addSignedMessages batch this
  = (Throws (if decide (existing = []) then FirstMessageNumberNotZero
             else UnexpectedFirstMessageNumber first (Z.of_nat (length existing))),
     this).
Proof.
  intros Cache N First Gap. unfold addSignedMessages. exec_unfold. rewrite Cache.
  unfold checkFirstAppendNumber. rewrite First, (numbered_last existing N).
  destruct (decide (existing = [])) as [-> | Ne].
  - simpl in Gap. destruct (first =? 0) eqn:E; [apply Z.eqb_eq in E; lia | reflexivity].
  - destruct Gap as [Gap | [E _]]; [|congruence].
    destruct (first >? Z.of_nat (length existing) - 1 + 1) eqn:G.
    + replace (Z.of_nat (length existing) - 1 + 1) with (Z.of_nat (length existing)) by lia.
      reflexivity.
    + rewrite Z.gtb_ltb in G. apply Z.ltb_ge in G. lia.
Qed.

Lemma verifyMessages_bad_last pk prev n ms sm :
  verifySignature (body sm) pk (signature sm) = false ->
  exists e, verifyMessages pk prev n (ms ++ [sm]) = Throws e.
Proof.
  intros Bad. revert prev n. induction ms as [|a rest IH]; intros prev n; simpl.
  - rewrite Bad. simpl. eauto.
  - destruct (verifySignature (body a) pk (signature a)); simpl; [|eauto].
    destruct (JS.strict_eq _ _); simpl; [|eauto].
    destruct (_ =? _); simpl; [|eauto]. apply IH.
Qed.

(** X25. An append does not verify what it appends: a message with the
    next number is taken into the list even when its signature does not
    verify; a load from a backing log that holds the resulting list then
    throws. *)
Theorem addSignedMessages_does_not_verify
    (this : Manager L) (existing : list SignedSubfeedMessage) (sm : SignedSubfeedMessage)
    (l' : L) :
  signedMessages this = Some existing ->
  numbered existing ->
  messageNumber (body sm) = Z.of_nat (length existing) ->
  verifySignature (body sm) (publicKey this) (signature sm) = false ->
  addSignedMessagesToSubfeed (localFeedManager this) (feedId this) (subfeedHash this) [sm]
    = Returns l' ->
  getSignedSubfeedMessages l' (feedId this) (subfeedHash this) = Returns (existing ++ [sm]) ->
  let this1 := set_signedMessages (Some (existing ++ [sm])) (set_localFeedManager l' this) in
  addSignedMessages [sm] this = (Returns tt, this1) /\
  exists e, initializeFromLocal this1 = (Throws e, this1).
Proof.
  intros Cache N Num Bad Log Get this1. subst this1. split.
  - assert (consecutiveFrom (Z.of_nat (length existing)) [sm]) as C.
    { intros [|i] x Hx; simpl in Hx; [|discriminate]. inversion Hx; subst x. lia. }
    rewrite (addSignedMessages_consecutive_run existing [sm] (Z.of_nat (length existing)) l'
               this Cache N C ltac:(lia) Log).
    rewrite Z.sub_diag. reflexivity.
  - unfold initializeFromLocal. exec_unfold.
    cbn [localFeedManager feedId subfeedHash publicKey set_signedMessages set_localFeedManager].
    rewrite Get.
    destruct (verifyMessages_bad_last (publicKey this) None (-1) existing sm Bad) as [e ->].
    eauto.
Qed.

End Append.
End NumberingFacts.

(** ** Hub: subscriptions, feeds and upload statuses *)

Module FeedFacts.
Import Hub HubFeeds WaiterFacts ChannelFacts.

Lemma find_app {A : Type} (f : A -> bool) (l l' : list A) :
  find f (l ++ l') = match find f l with Some x => Some x | None => find f l' end.
Proof. induction l as [|a l IH]; [reflexivity|]. simpl. destruct (f a); [reflexivity | exact IH]. Qed.

Lemma find_none_of {A : Type} (f : A -> bool) (l : list A) :
  (forall x, In x l -> f x = false) -> find f l = None.
Proof.
  induction l as [|a l IH]; intros Hf; [reflexivity|]. simpl.
  rewrite (Hf a (or_introl eq_refl)). apply IH. intros x Hx. apply Hf. now right.
Qed.

Lemma doInitialize_clients config st :
  pubsubClients (_doInitialize (Some config) st)
  = pubsubClients (fold_left initTurn (memberships config) st) /\
  published (_doInitialize (Some config) st)
  = published (fold_left initTurn (memberships config) st) /\
  nodeConfig (_doInitialize (Some config) st) = Some config.
Proof. repeat split. Qed.

Lemma client_eq st st' name :
  pubsubClients st' = pubsubClients st ->
  getPubsubClientForChannel st' name = getPubsubClientForChannel st name.
Proof. intros E. unfold getPubsubClientForChannel. now rewrite E. Qed.

Lemma create_client name subs st name' :
  getPubsubClientForChannel (createPubsubClientForChannel name subs st) name'
  = match getPubsubClientForChannel st name' with
    | Some c => Some c
    | None => if String.eqb name name' then Some subs else None
    end.
Proof.
  unfold createPubsubClientForChannel.
  destruct (getPubsubClientForChannel st name) as [c|] eqn:G.
  - destruct (getPubsubClientForChannel st name') as [c'|] eqn:G'; [reflexivity|].
    destruct (String.eqb name name') eqn:E; [|reflexivity].
    apply String.eqb_eq in E. congruence.
  - unfold getPubsubClientForChannel in *. cbn [pubsubClients].
    rewrite find_app.
    destruct (find (fun c => String.eqb (fst c) name') (pubsubClients st)) as [c'|];
      [reflexivity|].
    cbn [find fst snd]. destruct (String.eqb name name'); reflexivity.
Qed.

Lemma initTurn_client st cm name :
  getPubsubClientForChannel (initTurn st cm) name
  = match getPubsubClientForChannel st name with
    | Some c => Some c
    | None =>
        match authorization cm with
        | Some au =>
            if String.eqb (channelName cm) name then Some (subscribeToPubsubChannels cm au)
            else None
        | None => None
        end
    end.
Proof.
  unfold initTurn. destruct (authorization cm) as [au|]; [apply create_client|].
  destruct (getPubsubClientForChannel st name); reflexivity.
Qed.

Lemma initTurn_published st cm : published (initTurn st cm) = published st.
Proof.
  unfold initTurn, createPubsubClientForChannel.
  destruct (authorization cm); [|reflexivity].
  destruct (getPubsubClientForChannel st (channelName cm)); reflexivity.
Qed.

Lemma init_published cms st : published (fold_left initTurn cms st) = published st.
Proof.
  revert st. induction cms as [|cm rest IH]; intros st; simpl; [reflexivity|].
  now rewrite IH, initTurn_published.
Qed.

Lemma init_subfeedRequests cms st :
  subfeedRequests (fold_left initTurn cms st) = subfeedRequests st.
Proof.
  revert st. induction cms as [|cm rest IH]; intros st; simpl; [reflexivity|].
  rewrite IH. unfold initTurn, createPubsubClientForChannel.
  destruct (authorization cm); [|reflexivity].
  destruct (getPubsubClientForChannel st (channelName cm)); reflexivity.
Qed.

(** A client, once made, stays as it was made. *)
Lemma init_keeps_client cms st name c :
  getPubsubClientForChannel st name = Some c ->
  getPubsubClientForChannel (fold_left initTurn cms st) name = Some c.
Proof.
  revert st. induction cms as [|cm rest IH]; intros st G; simpl; [exact G|].
  apply IH. now rewrite initTurn_client, G.
Qed.

(** Every membership with an authorization has a client afterwards. *)
Lemma init_has_client cms st cm au :
  In cm cms -> authorization cm = Some au ->
  is_Some (getPubsubClientForChannel (fold_left initTurn cms st) (channelName cm)).
Proof.
  revert st. induction cms as [|a rest IH]; intros st Hin Au; [destruct Hin|].
  destruct Hin as [-> | In1]; simpl.
  - assert (is_Some (getPubsubClientForChannel (initTurn st cm) (channelName cm))) as [c Hc].
    { rewrite initTurn_client, Au, String.eqb_refl.
      destruct (getPubsubClientForChannel st (channelName cm)); eauto. }
    rewrite (init_keeps_client rest _ _ c Hc). eauto.
  - now apply IH.
Qed.

(** With one membership for a channel name, the client of the channel is
    the one made for that membership. *)
Lemma init_client cms st name :
  NoDup (map channelName cms) ->
  getPubsubClientForChannel st name = None ->
  getPubsubClientForChannel (fold_left initTurn cms st) name
  = match find (fun cm => String.eqb (channelName cm) name) cms with
    | Some cm =>
        match authorization cm with
        | Some au => Some (subscribeToPubsubChannels cm au)
        | None => None
        end
    | None => None
    end.
Proof.
  revert st. induction cms as [|cm rest IH]; intros st ND G; simpl; [exact G|].
  inversion ND as [|? ? NotIn ND']; subst.
  destruct (String.eqb (channelName cm) name) eqn:E.
  - apply String.eqb_eq in E.
    assert (find (fun cm0 => String.eqb (channelName cm0) name) rest = None) as NoOther.
    { apply find_none_of. intros x Hx. apply String.eqb_neq. intros Ex.
      apply NotIn. rewrite E, <- Ex. apply list_elem_of_In. now apply in_map. }
    destruct (authorization cm) as [au|] eqn:Au.
    + apply init_keeps_client. now rewrite initTurn_client, G, Au, E, String.eqb_refl.
    + rewrite IH; [now rewrite NoOther | exact ND' |].
      now rewrite initTurn_client, G, Au.
  - apply IH; [exact ND'|]. rewrite initTurn_client, G, E. now destruct (authorization cm).
Qed.

(** The four pubsub channels of a channel differ, so a subscription list
    holds [<ch>-provideFeeds] exactly for the role and the permission
    [requestFeeds], and [<ch>-requestFeeds] exactly for [provideFeeds]. *)
Lemma subscribed_provideFeeds cm au :
  In (channelName cm +:+ "-provideFeeds") (subscribeToPubsubChannels cm au)
  <-> requestFeeds (permissions au) && requestFeeds (roles cm) = true.
Proof.
  unfold subscribeToPubsubChannels. rewrite !in_app_iff.
  destruct (requestFiles (permissions au) && requestFiles (roles cm)),
           (provideFiles (permissions au) && provideFiles (roles cm)),
           (requestFeeds (permissions au) && requestFeeds (roles cm)),
           (provideFeeds (permissions au) && provideFeeds (roles cm));
    cbn [In]; split; intros Hyp; try reflexivity; try discriminate; try tauto;
    repeat match goal with
           | D : _ \/ _ |- _ => destruct D as [D | D]
           | D : False |- _ => destruct D
           | D : _ +:+ _ = _ +:+ _ |- _ => apply String.app_inj in D; discriminate D
           end.
Qed.

Lemma subscribed_requestFeeds cm au :
  In (channelName cm +:+ "-requestFeeds") (subscribeToPubsubChannels cm au)
  <-> provideFeeds (permissions au) && provideFeeds (roles cm) = true.
Proof.
  unfold subscribeToPubsubChannels. rewrite !in_app_iff.
  destruct (requestFiles (permissions au) && requestFiles (roles cm)),
           (provideFiles (permissions au) && provideFiles (roles cm)),
           (requestFeeds (permissions au) && requestFeeds (roles cm)),
           (provideFeeds (permissions au) && provideFeeds (roles cm));
    cbn [In]; split; intros Hyp; try reflexivity; try discriminate; try tauto;
    repeat match goal with
           | D : _ \/ _ |- _ => destruct D as [D | D]
           | D : False |- _ => destruct D
           | D : _ +:+ _ = _ +:+ _ |- _ => apply String.app_inj in D; discriminate D
           end.
Qed.


Lemma channelNamesToAsk_filter config :
  channelNamesToAsk config = map channelName (List.filter wantsFeeds (memberships config)).
Proof.
  unfold channelNamesToAsk. induction (memberships config) as [|cm rest IH]; [reflexivity|].
  cbn [flat_map List.filter]. rewrite IH. unfold wantsFeeds at 2.
  destruct (requestFeeds (roles cm)); [|reflexivity].
  destruct (authorization cm) as [au|]; [|reflexivity].
  destruct (requestFeeds (permissions au)); reflexivity.
Qed.

(** Publishing to channels that all have a client. *)
Lemma publish_to_all (suffix : string) (body : KacheryHubPubsubMessageBody) names st :
  (forall n, In n names -> is_Some (getPubsubClientForChannel st n)) ->
  published (fold_left (fun s name => _publishMessageToPubsubChannel name (name +:+ suffix) body s)
               names st)
  = published st ++ map (fun name => (name +:+ suffix, body)) names.
Proof.
  revert st. induction names as [|n rest IH]; intros st Has; simpl; [now rewrite app_nil_r|].
  rewrite IH.
  - unfold _publishMessageToPubsubChannel at 1.
    destruct (Has n (or_introl eq_refl)) as [c ->]. cbn [published].
    now rewrite <- app_assoc.
  - intros m Hm. rewrite (client_eq st); [apply Has; now right|].
    apply publish_keeps_clients.
Qed.

Lemma find_the_one (cms : list NodeChannelMembership) cm :
  NoDup (map channelName cms) -> In cm cms ->
  find (fun x => String.eqb (channelName x) (channelName cm)) cms = Some cm.
Proof.
  induction cms as [|a rest IH]; intros ND Hin; [destruct Hin|].
  inversion ND as [|? ? NotIn ND']; subst. simpl.
  destruct Hin as [-> | Hin]; [now rewrite String.eqb_refl|].
  destruct (String.eqb (channelName a) (channelName cm)) eqn:E; [|now apply IH].
  apply String.eqb_eq in E. exfalso. apply NotIn. rewrite E.
  apply list_elem_of_In. now apply in_map.
Qed.

Lemma subscribed_requestFiles cm au :
  In (channelName cm +:+ "-requestFiles") (subscribeToPubsubChannels cm au)
  <-> provideFiles (permissions au) && provideFiles (roles cm) = true.
Proof.
  unfold subscribeToPubsubChannels. rewrite !in_app_iff.
  destruct (requestFiles (permissions au) && requestFiles (roles cm)),
           (provideFiles (permissions au) && provideFiles (roles cm)),
           (requestFeeds (permissions au) && requestFeeds (roles cm)),
           (provideFeeds (permissions au) && provideFeeds (roles cm));
    cbn [In]; split; intros Hyp; try reflexivity; try discriminate; try tauto;
    repeat match goal with
           | D : _ \/ _ |- _ => destruct D as [D | D]
           | D : False |- _ => destruct D
           | D : _ +:+ _ = _ +:+ _ |- _ => apply String.app_inj in D; discriminate D
           end.
Qed.

(** Initialization calls no callback. *)
Lemma init_callbacks cms st :
  fileRequests (fold_left initTurn cms st) = fileRequests st /\
  countUpdates (fold_left initTurn cms st) = countUpdates st.
Proof.
  revert st. induction cms as [|cm rest IH]; intros st; simpl; [split; reflexivity|].
  destruct (IH (initTurn st cm)) as [-> ->]. unfold initTurn, createPubsubClientForChannel.
  destruct (authorization cm); [|split; reflexivity].
  destruct (getPubsubClientForChannel st (channelName cm)); split; reflexivity.
Qed.

(** After initialization a channel has a client exactly when one of the
    memberships of that name has an authorization. *)
Lemma init_client_exists cms st name :
  getPubsubClientForChannel st name = None ->
  is_Some (getPubsubClientForChannel (fold_left initTurn cms st) name)
  <-> existsb (fun cm => String.eqb (channelName cm) name &&
                         bool_decide (is_Some (authorization cm))) cms = true.
Proof.
  revert st. induction cms as [|cm rest IH]; intros st G; simpl.
  - rewrite G. split; [intros [? ?]; discriminate | discriminate].
  - pose proof (initTurn_client st cm name) as Turn. rewrite G in Turn.
    destruct (authorization cm) as [au|] eqn:Au.
    + destruct (String.eqb (channelName cm) name) eqn:E.
      * rewrite (init_keeps_client rest _ _ _ Turn).
        rewrite bool_decide_eq_true_2 by eauto. cbn [andb orb]. split; eauto.
      * cbn [andb orb]. apply IH, Turn.
    + rewrite bool_decide_eq_false_2 by (intros [? ?]; discriminate).
      rewrite andb_false_r. cbn [orb]. apply IH, Turn.
Qed.

(** X2. An incoming [requestFile] and the subscriptions, for a node
    initialized from a configuration in which no two memberships share a
    channel name.  The handler asks neither for the role nor for the
    permission [provideFiles]: the message is handed to the callbacks
    exactly when it came on [<ch>-requestFiles] and the membership of the
    channel has a bucket URI.  But the node listens on [<ch>-requestFiles]
    only with that role and that permission: a [requestFile] that arrives
    on a pubsub channel the node subscribed to belongs to a membership
    that has both, and is handed on exactly when that membership has a
    bucket URI. *)
Theorem requestFile_dispatch_on_subscription
    (config : NodeConfig) (channel pubsubChannel : string) (from : NodeId)
    (fileKey : FileKey) :
  NoDup (map channelName (memberships config)) ->
  let st := _doInitialize (Some config) initialHub in
  let st' := _handleKacheryHubPubsubMessage
               {| in_channelName := channel; in_pubsubChannelName := pubsubChannel;
                  in_fromNodeId := from; in_message := RequestFile fileKey |} st in
  (fileRequests st' = [(fileKey, channel, from)] \/ fileRequests st' = []) /\
  (fileRequests st' = [(fileKey, channel, from)] <->
   pubsubChannel = channel +:+ "-requestFiles" /\
   exists cm uri, In cm (memberships config) /\ channelName cm = channel /\
     channelBucketUri cm = Some uri /\ JS.truthy uri = true) /\
  (forall subscribed,
     getPubsubClientForChannel st channel = Some subscribed ->
     In pubsubChannel subscribed ->
     pubsubChannel = channel +:+ "-requestFiles" ->
     exists cm au, In cm (memberships config) /\ channelName cm = channel /\
       authorization cm = Some au /\
       provideFiles (roles cm) = true /\ provideFiles (permissions au) = true /\
       (fileRequests st' = [(fileKey, channel, from)] <->
        exists uri, channelBucketUri cm = Some uri /\ JS.truthy uri = true)).
Proof.
  intros ND st st'. subst st'.
  destruct (doInitialize_clients config initialHub) as (Cl & Pub & Cfg).
  fold st in Cl, Pub, Cfg.
  assert (fileRequests st = []) as Empty.
  { change (fileRequests st)
      with (fileRequests (fold_left initTurn (memberships config) initialHub)).
    now rewrite (proj1 (init_callbacks _ _)). }
  rewrite requestFile_dispatch, Empty. cbn [app].
  unfold _getChannelMembership. rewrite Cfg.
  rewrite (client_eq _ _ _ Cl), init_client by (exact ND || reflexivity).
  destruct (String.eqb pubsubChannel (channel +:+ "-requestFiles")) eqn:E.
  2:{ apply String.eqb_neq in E. split; [now right|].
      split; [split; [discriminate | intros [Bad _]; congruence]|].
      intros ? _ _ Bad. congruence. }
  apply String.eqb_eq in E. subst pubsubChannel.
  destruct (find (fun cm => String.eqb (channelName cm) channel) (memberships config))
    as [cm|] eqn:F.
  2:{ split; [now right|].
      split; [split; [discriminate|]|intros ? Bad; discriminate].
      intros [_ (cm & uri & Hin & Name & _)]. subst channel.
      rewrite (find_the_one _ cm ND Hin) in F. discriminate. }
  apply find_some in F as [Hin Name]. apply String.eqb_eq in Name. subst channel.
  assert (forall cm', In cm' (memberships config) -> channelName cm' = channelName cm ->
            cm' = cm) as Same.
  { intros cm' Hin' Name'. pose proof (find_the_one _ cm' ND Hin') as F'.
    rewrite Name', (find_the_one _ cm ND Hin) in F'. congruence. }
  assert ((match channelBucketUri cm with
           | Some uri => if JS.truthy uri then [(fileKey, channelName cm, from)] else []
           | None => []
           end = [(fileKey, channelName cm, from)])
          <-> exists uri, channelBucketUri cm = Some uri /\ JS.truthy uri = true) as Uri.
  { destruct (channelBucketUri cm) as [uri|].
    - destruct (JS.truthy uri) eqn:T.
      + split; [eauto | reflexivity].
      + split; [discriminate | intros (u & [= <-] & Bad); congruence].
    - split; [discriminate | intros (u & Bad & _); discriminate]. }
  split; [|split].
  - destruct (channelBucketUri cm) as [uri|]; [|now right].
    destruct (JS.truthy uri); [now left | now right].
  - rewrite Uri. split.
    + intros (uri & U & T). split; [reflexivity|]. exists cm, uri. auto.
    + intros [_ (cm' & uri & Hin' & Name' & U & T)].
      rewrite (Same cm' Hin' Name') in U. eauto.
  - intros subscribed Get In1 _.
    destruct (authorization cm) as [au|] eqn:Au; [|discriminate].
    inversion Get; subst subscribed.
    apply subscribed_requestFiles in In1. apply andb_true_iff in In1 as [Perm Role].
    exists cm, au. auto 10.
Qed.

(** X26. [subscribeToRemoteSubfeed] after initialization: one
    [requestSubfeed] goes out on [<ch>-requestFeeds] for every membership,
    in order, that has the role [requestFeeds] and the permission for it,
    and for no other; and when no two memberships share a channel name,
    the node listens on [<ch>-provideFeeds] of each channel it asks. *)
Theorem subscribeToRemoteSubfeed_asks_where_it_listens
    (config : NodeConfig) (feedId subfeedHash : string) (position : Z) :
  let st := _doInitialize (Some config) initialHub in
  published (subscribeToRemoteSubfeed feedId subfeedHash position st)
  = map (fun cm => (channelName cm +:+ "-requestFeeds",
                    RequestSubfeed feedId subfeedHash position))
        (List.filter wantsFeeds (memberships config)) /\
  (NoDup (map channelName (memberships config)) ->
   forall cm, In cm (memberships config) -> wantsFeeds cm = true ->
     exists subscribed,
       getPubsubClientForChannel st (channelName cm) = Some subscribed /\
       In (channelName cm +:+ "-provideFeeds") subscribed).
Proof.
  intros st. destruct (doInitialize_clients config initialHub) as (Cl & Pub & Cfg).
  fold st in Cl, Pub, Cfg. split.
  - unfold subscribeToRemoteSubfeed. rewrite Cfg, publish_to_all.
    + rewrite Pub, init_published, channelNamesToAsk_filter, map_map. reflexivity.
    + intros n Hn. rewrite channelNamesToAsk_filter in Hn.
      apply in_map_iff in Hn as (cm & <- & Hcm). apply filter_In in Hcm as [Hin W].
      unfold wantsFeeds in W. destruct (authorization cm) as [au|] eqn:Au;
        [|rewrite andb_false_r in W; discriminate].
      rewrite (client_eq _ _ _ Cl). eapply init_has_client; eassumption.
  - intros ND cm Hin W. rewrite (client_eq _ _ _ Cl), init_client by (exact ND || reflexivity).
    rewrite (find_the_one _ cm ND Hin).
    unfold wantsFeeds in W. destruct (authorization cm) as [au|] eqn:Au;
      [|rewrite andb_false_r in W; discriminate].
    eexists. split; [reflexivity|]. apply subscribed_provideFeeds.
    now rewrite andb_comm.
Qed.

(** X27. An incoming [requestSubfeed] and the subscriptions: for a node
    initialized from a configuration in which no two memberships share a
    channel name, the message is handed to the callbacks exactly when it
    came on [<ch>-requestFeeds] and the node subscribed to that pubsub
    channel; the check of role and permission in the handler lets through
    what the subscription lets through. *)
Theorem requestSubfeed_dispatch_matches_subscription
    (config : NodeConfig) (channel pubsubChannel : string) (from : NodeId)
    (feedId subfeedHash : string) (position : Z) :
  NoDup (map channelName (memberships config)) ->
  let st := _doInitialize (Some config) initialHub in
  let st' := _handleKacheryHubPubsubMessage
               {| in_channelName := channel; in_pubsubChannelName := pubsubChannel;
                  in_fromNodeId := from;
                  in_message := RequestSubfeed feedId subfeedHash position |} st in
  (subfeedRequests st' = [(channel, feedId, subfeedHash, position)] \/ subfeedRequests st' = []) /\
  (subfeedRequests st' = [(channel, feedId, subfeedHash, position)] <->
   pubsubChannel = channel +:+ "-requestFeeds" /\
   exists subscribed,
     getPubsubClientForChannel st channel = Some subscribed /\ In pubsubChannel subscribed).
Proof.
  intros ND st st'. subst st'.
  destruct (doInitialize_clients config initialHub) as (Cl & Pub & Cfg).
  fold st in Cl, Pub, Cfg.
  assert (subfeedRequests st = []) as Empty.
  { change (subfeedRequests st)
      with (subfeedRequests (fold_left initTurn (memberships config) initialHub)).
    now rewrite init_subfeedRequests. }
  rewrite (client_eq _ _ _ Cl), init_client by (exact ND || reflexivity).
  unfold _handleKacheryHubPubsubMessage, _getChannelMembership.
  cbn [in_message in_pubsubChannelName in_channelName in_fromNodeId]. rewrite Cfg.
  destruct (String.eqb pubsubChannel (channel +:+ "-requestFeeds")) eqn:E; cbn [negb].
  2:{ apply String.eqb_neq in E. rewrite Empty. split; [now right|].
      split; [discriminate | intros [Bad _]; congruence]. }
  apply String.eqb_eq in E. subst pubsubChannel.
  destruct (find (fun cm => String.eqb (channelName cm) channel) (memberships config))
    as [cm|] eqn:F.
  2:{ rewrite Empty. split; [now right|].
      split; [discriminate | intros [_ (subs & Bad & _)]; discriminate]. }
  apply find_some in F as [Hin Name]. apply String.eqb_eq in Name. subst channel.
  destruct (authorization cm) as [au|] eqn:Au.
  2:{ rewrite Empty. split; [now right|].
      split; [discriminate | intros [_ (subs & Bad & _)]; discriminate]. }
  pose proof (subscribed_requestFeeds cm au) as Sub. rewrite andb_comm in Sub.
  destruct (provideFeeds (roles cm) && provideFeeds (permissions au)).
  - cbn [subfeedRequests]. rewrite Empty. cbn [app]. split; [now left|].
    split; [|reflexivity]. intros _. split; [reflexivity|].
    eexists. split; [reflexivity|]. now apply Sub.
  - rewrite Empty. split; [now right|].
    split; [discriminate|]. intros [_ (subs & Get & In1)]. inversion Get; subst subs.
    apply Sub in In1. discriminate.
Qed.

Lemma fileKeysMatch_refl : forall k : FileKey, fileKeysMatch k k = true.
Proof.
  fix IH 1. intros [s m c]. cbn [fileKeysMatch]. rewrite String.eqb_refl.
  assert (JS.strict_eq m m = true) as -> by (now apply strict_eq_true).
  destruct c as [[[k a] b]|]; [|reflexivity].
  now rewrite IH, !Z.eqb_refl.
Qed.

(** X28. The [finished] status a provider sends with
    [sendUploadFileStatusMessage] goes out on [<ch>-provideFiles], and it
    is the message that ends a pending wait of [requestFileFromChannels]
    for the same file key with [true]; a [started] status keeps the wait
    pending. *)
Theorem uploadFileStatus_finished_completes_the_wait
    (name : string) (fileKey : FileKey) (st : HubState) (start now : Z)
    (events : list WaiterEvent) :
  is_Some (getPubsubClientForChannel st name) ->
  resolved (waiterAfter fileKey start events) = None ->
  (exists msg,
     published (sendUploadFileStatusMessage name fileKey Finished st)
       = published st ++ [(name +:+ "-provideFiles", msg)] /\
     resolved (waiterAfter fileKey start (events ++ [Incoming msg now])) = Some true) /\
  (exists msg,
     published (sendUploadFileStatusMessage name fileKey Started st)
       = published st ++ [(name +:+ "-provideFiles", msg)] /\
     resolved (waiterAfter fileKey start (events ++ [Incoming msg now])) = None).
Proof.
  intros [c Has] Pending.
  pose proof (settledRight_waiterAfter fileKey start events) as [T C].
  assert (complete (waiterAfter fileKey start events) = false) as Cw by (apply C, Pending).
  assert (status (waiterAfter fileKey start events) <> Finished) as NF.
  { intros F. apply T in F. congruence. }
  assert (forall msg, waiterAfter fileKey start (events ++ [Incoming msg now])
                      = onIncomingPubsubMessage fileKey msg now (waiterAfter fileKey start events))
    as Last.
  { intros msg. unfold waiterAfter. rewrite app_comm_cons, fold_left_app. reflexivity. }
  split.
  - exists (UploadFileStatus fileKey Finished). split.
    + unfold sendUploadFileStatusMessage, _publishMessageToPubsubChannel. now rewrite Has.
    + rewrite Last. unfold onIncomingPubsubMessage.
      rewrite Cw, fileKeysMatch_refl.
      destruct (stageFromStatus Finished >? stageFromStatus (status (waiterAfter fileKey start events)))
        eqn:G; [reflexivity|].
      exfalso. rewrite Z.gtb_ltb in G. apply Z.ltb_ge in G.
      destruct (status (waiterAfter fileKey start events)); simpl in G; try lia. congruence.
  - exists (UploadFileStatus fileKey Started). split.
    + unfold sendUploadFileStatusMessage, _publishMessageToPubsubChannel. now rewrite Has.
    + rewrite Last. unfold onIncomingPubsubMessage.
      rewrite Cw, fileKeysMatch_refl.
      destruct (stageFromStatus Started >? stageFromStatus (status (waiterAfter fileKey start events)))
        eqn:G; cbn [status resolved]; [exact Pending|].
      destruct (status (waiterAfter fileKey start events)) eqn:S; try exact Pending. congruence.
Qed.

(** X29. The promise of [requestFileFromChannels] is settled once: after
    it was resolved, with [true] or with [false], no later message or tick
    changes anything of the wait. *)
Theorem requestFile_waiter_settles_once
    (fileKey : FileKey) (start : Z) (events more : list WaiterEvent) (b : bool) :
  resolved (waiterAfter fileKey start events) = Some b ->
  waiterAfter fileKey start (events ++ more) = waiterAfter fileKey start events.
Proof.
  intros R. pose proof (settledRight_waiterAfter fileKey start events) as [_ C].
  assert (complete (waiterAfter fileKey start events) = true) as Cw.
  { destruct (complete (waiterAfter fileKey start events)) eqn:E; [reflexivity|].
    assert (resolved (waiterAfter fileKey start events) = None) by now apply C. congruence. }
  unfold waiterAfter in *. rewrite app_comm_cons, fold_left_app.
  induction more as [|ev rest IH]; [reflexivity|]. cbn [fold_left].
  now rewrite waiterStep_complete.
Qed.


(** X30. A count update on its way from a provider to a requester, both
    initialized from a configuration.  [reportToChannelSubfeedMessagesAdded]
    publishes the update, on [<ch>-provideFeeds], exactly when the
    configuration of the sender has a membership of the channel with an
    authorization: neither the role nor the permission [provideFeeds] is
    asked for.  A receiver with the role and the permission [requestFeeds]
    in the channel, in a configuration where no two memberships share a
    channel name, listens on that pubsub channel, and hands feed, subfeed,
    channel and count to its callbacks. *)
Theorem countUpdate_from_provider_to_requester
    (senderConfig receiverConfig : NodeConfig) (name feedId subfeedHash : string)
    (numMessages : Z) (from : NodeId) :
  let sender := _doInitialize (Some senderConfig) initialHub in
  let receiver := _doInitialize (Some receiverConfig) initialHub in
  let msg := SubfeedMessageCountUpdate feedId subfeedHash numMessages in
  published (reportToChannelSubfeedMessagesAdded name feedId subfeedHash numMessages sender)
  = (if existsb (fun cm => String.eqb (channelName cm) name &&
                           bool_decide (is_Some (authorization cm)))
                (memberships senderConfig)
     then [(name +:+ "-provideFeeds", msg)]
     else []) /\
  (NoDup (map channelName (memberships receiverConfig)) ->
   forall cm, In cm (memberships receiverConfig) -> channelName cm = name ->
     wantsFeeds cm = true ->
     exists subscribed,
       getPubsubClientForChannel receiver name = Some subscribed /\
       In (name +:+ "-provideFeeds") subscribed /\
       countUpdates (_handleKacheryHubPubsubMessage
                       {| in_channelName := name;
                          in_pubsubChannelName := name +:+ "-provideFeeds";
                          in_fromNodeId := from; in_message := msg |} receiver)
       = [(feedId, subfeedHash, name, numMessages)]).
Proof.
  intros sender receiver msg. split.
  - destruct (doInitialize_clients senderConfig initialHub) as (Cl & Pub & _).
    fold sender in Cl, Pub.
    assert (published sender = []) as Empty by (now rewrite Pub, init_published).
    pose proof (init_client_exists (memberships senderConfig) initialHub name eq_refl) as Ex.
    rewrite <- (client_eq _ _ _ Cl) in Ex.
    unfold reportToChannelSubfeedMessagesAdded, _publishMessageToPubsubChannel.
    destruct (getPubsubClientForChannel sender name) as [c|].
    + cbn [published]. rewrite Empty. rewrite (proj1 Ex) by eauto. reflexivity.
    + rewrite Empty. destruct (existsb _ _); [|reflexivity].
      destruct (proj2 Ex eq_refl) as [? Bad]. discriminate.
  - intros ND cm Hin Name W.
    destruct (doInitialize_clients receiverConfig initialHub) as (Cl & _ & _).
    fold receiver in Cl.
    assert (countUpdates receiver = []) as Empty.
    { change (countUpdates receiver)
        with (countUpdates (fold_left initTurn (memberships receiverConfig) initialHub)).
      now rewrite (proj2 (init_callbacks _ _)). }
    rewrite (client_eq _ _ _ Cl), init_client by (exact ND || reflexivity).
    subst name. rewrite (find_the_one _ cm ND Hin).
    unfold wantsFeeds in W. destruct (authorization cm) as [au|] eqn:Au;
      [|rewrite andb_false_r in W; discriminate].
    eexists. split; [reflexivity|]. split.
    + apply subscribed_provideFeeds. now rewrite andb_comm.
    + unfold _handleKacheryHubPubsubMessage.
      cbn [in_message in_pubsubChannelName in_channelName in_fromNodeId].
      rewrite String.eqb_refl. cbn [negb countUpdates]. now rewrite Empty.
Qed.

End FeedFacts.

(** ** More runs of the model on the samples *)

Module IngestRuns.
Import Storage StorageAccess StorageSamples StoreSamples Manifests.
Import StorageFacts ManifestFacts IngestFacts ConcatFacts AccessFacts DownloadFacts.

Lemma tableSha1_length (b : Buffer) : String.length (sha1Hex b) = 40%nat.
Proof.
  unfold sha1Hex, tableRuntime, tableSha1.
  repeat (destruct (String.eqb _ _); [reflexivity|]). reflexivity.
Qed.

Lemma tableSha1_truthy (b : Buffer) : JS.truthy (sha1Hex b) = true.
Proof. apply truthy_of_length, tableSha1_length. Qed.

(** The theorem on the six bytes of [hello], streamed in two buffers
    into an empty store. *)
Lemma storeFileFromStream_round_trip_witness :
  files emptyDisk !! destPath storageDir helloSha1 = None /\
  files (snd (storeFileFromStream storageDir
                [DsData (text "hello"); DsData (text newline); DsFinished] 6 false
                "AbCdEfGhIj" "KlMnO" emptyDisk))
    !! destPath storageDir helloSha1 = Some (text ("hello" +:+ newline)) /\
  findFile storageDir
    (snd (storeFileFromStream storageDir
            [DsData (text "hello"); DsData (text newline); DsFinished] 6 false
            "AbCdEfGhIj" "KlMnO" emptyDisk))
    (sha1Key helloSha1)
  = {| found := true; size := 6; localFilePath := Some (destPath storageDir helloSha1) |}.
Proof.
  pose proof (storeFileFromStream_round_trip storageDir [text "hello"; text newline]
                "AbCdEfGhIj" "KlMnO" emptyDisk tableSha1_length eq_refl)
    as (_ & Installed & _ & Found & _).
  split; [reflexivity|]. split; [exact Installed | exact Found].
Defined.


(** The theorem on a store that already holds a file, with other bytes,
    under the hash of [hello]: the stream is taken, the file stays. *)
Lemma storeFileFromStream_keeps_existing_content_witness :
  files corruptDisk !! destPath storageDir helloSha1 = Some (text "HELLO") /\
  files (snd (storeFileFromStream storageDir
                [DsData (text "hello"); DsData (text newline); DsFinished] 999 false
                "AbCdEfGhIj" "KlMnO" corruptDisk))
    !! destPath storageDir helloSha1 = Some (text "HELLO").
Proof.
  pose proof (storeFileFromStream_keeps_existing_content storageDir [text "hello"; text newline]
                999 "AbCdEfGhIj" "KlMnO" corruptDisk (text "HELLO") tableSha1_length eq_refl)
    as (_ & Kept & _).
  split; [reflexivity | exact Kept].
Defined.

(** The theorem on [hello] declared with seven bytes. *)
Lemma storeFileFromStream_wrong_declared_size_witness :
  settled (fst (storeFileFromStream storageDir
                  [DsData (text "hello"); DsData (text newline); DsFinished] 7 false
                  "AbCdEfGhIj" "KlMnO" emptyDisk))
    = Some (Throws (UnexpectedSizeAfterRenaming (destPath storageDir helloSha1) 6 7)) /\
  fileStored (snd (storeFileFromStream storageDir
                     [DsData (text "hello"); DsData (text newline); DsFinished] 7 false
                     "AbCdEfGhIj" "KlMnO" emptyDisk))
    = [].
Proof.
  assert (7 <> Z.of_nat (length (concat [text "hello"; text newline]))) as Wrong
    by (vm_compute; discriminate).
  pose proof (storeFileFromStream_wrong_declared_size storageDir [text "hello"; text newline]
                7 "AbCdEfGhIj" "KlMnO" emptyDisk Wrong eq_refl)
    as (Rejected & _ & Quiet).
  split; [exact Rejected | exact Quiet].
Defined.

(** The theorem on the chunk [abc] taken twice. *)
Lemma concatenate_installs_the_concatenation_witness :
  fst (concatenateChunksAndStoreResult storageDir otherSha1 [abcSha1; abcSha1]
         "AbCdEfGhIj" chunkDisk)
    = Returns tt /\
  findFile storageDir
    (snd (concatenateChunksAndStoreResult storageDir otherSha1 [abcSha1; abcSha1]
            "AbCdEfGhIj" chunkDisk))
    (sha1Key otherSha1)
  = {| found := true; size := 6; localFilePath := Some (destPath storageDir otherSha1) |}.
Proof.
  assert (chunkStored storageDir (files chunkDisk) abcSha1 (text "abc")) as Have
    by (split; [reflexivity | split; [reflexivity | discriminate]]).
  assert (Forall2 (chunkStored storageDir (files chunkDisk)) [abcSha1; abcSha1]
            [text "abc"; text "abc"]) as Both
    by (repeat (constructor; [exact Have|]); constructor).
  pose proof (concatenate_installs_the_concatenation storageDir chunkDisk otherSha1
                [abcSha1; abcSha1] [text "abc"; text "abc"] "AbCdEfGhIj" eq_refl eq_refl
                Both eq_refl)
    as (Returned & _ & _ & Found).
  split; [exact Returned | exact Found].
Defined.

(** The theorem on an empty store. *)
Lemma concatenate_missing_chunk_touches_nothing_witness :
  exists c,
    concatenateChunksAndStoreResult storageDir helloSha1 [abcSha1] "AbCdEfGhIj" emptyDisk
    = (Throws (MissingChunk c), emptyDisk).
Proof.
  assert (Exists (fun c => found (findFile storageDir emptyDisk (sha1Key c)) = false) [abcSha1])
    as Missing by (constructor; reflexivity).
  destruct (concatenate_missing_chunk_touches_nothing storageDir emptyDisk helloSha1 [abcSha1]
              "AbCdEfGhIj" eq_refl Missing)
    as (before & c & after & _ & _ & _ & Thrown).
  exists c. exact Thrown.
Defined.

(** The theorem on six bytes with chunks of three, both chunks being
    [abc]. *)
Lemma concatenate_rebuilds_file_from_manifest_chunks_witness :
  map chunk_sha1 (manifestChunks (buildManifest 3 [text "ab"; text "cabc"]))
    = [abcSha1; abcSha1] /\
  files (snd (concatenateChunksAndStoreResult storageDir otherSha1 [abcSha1; abcSha1]
                "AbCdEfGhIj" chunkDisk))
    !! destPath storageDir otherSha1 = Some (text "abcabc").
Proof.
  assert (forall c, In c (manifestChunks (buildManifest 3 [text "ab"; text "cabc"])) ->
            files chunkDisk !! destPath storageDir (chunk_sha1 c)
            = Some (slice (concat [text "ab"; text "cabc"]) (chunk_start c) (chunk_end c)))
    as Have.
  { intros c Hc. vm_compute in Hc. destruct Hc as [<- | [<- | []]]; reflexivity. }
  pose proof (concatenate_rebuilds_file_from_manifest_chunks storageDir 3
                [text "ab"; text "cabc"] "AbCdEfGhIj" chunkDisk ltac:(lia) tableSha1_truthy
                eq_refl Have)
    as (_ & Installed & _).
  split; [reflexivity | exact Installed].
Defined.

(** The theorem on the last two bytes of [abc]. *)
Lemma ranged_read_gives_the_range_witness :
  getFileDataStreamy storageDir chunkDisk (sha1Key abcSha1) (Some 1) (Some 3)
    = Returns (text "bc").
Proof.
  exact (proj1 (ranged_read_gives_the_range storageDir chunkDisk abcSha1 (text "abc") 1 3
                  eq_refl eq_refl ltac:(lia) ltac:(unfold MAX_SAFE_INTEGER; lia))).
Defined.

(** The theorem on a key for the bytes 1 to 3 of [abc], under a hash
    that is not in the store. *)
Lemma chunk_read_is_parent_range_witness :
  findFile storageDir chunkDisk
    (Build_FileKey helloSha1 None (Some (sha1Key abcSha1, 1, 3)))
  = {| found := true; size := 2; localFilePath := None |} /\
  getFileDataStreamy storageDir chunkDisk
    (Build_FileKey helloSha1 None (Some (sha1Key abcSha1, 1, 3))) None None
  = Returns (text "bc").
Proof.
  pose proof (chunk_read_is_parent_range storageDir chunkDisk helloSha1 None (sha1Key abcSha1)
                1 3 ltac:(lia) ltac:(unfold MAX_SAFE_INTEGER; lia)
                eq_refl eq_refl eq_refl)
    as (Found & Read & _).
  split; [exact Found|]. etransitivity; [exact Read | reflexivity].
Defined.

(** The theorem on the chunk [abc]. *)
Lemma moveFileToTrash_frees_the_content_path_witness :
  files (snd (moveFileToTrash storageDir abcSha1 chunkDisk)) !! destPath storageDir abcSha1
    = None /\
  files (snd (moveFileToTrash storageDir abcSha1 chunkDisk)) !! trashPath storageDir abcSha1
    = Some (text "abc") /\
  found (findFile storageDir (snd (moveFileToTrash storageDir abcSha1 chunkDisk))
           (sha1Key abcSha1))
    = false.
Proof.
  pose proof (moveFileToTrash_frees_the_content_path storageDir chunkDisk abcSha1 (text "abc")
                eq_refl)
    as (_ & Freed & Trashed & _ & _ & Gone).
  split; [exact Freed|]. split; [exact Trashed | exact (Gone eq_refl)].
Defined.

(** The theorem on the linked file [hello.txt]: it is gone from where it
    was. *)
Lemma moveFileToTrash_takes_the_linked_file_witness :
  files staleLinkDisk !! "/data/hello.txt" = Some (text ("goodbye" +:+ newline)) /\
  files (snd (moveFileToTrash storageDir helloSha1 staleLinkDisk)) !! "/data/hello.txt" = None /\
  found (findFile storageDir (snd (moveFileToTrash storageDir helloSha1 staleLinkDisk))
           (sha1Key helloSha1))
    = false.
Proof.
  pose proof (moveFileToTrash_takes_the_linked_file storageDir staleLinkDisk helloSha1
                sampleLinkText sampleLink (text ("goodbye" +:+ newline))
                eq_refl eq_refl eq_refl eq_refl eq_refl eq_refl)
    as (_ & Taken & _ & _ & Gone).
  split; [reflexivity|]. split; [exact Taken | exact Gone].
Defined.

(** The theorem on a bucket that returns [abc], the socket closing after
    the response. *)
Lemma storeFileFromBucketUrl_round_trip_witness :
  ds_terminal (dl_ret (fst (storeFileFromBucketUrl storageDir abcSha1 3
                              [HttpData (text "ab"); HttpData (text "c"); HttpEnd; SocketClose]
                              "AbCdEfGhIj" emptyDisk)))
    = Some Ended /\
  fileStored (snd (storeFileFromBucketUrl storageDir abcSha1 3
                     [HttpData (text "ab"); HttpData (text "c"); HttpEnd; SocketClose]
                     "AbCdEfGhIj" emptyDisk))
    = [abcSha1].
Proof.
  pose proof (storeFileFromBucketUrl_round_trip storageDir [text "ab"; text "c"] [SocketClose]
                "AbCdEfGhIj" emptyDisk eq_refl eq_refl)
    as (Ended & _ & _ & Told & _).
  split; [exact Ended | exact Told].
Defined.

(** The theorem on the same download. *)
Lemma storeFileFromBucketUrl_settles_once_witness :
  dl_ret (fst (storeFileFromBucketUrl storageDir abcSha1 3
                 ([HttpData (text "ab"); HttpData (text "c"); HttpEnd]
                  ++ [SocketClose; HttpError SocketClosed])
                 "AbCdEfGhIj" emptyDisk))
  = dl_ret (fst (storeFileFromBucketUrl storageDir abcSha1 3
                   [HttpData (text "ab"); HttpData (text "c"); HttpEnd]
                   "AbCdEfGhIj" emptyDisk)).
Proof.
  assert (ds_terminal (dl_ret (fst (storeFileFromBucketUrl storageDir abcSha1 3
                                      [HttpData (text "ab"); HttpData (text "c"); HttpEnd]
                                      "AbCdEfGhIj" emptyDisk)))
          <> None) as Done by (vm_compute; discriminate).
  exact (proj1 (storeFileFromBucketUrl_settles_once storageDir abcSha1 3
                  [HttpData (text "ab"); HttpData (text "c"); HttpEnd]
                  [SocketClose; HttpError SocketClosed] "AbCdEfGhIj" emptyDisk Done)).
Defined.

End IngestRuns.

Module NumberingRuns.
Import Subfeed SubfeedReads SubfeedSamples FeedSamples NumberingFacts.

Lemma numbered_m0 : numbered [m0].
Proof. intros [|i] sm Hi; simpl in Hi; [|discriminate]. now inversion Hi. Qed.

Lemma numbered_m0_m1 : numbered [m0; m1].
Proof.
  intros [|[|i]] sm Hi; simpl in Hi; try discriminate; now inversion Hi.
Qed.

(** The theorem on messages 1 and 2 appended to message 0. *)
Lemma addSignedMessages_keeps_numbering_witness :
  addSignedMessages [m1; m2] (manager [m0] (Some [m0]))
    = (Returns tt, manager [m0; m1; m2] (Some [m0; m1; m2])) /\
  exists added : list SignedSubfeedMessage,
    [m0; m1; m2] = [m0] ++ added /\ sublist added [m1; m2] /\ numbered ([m0] ++ added).
Proof.
  split; [reflexivity|].
  destruct (proj1 (@addSignedMessages_keeps_numbering MemoryLog memoryLog (manager [m0] (Some [m0])) [m0] [m1; m2]
                     eq_refl numbered_m0)
              (manager [m0; m1; m2] (Some [m0; m1; m2])) eq_refl)
    as (added & Cache & Sub & Num & _).
  exists added. split; [now inversion Cache|]. split; [exact Sub | exact Num].
Defined.

(** The theorem on messages 1 and 2 sent to a list that has 0 and 1. *)
Lemma addSignedMessages_consecutive_batch_witness :
  addSignedMessages [m1; m2] (manager [m0; m1] (Some [m0; m1]))
    = (Returns tt, manager [m0; m1; m1; m2] (Some [m0; m1; m2])).
Proof.
  assert (consecutiveFrom 1 [m1; m2]) as Consecutive.
  { intros [|[|i]] sm Hi; simpl in Hi; try discriminate; now inversion Hi. }
  exact (@addSignedMessages_consecutive_batch MemoryLog memoryLog (manager [m0; m1] (Some [m0; m1])) [m0; m1]
           [m1; m2] 1 [m0; m1; m1; m2] eq_refl numbered_m0_m1 Consecutive ltac:(simpl; lia)
           eq_refl).
Defined.

(** The theorem on message 2 sent to a list that has message 0 only. *)
Lemma addSignedMessages_refuses_a_gap_witness :
  addSignedMessages [m2] (manager [m0] (Some [m0]))
    = (Throws (UnexpectedFirstMessageNumber 2 1), manager [m0] (Some [m0])).
Proof.
  exact (@addSignedMessages_refuses_a_gap MemoryLog memoryLog (manager [m0] (Some [m0])) [m0] [m2] 2
           eq_refl numbered_m0 eq_refl ltac:(left; simpl; lia)).
Defined.

(** The theorem on a forged message 1. *)
Lemma addSignedMessages_does_not_verify_witness :
  verifySignature (body forged) "feed01" (signature forged) = false /\
  addSignedMessages [forged] (manager [m0] (Some [m0]))
    = (Returns tt, manager [m0; forged] (Some [m0; forged])) /\
  exists e, initializeFromLocal (manager [m0; forged] (Some [m0; forged]))
            = (Throws e, manager [m0; forged] (Some [m0; forged])).
Proof.
  split; [reflexivity|].
  exact (@addSignedMessages_does_not_verify MemoryLog spelledSignatures memoryLog (manager [m0] (Some [m0])) [m0] forged [m0; forged]
           eq_refl numbered_m0 eq_refl eq_refl eq_refl eq_refl).
Defined.

End NumberingRuns.

Module FeedRuns.
Import Hub HubFeeds HubSamples FeedSamples WaiterFacts FeedFacts.

(** The theorem on a node that provides feeds on [lab]. *)
Lemma requestSubfeed_dispatch_matches_subscription_witness :
  subfeedRequests (_handleKacheryHubPubsubMessage
                     {| in_channelName := "lab"; in_pubsubChannelName := "lab-requestFeeds";
                        in_fromNodeId := "peer";
                        in_message := RequestSubfeed sampleFeedId sampleSubfeedHash 0 |}
                     (_doInitialize (Some feedConfig) initialHub))
    = [("lab", sampleFeedId, sampleSubfeedHash, 0)] /\
  exists subscribed,
    getPubsubClientForChannel (_doInitialize (Some feedConfig) initialHub) "lab"
      = Some subscribed /\
    In "lab-requestFeeds" subscribed.
Proof.
  split; [reflexivity|].
  exact (proj2 (proj1 (proj2 (requestSubfeed_dispatch_matches_subscription feedConfig "lab"
                                "lab-requestFeeds" "peer" sampleFeedId sampleSubfeedHash 0
                                (NoDup_singleton "lab")))
                  eq_refl)).
Defined.

(** The theorem on a node that provides files on [lab]. *)
Lemma requestFile_dispatch_on_subscription_witness :
  provideFiles (roles fileProvider) = true /\
  fileRequests (_handleKacheryHubPubsubMessage requestOnLab
                  (_doInitialize (Some fileConfig) initialHub))
    = [(helloKey, "lab", "peer")].
Proof.
  split; [reflexivity|].
  apply (proj1 (proj2 (requestFile_dispatch_on_subscription fileConfig "lab"
                         "lab-requestFiles" "peer" helloKey (NoDup_singleton "lab")))).
  split; [reflexivity|]. exists fileProvider, "gs://lab-bucket".
  repeat split. now left.
Defined.

(** The theorem on a wait that has seen nothing yet. *)
Lemma uploadFileStatus_finished_completes_the_wait_witness :
  exists msg,
    published (sendUploadFileStatusMessage "lab" helloKey Finished (hubOf permittedWithoutRole))
      = [("lab-provideFiles", msg)] /\
    resolved (waiterAfter helloKey 0 [Incoming msg 5]) = Some true.
Proof.
  exact (proj1 (uploadFileStatus_finished_completes_the_wait "lab" helloKey
                  (hubOf permittedWithoutRole) 0 5 [] (ex_intro _ _ eq_refl) eq_refl)).
Defined.

(** The theorem on a wait that ended with [finished]: a tick long after
    changes nothing. *)
Lemma requestFile_waiter_settles_once_witness :
  waiterAfter helloKey 0
    ([Incoming (UploadFileStatus helloKey Finished) 10] ++ [CheckTick 100000])
  = waiterAfter helloKey 0 [Incoming (UploadFileStatus helloKey Finished) 10].
Proof.
  exact (requestFile_waiter_settles_once helloKey 0
           [Incoming (UploadFileStatus helloKey Finished) 10] [CheckTick 100000] true eq_refl).
Defined.

End FeedRuns.
